(** * Deployment orchestration and dual-mode change application

    A shallow embedding of

    - [deployment/keystone/capability_management.go]
      ([AddCapabilities], [CapabilityID], [dedupCapabilities]), and
    - the CCIP deployment code ([deployPrerequisiteChainContracts],
      [deployPrerequisiteContracts], [configureChain], [deployCCIPContracts],
      [deployChainContractsForChains], [deployChainContracts]),

    followed by the notions its properties are stated with, sample
    environments on which the embedding runs, and the properties.

    Go functions returning [(T, error)] become computations in a small
    writer-and-error monad: the result is [Ok v] or [Err e], and every
    interaction with a collaborator (a contract read, a transaction, a
    confirmation wait, an address-book write, a log line) is recorded, in
    program order, in the list of events the computation emits.  What a
    chain or a contract binding answers to a request is a field of the
    record that stands for it, so a run is a function of its arguments.
    Collaborators of the packages that are not among the sources are
    section variables, or are modelled from the specification where a
    comment says so. *)

From stdpp Require Import gmap strings list.
From Stdlib Require Import ZArith.
From Stdlib.Strings Require Import Ascii Byte.

Local Open Scope string_scope.
Local Open Scope list_scope.

(** ** Go values shared by both packages *)

(** [common.Address] (20 bytes) and [[32]byte], as the numbers they spell. *)
Definition Address := N.
Definition Hash := N.
Definition Bytes := list byte.

(** A Go [error].  [Errorf] keeps the format string and the arguments of
    [fmt.Errorf] apart, so that what a message names can be read off the
    arguments; [ArgErr] is a [%w] operand.  [Opaque] is an error handed back
    by a collaborator outside the modelled files.  [Panic] is a run-time
    panic (a nil dereference): it unwinds through every caller, and no
    [if err != nil] sees it. *)
Inductive error : Type :=
| Opaque (origin : string)
| Panic (msg : string)
| Errorf (format : string) (args : list fmtarg)
with fmtarg : Type :=
| ArgUint (n : N)
| ArgString (s : string)
| ArgHash (h : Hash)
| ArgErr (e : error).

(** A Go result pair [(v, err)]: [Ok v] is [(v, nil)]. *)
Inductive Result (A : Type) : Type :=
| Ok (v : A)
| Err (e : error).
Arguments Ok {A} v.
Arguments Err {A} e.

Definition is_ok {A} (r : Result A) : bool :=
  match r with Ok _ => true | Err _ => false end.

(** ** The effect monad *)

Module Eff.

(** A computation over events of type [E]: its result and the events it
    emitted.  An error stops the computation; the events emitted up to
    that point stay. *)
Definition M (E A : Type) : Type := (Result A * list E)%type.

Definition ret {E A} (a : A) : M E A := (Ok a, []).

Definition fail {E A} (e : error) : M E A := (Err e, []).

Definition emit {E} (ev : E) : M E unit := (Ok tt, [ev]).

Definition bind {E A B} (m : M E A) (k : A -> M E B) : M E B :=
  match m with
  | (Ok a, t) => let '(r, t') := k a in (r, t ++ t')
  | (Err e, t) => (Err e, t)
  end.

(** The outcome of a call into a collaborator, lifted without events. *)
Definition lift {E A} (r : Result A) : M E A := (r, []).

(** [if err != nil { return ..., f(err) }] around [m]. *)
Definition on_error {E A} (f : error -> error) (m : M E A) : M E A :=
  match m with
  | (Err (Panic msg), t) => (Err (Panic msg), t)
  | (Err e, t) => (Err (f e), t)
  | ok => ok
  end.

(** [if err != nil { <emit evs>; return ..., f(err) }] around [m]. *)
Definition on_error_do {E A} (evs : list E) (f : error -> error) (m : M E A)
  : M E A :=
  match m with
  | (Err (Panic msg), t) => (Err (Panic msg), t)
  | (Err e, t) => (Err (f e), t ++ evs)
  | ok => ok
  end.

Definition result {E A} (m : M E A) : Result A := fst m.
Definition events {E A} (m : M E A) : list E := snd m.

End Eff.

Import Eff.

Declare Scope eff_scope.
Delimit Scope eff_scope with eff.
Notation "x <- m ;; k" := (bind m (fun x => k))
  (at level 100, m at next level, right associativity) : eff_scope.
Notation "m ;;; k" := (bind m (fun _ => k))
  (at level 100, right associativity) : eff_scope.
Local Open Scope eff_scope.

(** ** Package keystone: capability_management.go *)

Module Keystone.

(** [kcr.CapabilitiesRegistryCapability], the argument struct of the
    registry binding.  The code reads [LabelledName] and [Version]; the
    three fields after them are the rest of the registry's capability
    tuple, the "any other field" of the specification. *)
Record CapabilitiesRegistryCapability : Type := {
  LabelledName : string;
  Version : string;
  CapabilityType : N;
  ResponseType : N;
  ConfigurationContract : Address;
}.

(** [kcr.CapabilitiesRegistryCapabilityInfo], an element of what
    [GetCapabilities] returns. *)
Record CapabilitiesRegistryCapabilityInfo : Type := {
  HashedId : Hash;
  InfoLabelledName : string;
  InfoVersion : string;
  IsDeprecated : bool;
}.

(** [bind.TransactOpts]: who signs, and whether the binding only builds
    the transaction ([NoSend]) instead of submitting it. *)
Record TransactOpts : Type := {
  From : Address;
  NoSend : bool;
}.

(** [types.Transaction], as far as the code looks at it. *)
Record Transaction : Type := {
  TxHash : Hash;
  TxData : Bytes;
}.

(** The generated binding [*kcr.CapabilitiesRegistry] of one registry
    contract: its address and the outcome of each call the code makes. *)
Record CapabilitiesRegistry : Type := {
  RegistryAddress : Address;
  GetCapabilities : Result (list CapabilitiesRegistryCapabilityInfo);
  GetHashedCapabilityId : string -> string -> Result Hash;
  RegistryAddCapabilities :
    TransactOpts -> list CapabilitiesRegistryCapability -> Result Transaction;
}.

(** [ContractSet], as far as the code reads it. *)
Record ContractSet : Type := {
  ContractSetCapabilitiesRegistry : CapabilitiesRegistry;
}.

(** [deployment.Chain]: [Confirm] is a function-valued field there too. *)
Record Chain : Type := {
  Selector : N;
  DeployerKey : TransactOpts;
  Confirm : Transaction -> Result N;
}.

(** [mcms.Operation] and [timelock.BatchChainOperation]. *)
Record Operation : Type := {
  To : Address;
  Data : Bytes;
  Value : Z;
}.

Record BatchChainOperation : Type := {
  ChainIdentifier : N;
  Batch : list Operation;
}.

(** What [AddCapabilities] does to the outside world. *)
Inductive Event : Type :=
| ReadGetCapabilities (registry : Address)
| ReadGetHashedCapabilityId (registry : Address) (name version : string)
| Transact (registry : Address) (opts : TransactOpts)
           (capabilities : list CapabilitiesRegistryCapability)
| WaitConfirm (chain : N) (tx : Transaction)
| LogInfo (msg : string) (capabilities : list CapabilitiesRegistryCapability).

(** An event changes the chain when it submits a transaction for real. *)
Definition onchain_effect (ev : Event) : bool :=
  match ev with
  | Transact _ opts _ => negb (NoSend opts)
  | _ => false
  end.

Definition is_confirm (ev : Event) : bool :=
  match ev with
  | WaitConfirm _ _ => true
  | _ => false
  end.

(** Modelled from the spec: [deployment.SimTransactOpts] is not among the
    sources; batched mode "returns immediately with a placeholder result;
    no on-chain effect occurs", so the options it hands to the binding ask
    for a transaction that is built but not sent. *)
Definition SimTransactOpts : TransactOpts :=
  {| From := 0%N; NoSend := true |}.

(** [CapabilityID]: [fmt.Sprintf("%s@%s", c.LabelledName, c.Version)]. *)
Definition CapabilityID (c : CapabilitiesRegistryCapability) : string :=
  LabelledName c +:+ "@" +:+ Version c.

Section capability_management.

(** [DecodeErr] lives in another file of the package; it maps an error
    to an error. *)
Variable DecodeErr : error -> error.

Definition callGetCapabilities (registry : CapabilitiesRegistry)
  : M Event (list CapabilitiesRegistryCapabilityInfo) :=
  emit (ReadGetCapabilities (RegistryAddress registry)) ;;;
  lift (GetCapabilities registry).

Definition callGetHashedCapabilityId (registry : CapabilitiesRegistry)
    (name version : string) : M Event Hash :=
  emit (ReadGetHashedCapabilityId (RegistryAddress registry) name version) ;;;
  lift (GetHashedCapabilityId registry name version).

Definition callAddCapabilities (registry : CapabilitiesRegistry)
    (opts : TransactOpts) (caps : list CapabilitiesRegistryCapability)
  : M Event Transaction :=
  emit (Transact (RegistryAddress registry) opts caps) ;;;
  lift (RegistryAddCapabilities registry opts caps).

Definition callConfirm (chain : Chain) (tx : Transaction) : M Event N :=
  emit (WaitConfirm (Selector chain) tx) ;;;
  lift (Confirm chain tx).

(** The second loop of [dedupCapabilities]: [seen] and [out] are the
    loop-carried variables. *)
Fixpoint dedupLoop (registry : CapabilitiesRegistry)
    (existingByID : gset Hash)
    (capabilities : list CapabilitiesRegistryCapability)
    (seen : gset string) (out : list CapabilitiesRegistryCapability)
  : M Event (list CapabilitiesRegistryCapability) :=
  match capabilities with
  | [] => ret out
  | candidate :: rest =>
      h <- on_error
             (fun err => Errorf "failed to call GetHashedCapabilityId: %w" [ArgErr err])
             (callGetHashedCapabilityId registry
                (LabelledName candidate) (Version candidate)) ;;
      if decide (CapabilityID candidate ∈ seen) then
        dedupLoop registry existingByID rest seen out
      else
        let seen := {[ CapabilityID candidate ]} ∪ seen in
        if decide (h ∈ existingByID) then
          dedupLoop registry existingByID rest seen out
        else
          dedupLoop registry existingByID rest seen (out ++ [candidate])
  end.

Definition dedupCapabilities (registry : CapabilitiesRegistry)
    (capabilities : list CapabilitiesRegistryCapability)
  : M Event (list CapabilitiesRegistryCapability) :=
  existing <- on_error
                (fun err => Errorf "failed to call GetCapabilities: %w" [ArgErr err])
                (callGetCapabilities registry) ;;
  let existingByID : gset Hash :=
    foldl (fun m cap => {[ HashedId cap ]} ∪ m) ∅ existing in
  dedupLoop registry existingByID capabilities ∅ [].

Definition AddCapabilities (contractSet : ContractSet) (chain : Chain)
    (capabilities : list CapabilitiesRegistryCapability) (useMCMS : bool)
  : M Event (option BatchChainOperation) :=
  if decide (length capabilities = 0) then ret None
  else
    let registry := ContractSetCapabilitiesRegistry contractSet in
    deduped <- on_error
                 (fun err => Errorf "failed to dedup capabilities: %w" [ArgErr err])
                 (dedupCapabilities registry capabilities) ;;
    let txOpts := if useMCMS then SimTransactOpts else DeployerKey chain in
    tx <- on_error
            (fun err => Errorf "failed to add capabilities: %w" [ArgErr (DecodeErr err)])
            (callAddCapabilities registry txOpts deduped) ;;
    if negb useMCMS then
      on_error
        (fun err => Errorf "failed to confirm AddCapabilities confirm transaction %s: %w"
                      [ArgHash (TxHash tx); ArgErr err])
        (callConfirm chain tx) ;;;
      emit (LogInfo "registered capabilities" deduped) ;;;
      ret None
    else
      ret (Some {| ChainIdentifier := Selector chain;
                   Batch := [ {| To := RegistryAddress registry;
                                 Data := TxData tx;
                                 Value := 0%Z |} ] |}).

End capability_management.

End Keystone.

(** ** Package changeset: the CCIP deployment code *)

Module CCIP.

(** The [deployment.ContractType] constants of the [var] block. *)
Inductive ContractType : Type :=
| MockRMN | RMNRemote | LinkToken | ARMProxy | WETH9 | Router | CommitStore
| TokenAdminRegistry | RegistryModule | NonceManager | FeeQuoter | CCIPHome
| CCIPConfig | RMNHome | OnRamp | OffRamp | CapabilitiesRegistry | PriceFeed
| TestRouter | Multicall3 | CCIPReceiver | BurnMintToken | BurnMintTokenPool
| USDCToken | USDCMockTransmitter | USDCTokenMessenger | USDCTokenPool.

(** The [deployment.Version...] constants the code names. *)
Inductive SemVer : Type :=
| Version1_0_0 | Version1_2_0 | Version1_5_0 | Version1_6_0_dev.

Record TypeAndVersion : Type := NewTypeAndVersion {
  Type_ : ContractType;
  Version : SemVer;
}.

#[export] Instance ContractType_eq_dec : EqDecision ContractType.
Proof. solve_decision. Defined.
#[export] Instance SemVer_eq_dec : EqDecision SemVer.
Proof. solve_decision. Defined.
#[export] Instance TypeAndVersion_eq_dec : EqDecision TypeAndVersion.
Proof. solve_decision. Defined.

(** The calls the code makes through contract bindings: transactions
    ([CollaboratorCall] stands for those issued inside a helper that is not
    among the sources)... *)
Inductive Method : Type :=
| AddRegistryModule (module : Address)
| SetConfig (digest : Hash) (signers : list (N * Address)) (F : N)
| ApplyAuthorizedCallerUpdates (addedCallers : list Address)
| CollaboratorCall (name : string) (chainSelector : N).

(** ... and reads. *)
Inductive View : Type :=
| IsRegistryModule (module : Address)
| GetActiveDigest
| GetHashedCapabilityId (name version : string)
| GetCapability (id : Hash).

(** A submitted transaction: a contract creation or a call. *)
Inductive Tx : Type :=
| TxDeploy (tv : TypeAndVersion) (args : list Address)
| TxCall (to : Address) (call : Method).

(** [deployment.Chain]: the selector, the deployer key, and what the chain
    answers to each kind of request made through [chain.Client],
    [chain.DeployerKey] and [chain.Confirm]. *)
Record Chain : Type := {
  Selector : N;
  DeployerKey : Address;
  Deploys : TypeAndVersion -> list Address -> Result Address;
  Sends : Address -> Method -> Result unit;
  Confirm : Tx -> Result unit;
  ReadsIsRegistryModule : Address -> Address -> Result bool;
}.

(** The zero [deployment.Chain], which Go yields for a selector missing from
    [e.Chains]: selector 0 and a nil client, on which every call panics. *)
Definition zeroChain : Chain := {|
  Selector := 0%N;
  DeployerKey := 0%N;
  Deploys := fun _ _ => Err (Panic "nil pointer dereference");
  Sends := fun _ _ => Err (Panic "nil pointer dereference");
  Confirm := fun _ => Err (Panic "nil pointer dereference");
  ReadsIsRegistryModule := fun _ _ => Err (Panic "nil pointer dereference");
|}.

(** Bindings whose reads the code uses carry the answers; every other
    binding is the address it is bound to. *)
Record RMNHomeBinding : Type := {
  RMNHomeChain : N;
  RMNHomeAddress : Address;
  ReadsGetActiveDigest : Result Hash;
}.

Record CapabilityInfo : Type := {
  ConfigurationContract : Address;
}.

Record CapabilityRegistryBinding : Type := {
  CapabilityRegistryAddress : Address;
  ReadsGetHashedCapabilityId : string -> string -> Result Hash;
  ReadsGetCapability : Hash -> Result CapabilityInfo;
}.

(** [CCIPChainState], with the fields the code reads; a nil binding is
    [None]. *)
Record CCIPChainState : Type := {
  StWeth9 : option Address;
  StLinkToken : option Address;
  StTokenAdminRegistry : option Address;
  StRegistryModule : option Address;
  StRMNProxyExisting : option Address;
  StRMNProxyNew : option Address;
  StRouter : option Address;
  StMulticall3 : option Address;
  StReceiver : option Address;
  StRMNRemote : option Address;
  StTestRouter : option Address;
  StNonceManager : option Address;
  StFeeQuoter : option Address;
  StOnRamp : option Address;
  StOffRamp : option Address;
  StTimelock : option Address;
  StCapabilityRegistry : option CapabilityRegistryBinding;
  StCCIPHome : option Address;
  StRMNHome : option RMNHomeBinding;
}.

Definition zeroChainState : CCIPChainState := {|
  StWeth9 := None; StLinkToken := None; StTokenAdminRegistry := None;
  StRegistryModule := None; StRMNProxyExisting := None; StRMNProxyNew := None;
  StRouter := None; StMulticall3 := None; StReceiver := None;
  StRMNRemote := None; StTestRouter := None; StNonceManager := None;
  StFeeQuoter := None; StOnRamp := None; StOffRamp := None;
  StTimelock := None; StCapabilityRegistry := None; StCCIPHome := None;
  StRMNHome := None;
|}.

Record CCIPOnChainState : Type := {
  StateChains : gmap N CCIPChainState;
}.

(** [state.Chains[sel]] without the comma-ok: the zero value when absent. *)
Definition chainStateOf (state : CCIPOnChainState) (sel : N) : CCIPChainState :=
  default zeroChainState (StateChains state !! sel).

(** Modelled from the spec: the [deployment.AddressBook] is not among the
    sources; it is a "durable mapping from (environment, contract-type,
    version) to deployed address" that "supports merge", its key space
    "partitioned by Environment selector" and merges being "disjoint-key
    unions".  Per selector it maps each deployed address to its type and
    version. *)
Abbreviation AddressBook := (gmap N (gmap Address TypeAndVersion)).

(** [Save] of one record; the new record replaces what the address held. *)
Definition abSave (sel : N) (addr : Address) (tv : TypeAndVersion)
    (ab : AddressBook) : AddressBook :=
  <[ sel := <[ addr := tv ]> (default ∅ (ab !! sel)) ]> ab.

(** [Merge] of a delta into the book, selector by selector. *)
Definition abMerge (ab delta : AddressBook) : AddressBook :=
  union_with (fun m1 m2 => Some (m1 ∪ m2)) ab delta.

Record Node : Type := {
  IsBootstrap : bool;
  PeerID : N;
}.

Definition NonBootstraps (nodes : list Node) : list Node :=
  filter (fun n => IsBootstrap n = false) nodes.

Definition PeerIDs (nodes : list Node) : list N := PeerID <$> nodes.

(** [deployment.Environment]. *)
Record Environment : Type := {
  Chains : gmap N Chain;
  ExistingAddresses : AddressBook;
  NodeIDs : list string;
}.

(** [e.Chains[sel]] without the comma-ok. *)
Definition chainOf (e : Environment) (sel : N) : Chain :=
  default zeroChain (Chains e !! sel).

Inductive Level : Type := Info | Error.

(** What the deployment code does to the outside world.  Every event but a
    log line carries the selector of the chain it addresses. *)
Inductive Event : Type :=
| Log (level : Level) (msg : string)
| DeployTx (chain : N) (tv : TypeAndVersion) (args : list Address)
| SendTx (chain : N) (to : Address) (call : Method)
| WaitConfirm (chain : N) (tx : Tx)
| Read (chain : N) (to : Address) (call : View)
| Save (chain : N) (addr : Address) (tv : TypeAndVersion).

(** The chain an event addresses. *)
Definition eventChain (ev : Event) : option N :=
  match ev with
  | Log _ _ => None
  | DeployTx c _ _ | SendTx c _ _ | WaitConfirm c _ | Read c _ _
  | Save c _ _ => Some c
  end.

Definition isDeploy (ev : Event) : bool :=
  match ev with DeployTx _ _ _ => true | _ => false end.

Definition isSave (ev : Event) : bool :=
  match ev with Save _ _ _ => true | _ => false end.

(** A mutating call: a transaction submitted to a chain. *)
Definition isMutating (ev : Event) : bool :=
  match ev with
  | DeployTx _ _ _ | SendTx _ _ _ => true
  | _ => false
  end.

(** The address book after the writes recorded in a list of events. *)
Definition applySaves (evs : list Event) (ab : AddressBook) : AddressBook :=
  foldl (fun ab ev => match ev with
                      | Save sel addr tv => abSave sel addr tv ab
                      | _ => ab
                      end) ab evs.


(** [DeployPrerequisiteContractsOpts] and its functional options; a nil
    option in the variadic list is [None]. *)
Record DeployPrerequisiteContractsOpts : Type := {
  USDCEnabledChains : list N;
  Multicall3Enabled : bool;
}.

Definition PrerequisiteOpt : Type :=
  option (DeployPrerequisiteContractsOpts -> DeployPrerequisiteContractsOpts).

Definition WithUSDCChains (chains : list N) : PrerequisiteOpt :=
  Some (fun o => {| USDCEnabledChains := chains;
                    Multicall3Enabled := Multicall3Enabled o |}).

Definition WithMulticall3 (enabled : bool) : PrerequisiteOpt :=
  Some (fun o => {| USDCEnabledChains := USDCEnabledChains o;
                    Multicall3Enabled := enabled |}).

(** [deployment.ContractDeploy[C]]: what a deploy closure hands back. *)
Record ContractDeploy : Type := {
  CdAddress : Address;
  CdTx : Tx;
  CdTv : TypeAndVersion;
  CdErr : option error;
}.

(** The four USDC contracts [DeployUSDC] returns. *)
Record USDCContracts : Type := {
  UsdcToken : Address;
  UsdcPool : Address;
  UsdcMessenger : Address;
  UsdcTransmitter : Address;
}.

(** The pieces of [NewChainsConfig] that [configureChain] reads. *)
Record USDCConfig : Type := {
  EnabledChainMap : gmap N bool;
  CCTPTokenConfig : list Address;
  API : string;
  APITimeout : N;
  APIInterval : N;
}.

Record USDCCCTPObserverConfig : Type := {
  ObsTokens : list Address;
  AttestationAPI : string;
  AttestationAPITimeout : N;
  AttestationAPIInterval : N;
}.

Record TokenDataObserverConfig : Type := {
  ObsType : string;
  ObsVersion : string;
  ObsUSDCCCTPObserverConfig : USDCCCTPObserverConfig;
}.

(** The deploy closures of the source all have one shape: call the
    generated [DeployX(chain.DeployerKey, chain.Client, args...)] and wrap
    address, transaction, type-and-version and error.  [args] are the
    addresses among the constructor arguments. *)
Definition deployClosure (tv : TypeAndVersion) (args : list Address)
    (chain : Chain) : M Event ContractDeploy :=
  emit (DeployTx (Selector chain) tv args) ;;;
  match Deploys chain tv args with
  | Ok addr => ret {| CdAddress := addr; CdTx := TxDeploy tv args;
                      CdTv := tv; CdErr := None |}
  | Err err => ret {| CdAddress := 0%N; CdTx := TxDeploy tv args;
                      CdTv := tv; CdErr := Some err |}
  end.

Definition chainConfirm (chain : Chain) (tx : Tx) : M Event unit :=
  emit (WaitConfirm (Selector chain) tx) ;;;
  lift (Confirm chain tx).

(** Modelled from the spec: [deployment.DeployContract] is not among the
    sources; a step that finds no record must "deploy, wait for
    confirmation, and append the new ContractRecord to a returned delta",
    and "the first step failure aborts the remaining steps".  It returns
    the deployed contract, here its address. *)
Definition DeployContract (chain : Chain)
    (deploy : Chain -> M Event ContractDeploy) : M Event Address :=
  contractDeploy <- deploy chain ;;
  match CdErr contractDeploy with
  | Some err => fail err
  | None =>
      chainConfirm chain (CdTx contractDeploy) ;;;
      emit (Save (Selector chain) (CdAddress contractDeploy)
              (CdTv contractDeploy)) ;;;
      ret (CdAddress contractDeploy)
  end.

(** A transaction through a binding at [to], signed with the deployer key. *)
Definition send (chain : Chain) (to : Address) (call : Method) : M Event Tx :=
  emit (SendTx (Selector chain) to call) ;;;
  lift (Sends chain to call) ;;;
  ret (TxCall to call).

(** Modelled from the spec: [deployment.ConfirmIfNoError] is not among the
    sources; direct execution "signs, submits, and blocks until
    confirmation; returns the confirmed result or a SubmissionFailed /
    ConfirmationFailed error".  Its argument is the submission, whose error
    it returns without waiting. *)
Definition ConfirmIfNoError (chain : Chain) (submission : M Event Tx)
  : M Event unit :=
  tx <- submission ;;
  chainConfirm chain tx.

Definition log (level : Level) (msg : string) : M Event unit :=
  emit (Log level msg).

(** [common.Address{1}] and [common.HexToAddress("0x1")]. *)
Definition addressByte1 : Address := (2 ^ 152)%N.
Definition hexAddress1 : Address := 1%N.

(** *** golang.org/x/sync/errgroup *)

(** The zero [errgroup.Group] has no context, hence cancels nothing.  [Go]
    starts a goroutine; [Wait] blocks until every started goroutine has
    returned and yields the first non-nil error returned.  The goroutines of
    the deployment code are already computations; [finished] lists their
    indices in the order in which the scheduler lets them run to completion,
    and [Wait] emits their events in that order. *)
Record Group : Type := {
  goroutines : list (M Event unit);
}.

Definition zeroGroup : Group := {| goroutines := [] |}.

Definition Go (g : Group) (f : M Event unit) : Group :=
  {| goroutines := goroutines g ++ [f] |}.

Definition firstError (done : list (M Event unit)) : Result unit :=
  match list_find (fun m => is_ok (result m) = false) done with
  | Some (_, m) => result m
  | None => Ok tt
  end.

Definition Wait (finished : list nat) (g : Group) : M Event unit :=
  let done := omap (fun i => goroutines g !! i) finished in
  (firstError done, mjoin (events <$> done)).

(** A function that starts goroutines can return while some of them are
    still running.  [returned] is what a call has done, and what it answers,
    when it returns; [unjoined] are the goroutines it started and did not
    wait for: they run on after the return, and nothing reads what they
    return. *)
Record Call : Type := {
  returned : M Event unit;
  unjoined : list (M Event unit);
}.

Section deploy.

(** Collaborators of the package that are not among the sources.
    [LoadOnchainState] is the State Loader; [DeployUSDC] deploys the
    stablecoin contracts of one chain given the RMN proxy and router
    addresses; [NewCCIPHome] binds a CCIPHome at an address;
    [CapabilityLabelledName], [CapabilityVersion] and [CCIPCapabilityID]
    are the constants of package [internal]. *)
Variable LoadOnchainState : Environment -> Result CCIPOnChainState.
Variable DeployUSDC : Chain -> Address -> Address -> M Event USDCContracts.
Variable NewCCIPHome : Address -> Chain -> Result Address.
Variable CapabilityLabelledName : string.
Variable CapabilityVersion : string.
Variable CCIPCapabilityID : Hash.

(** The first loop of [deployPrerequisiteContracts]: every non-nil option
    is applied, in order, to a zero [DeployPrerequisiteContractsOpts]. *)
Definition applyPrerequisiteOpts (opts : list PrerequisiteOpt)
  : DeployPrerequisiteContractsOpts :=
  foldl (fun o opt => match opt with Some f => f o | None => o end)
    {| USDCEnabledChains := []; Multicall3Enabled := false |} opts.

(** [deployPrerequisiteContracts]; the address book [ab] it is handed
    receives the [Save] events. *)
Definition deployPrerequisiteContracts (e : Environment)
    (state : CCIPOnChainState) (chain : Chain) (opts : list PrerequisiteOpt)
  : M Event unit :=
  let deployOpts := applyPrerequisiteOpts opts in
  let isUSDC := bool_decide (Selector chain ∈ USDCEnabledChains deployOpts) in
  let chainExists := bool_decide (is_Some (StateChains state !! Selector chain)) in
  let chainState := chainStateOf state (Selector chain) in
  let weth9Contract := if chainExists then StWeth9 chainState else None in
  let linkTokenContract := if chainExists then StLinkToken chainState else None in
  let tokenAdminReg := if chainExists then StTokenAdminRegistry chainState else None in
  let registryModule := if chainExists then StRegistryModule chainState else None in
  let rmnProxy := if chainExists then StRMNProxyExisting chainState else None in
  let r := if chainExists then StRouter chainState else None in
  let mc3 := if chainExists then StMulticall3 chainState else None in
  rmnProxy <-
    match rmnProxy with
    | None =>
        rmn <- on_error_do [Log Error "Failed to deploy mock RMN"] id
                 (DeployContract chain
                    (deployClosure (NewTypeAndVersion MockRMN Version1_0_0) [])) ;;
        log Info "deployed mock RMN" ;;;
        rmnProxyContract <-
          on_error_do [Log Error "Failed to deploy RMNProxyNew"] id
            (DeployContract chain
               (deployClosure (NewTypeAndVersion ARMProxy Version1_0_0) [rmn])) ;;
        log Info "deployed RMNProxyNew" ;;;
        ret rmnProxyContract
    | Some rmnProxy => ret rmnProxy
    end ;;
  tokenAdminReg <-
    match tokenAdminReg with
    | None =>
        tokenAdminRegistry <-
          on_error_do [Log Error "Failed to deploy token admin registry"] id
            (DeployContract chain
               (deployClosure (NewTypeAndVersion TokenAdminRegistry Version1_5_0) [])) ;;
        log Info "deployed tokenAdminRegistry" ;;;
        ret tokenAdminRegistry
    | Some tokenAdminReg =>
        log Info "tokenAdminRegistry already deployed" ;;;
        ret tokenAdminReg
    end ;;
  registryModule <-
    match registryModule with
    | None =>
        customRegistryModule <-
          on_error_do [Log Error "Failed to deploy custom registry module"] id
            (DeployContract chain
               (deployClosure (NewTypeAndVersion RegistryModule Version1_5_0)
                  [tokenAdminReg])) ;;
        log Info "deployed custom registry module" ;;;
        ret customRegistryModule
    | Some registryModule =>
        log Info "custom registry module already deployed" ;;;
        ret registryModule
    end ;;
  isRegistryAdded <-
    on_error_do
      [Log Error "Failed to check if registry module is added on token admin registry"]
      (fun err =>
         Errorf "failed to check if registry module is added on token admin registry: %w"
           [ArgErr err])
      (emit (Read (Selector chain) tokenAdminReg (IsRegistryModule registryModule)) ;;;
       lift (ReadsIsRegistryModule chain tokenAdminReg registryModule)) ;;
  (if negb isRegistryAdded then
     tx <- on_error_do
             [Log Error "Failed to assign registry module on token admin registry"]
             (fun err =>
                Errorf "failed to assign registry module on token admin registry: %w"
                  [ArgErr err])
             (send chain tokenAdminReg (AddRegistryModule registryModule)) ;;
     on_error_do
       [Log Error "Failed to confirm assign registry module on token admin registry"]
       (fun err =>
          Errorf "failed to confirm assign registry module on token admin registry: %w"
            [ArgErr err])
       (chainConfirm chain tx) ;;;
     log Info "assigned registry module on token admin registry"
   else ret tt) ;;;
  weth9Contract <-
    match weth9Contract with
    | None =>
        weth <- on_error_do [Log Error "Failed to deploy weth9"] id
                  (DeployContract chain
                     (deployClosure (NewTypeAndVersion WETH9 Version1_0_0) [])) ;;
        log Info "deployed weth9" ;;;
        ret weth
    | Some weth9Contract =>
        log Info "weth9 already deployed" ;;;
        ret weth9Contract
    end ;;
  match linkTokenContract with
  | None =>
      on_error_do [Log Error "Failed to deploy linkToken"] id
        (DeployContract chain
           (deployClosure (NewTypeAndVersion LinkToken Version1_0_0) [])) ;;;
      log Info "deployed linkToken"
  | Some _ => log Info "linkToken already deployed"
  end ;;;
  r <-
    match r with
    | None =>
        routerContract <-
          on_error_do [Log Error "Failed to deploy router"] id
            (DeployContract chain
               (deployClosure (NewTypeAndVersion Router Version1_2_0)
                  [weth9Contract; rmnProxy])) ;;
        log Info "deployed router" ;;;
        ret routerContract
    | Some r =>
        log Info "router already deployed" ;;;
        ret r
    end ;;
  (if Multicall3Enabled deployOpts && bool_decide (mc3 = None) then
     on_error_do [Log Error "Failed to deploy ccip multicall"] id
       (DeployContract chain
          (deployClosure (NewTypeAndVersion Multicall3 Version1_0_0) [])) ;;;
     log Info "deployed ccip multicall"
   else
     (* [mc3.Address] is a method value: binding it to a nil [mc3] does not
        dereference the pointer *)
     log Info "ccip multicall already deployed") ;;;
  (if isUSDC then
     DeployUSDC chain rmnProxy r ;;;
     log Info "Deployed USDC contracts"
   else ret tt) ;;;
  ret tt.

(** [deployPrerequisiteChainContracts]; the address book [ab] it is handed
    receives the [Save] events. *)
Definition deployPrerequisiteChainContracts (finished : list nat)
    (e : Environment) (selectors : list N) (opts : list PrerequisiteOpt)
  : M Event unit :=
  state <- on_error_do [Log Error "Failed to load existing onchain state"] id
             (lift (LoadOnchainState e)) ;;
  let deployGrp :=
    foldl (fun deployGrp sel =>
             let chain := chainOf e sel in
             Go deployGrp
               (on_error_do [Log Error "Failed to deploy prerequisite contracts"] id
                  (deployPrerequisiteContracts e state chain opts)))
      zeroGroup selectors in
  Wait finished deployGrp.

(** [deployChainContracts]; the address book [ab] it is handed receives
    the [Save] events. *)
Definition deployChainContracts (e : Environment) (chain : Chain)
    (rmnHome : RMNHomeBinding) : M Event unit :=
  state <- on_error_do [Log Error "Failed to load existing onchain state"] id
             (lift (LoadOnchainState e)) ;;
  match StateChains state !! Selector chain with
  | None =>
      fail (Errorf "chain %d not found in existing state, deploy the prerequisites first"
              [ArgUint (Selector chain)])
  | Some chainState =>
  match StWeth9 chainState with
  | None =>
      fail (Errorf "weth9 not found for chain %d, deploy the prerequisites first"
              [ArgUint (Selector chain)])
  | Some weth9Contract =>
  match StTimelock chainState with
  | None =>
      fail (Errorf "timelock not found for chain %d, deploy the mcms contracts first"
              [ArgUint (Selector chain)])
  | Some timelock =>
  match StLinkToken chainState with
  | None =>
      fail (Errorf "link token not found for chain %d, deploy the prerequisites first"
              [ArgUint (Selector chain)])
  | Some linkTokenContract =>
  match StTokenAdminRegistry chainState with
  | None =>
      fail (Errorf "token admin registry not found for chain %d, deploy the prerequisites first"
              [ArgUint (Selector chain)])
  | Some tokenAdminReg =>
  if bool_decide (StRegistryModule chainState = None) then
    fail (Errorf "registry module not found for chain %d, deploy the prerequisites first"
            [ArgUint (Selector chain)])
  else if bool_decide (StRouter chainState = None) then
    fail (Errorf "router not found for chain %d, deploy the prerequisites first"
            [ArgUint (Selector chain)])
  else
  match StReceiver chainState with
  | None =>
      on_error_do [Log Error "Failed to deploy receiver"] id
        (DeployContract chain
           (deployClosure (NewTypeAndVersion CCIPReceiver Version1_0_0) [])) ;;;
      log Info "deployed receiver"
  | Some _ => log Info "receiver already deployed"
  end ;;;
  rmnRemoteContract <-
    match StRMNRemote chainState with
    | None =>
        rmnRemote <-
          on_error_do [Log Error "Failed to deploy RMNRemote"] id
            (DeployContract chain
               (deployClosure (NewTypeAndVersion RMNRemote Version1_6_0_dev) [])) ;;
        log Info "deployed RMNRemote" ;;;
        ret rmnRemote
    | Some rmnRemote =>
        log Info "rmn remote already deployed" ;;;
        ret rmnRemote
    end ;;
  activeDigest <-
    on_error_do [Log Error "Failed to get active digest"] id
      (emit (Read (RMNHomeChain rmnHome) (RMNHomeAddress rmnHome) GetActiveDigest) ;;;
       lift (ReadsGetActiveDigest rmnHome)) ;;
  log Info "setting active home digest to rmn remote" ;;;
  on_error_do [Log Error "Failed to confirm RMNRemote config"] id
    (ConfirmIfNoError chain
       (send chain rmnRemoteContract
          (SetConfig activeDigest [(0%N, addressByte1)] 0))) ;;;
  rmnProxyContract <-
    match StRMNProxyNew chainState with
    | None =>
        rmnProxy <-
          on_error_do [Log Error "Failed to deploy RMNProxyNew"] id
            (DeployContract chain
               (deployClosure (NewTypeAndVersion ARMProxy Version1_6_0_dev)
                  [rmnRemoteContract])) ;;
        log Info "deployed new RMNProxyNew" ;;;
        ret rmnProxy
    | Some rmnProxy =>
        log Info "rmn proxy already deployed" ;;;
        ret rmnProxy
    end ;;
  match StTestRouter chainState with
  | None =>
      on_error_do [Log Error "Failed to deploy test router"] id
        (DeployContract chain
           (deployClosure (NewTypeAndVersion TestRouter Version1_2_0)
              [weth9Contract; rmnProxyContract])) ;;;
      log Info "deployed test router"
  | Some _ => log Info "test router already deployed"
  end ;;;
  nmContract <-
    match StNonceManager chainState with
    | None =>
        nonceManager <-
          on_error_do [Log Error "Failed to deploy nonce manager"] id
            (DeployContract chain
               (deployClosure (NewTypeAndVersion NonceManager Version1_6_0_dev) [])) ;;
        log Info "Deployed nonce manager" ;;;
        ret nonceManager
    | Some nonceManager =>
        log Info "nonce manager already deployed" ;;;
        ret nonceManager
    end ;;
  feeQuoterContract <-
    match StFeeQuoter chainState with
    | None =>
        feeQuoter <-
          on_error_do [Log Error "Failed to deploy fee quoter"] id
            (DeployContract chain
               (deployClosure (NewTypeAndVersion FeeQuoter Version1_6_0_dev)
                  [linkTokenContract; timelock; weth9Contract; linkTokenContract;
                   linkTokenContract; weth9Contract])) ;;
        log Info "Deployed fee quoter" ;;;
        ret feeQuoter
    | Some feeQuoter =>
        log Info "fee quoter already deployed" ;;;
        ret feeQuoter
    end ;;
  onRampContract <-
    match StOnRamp chainState with
    | None =>
        onRamp <-
          on_error_do [Log Error "Failed to deploy onramp"] id
            (DeployContract chain
               (deployClosure (NewTypeAndVersion OnRamp Version1_6_0_dev)
                  [rmnProxyContract; nmContract; tokenAdminReg;
                   feeQuoterContract; hexAddress1])) ;;
        log Info "Deployed onramp" ;;;
        ret onRamp
    | Some onRamp =>
        log Info "onramp already deployed" ;;;
        ret onRamp
    end ;;
  offRampContract <-
    match StOffRamp chainState with
    | None =>
        offRamp <-
          on_error_do [Log Error "Failed to deploy offramp"] id
            (DeployContract chain
               (deployClosure (NewTypeAndVersion OffRamp Version1_6_0_dev)
                  [rmnProxyContract; nmContract; tokenAdminReg;
                   feeQuoterContract])) ;;
        log Info "Deployed offramp" ;;;
        ret offRamp
    | Some offRamp =>
        log Info "offramp already deployed" ;;;
        ret offRamp
    end ;;
  (* Basic wiring is always needed. *)
  on_error_do [Log Error "Failed to confirm fee quoter authorized caller update"] id
    (ConfirmIfNoError chain
       (send chain feeQuoterContract
          (ApplyAuthorizedCallerUpdates [offRampContract; DeployerKey chain]))) ;;;
  on_error_do [Log Error "Failed to update nonce manager with ramps"] id
    (ConfirmIfNoError chain
       (send chain nmContract
          (ApplyAuthorizedCallerUpdates [offRampContract; onRampContract]))) ;;;
  ret tt
  end end end end end.

(** The loop of [deployChainContractsForChains] that starts the goroutines.
    On the first selector that is unknown or lacks a fee token it returns
    from the function: the error of that [return], if there is one, comes
    with the group as it is then, whose goroutines have been started. *)
Fixpoint startChainContractTasks (e : Environment) (rmnHome : RMNHomeBinding)
    (existingState : CCIPOnChainState)
    (chainsToDeploy : list N) (deployGrp : Group) : Group * option error :=
  match chainsToDeploy with
  | [] => (deployGrp, None)
  | chainSel :: rest =>
      match Chains e !! chainSel with
      | None =>
          (deployGrp, Some (Errorf "chain %d not found" [ArgUint chainSel]))
      | Some chain =>
          if bool_decide (StLinkToken (chainStateOf existingState chainSel) = None)
             || bool_decide (StWeth9 (chainStateOf existingState chainSel) = None)
          then (deployGrp,
                Some (Errorf "fee tokens not found for chain %d" [ArgUint chainSel]))
          else
            startChainContractTasks e rmnHome existingState rest
              (Go deployGrp
                 (on_error_do [Log Error "Failed to deploy chain contracts"]
                    (fun err =>
                       Errorf "failed to deploy chain contracts for chain %d: %w"
                         [ArgUint chainSel; ArgErr err])
                    (deployChainContracts e chain rmnHome)))
      end
  end.

(** [deployChainContractsForChains].  [started] is the function up to the
    end of its start loop.  Where that loop has returned from the function,
    the goroutines started before are left running: [Wait] is not
    reached. *)
Definition deployChainContractsForChains (finished : list nat)
    (e : Environment) (homeChainSel : N) (chainsToDeploy : list N)
  : Call :=
  let started : M Event (Group * option error) :=
  existingState <-
    on_error_do [Log Error "Failed to load existing onchain state"] id
      (lift (LoadOnchainState e)) ;;
  match StCapabilityRegistry (chainStateOf existingState homeChainSel) with
  | None =>
      log Error "Failed to get capability registry" ;;;
      fail (Errorf "capability registry not found" [])
  | Some capReg =>
  cr <- on_error_do [Log Error "Failed to get hashed capability id"] id
          (emit (Read homeChainSel (CapabilityRegistryAddress capReg)
                   (GetHashedCapabilityId CapabilityLabelledName CapabilityVersion)) ;;;
           lift (ReadsGetHashedCapabilityId capReg
                   CapabilityLabelledName CapabilityVersion)) ;;
  if bool_decide (cr ≠ CCIPCapabilityID) then
    fail (Errorf
            "unexpected mismatch between calculated ccip capability id (%s) and expected ccip capability id constant (%s)"
            [ArgHash cr; ArgHash CCIPCapabilityID])
  else
  capability <-
    on_error_do [Log Error "Failed to get capability"] id
      (emit (Read homeChainSel (CapabilityRegistryAddress capReg)
               (GetCapability CCIPCapabilityID)) ;;;
       lift (ReadsGetCapability capReg CCIPCapabilityID)) ;;
  ccipHome <-
    on_error_do [Log Error "Failed to get ccip config"] id
      (lift (NewCCIPHome (ConfigurationContract capability)
               (chainOf e homeChainSel))) ;;
  match StCCIPHome (chainStateOf existingState homeChainSel) with
  | None => fail (Panic "nil pointer dereference")
  | Some existingCCIPHome =>
  if bool_decide (ccipHome ≠ existingCCIPHome) then
    fail (Errorf "ccip home address mismatch" [])
  else
  match StRMNHome (chainStateOf existingState homeChainSel) with
  | None =>
      log Error "Failed to get rmn home" ;;;
      fail (Errorf "rmn home not found" [])
  | Some rmnHome =>
      ret (startChainContractTasks e rmnHome existingState
             chainsToDeploy zeroGroup)
  end end end in
  {| returned :=
       loop <- started ;;
       match loop with
       | (_, Some err) => fail err
       | (deployGrp, None) =>
           on_error_do [Log Error "Failed to deploy chain contracts"] id
             (Wait finished deployGrp)
       end;
     unjoined :=
       match result started with
       | Ok (deployGrp, Some _) => goroutines deployGrp
       | _ => []
       end |}.

(** Further collaborators, used by [configureChain]: the constant
    [pluginconfig.USDCCCTPHandlerType], the OCR secrets and
    their emptiness test, the token configuration and its [GetTokenInfo],
    [deployment.NodeInfo] (asked about [e.NodeIDs] through the off-chain
    client), and the two wiring helpers [AddChainConfig] and [AddDON],
    which issue the mutating calls. *)
Variable USDCCCTPHandlerType : string.
Variable OCRSecrets : Type.
Variable IsEmpty : OCRSecrets -> bool.
Variable TokenConfig : Type.
Variable TokenInfo : Type.
Variable GetTokenInfo : TokenConfig -> option Address -> option Address -> TokenInfo.
Variable NodeInfo : list string -> Result (list Node).
Variable AddChainConfig : Chain -> Address -> N -> list N -> M Event unit.
Variable AddDON :
  OCRSecrets -> CapabilityRegistryBinding -> Address -> Address -> Address ->
  N -> TokenInfo -> Chain -> Chain -> list Node ->
  list TokenDataObserverConfig -> M Event unit.

Record NewChainsConfig : Type := {
  HomeChainSel : N;
  FeedChainSel : N;
  ChainsToDeploy : list N;
  CfgTokenConfig : TokenConfig;
  CfgOCRSecrets : OCRSecrets;
  CfgUSDCConfig : USDCConfig;
}.

(** The loop of [configureChain] over [c.ChainsToDeploy]. *)
Fixpoint configureChainLoop (e : Environment) (c : NewChainsConfig)
    (nodes : list Node) (existingState : CCIPOnChainState)
    (capReg : CapabilityRegistryBinding) (ccipHome : Address)
    (rmnHome : RMNHomeBinding) (chainsToDeploy : list N) : M Event unit :=
  match chainsToDeploy with
  | [] => ret tt
  | chainSel :: rest =>
      let chain := chainOf e chainSel in
      match StateChains existingState !! Selector chain with
      | None =>
          fail (Errorf "chain state not found for chain %d"
                  [ArgUint (Selector chain)])
      | Some chainState =>
      match StOffRamp chainState with
      | None =>
          fail (Errorf "off ramp not found for chain %d"
                  [ArgUint (Selector chain)])
      | Some offRamp =>
          let tokenInfo :=
            GetTokenInfo (CfgTokenConfig c)
              (StLinkToken (chainStateOf existingState chainSel))
              (StWeth9 (chainStateOf existingState chainSel)) in
          AddChainConfig (chainOf e (HomeChainSel c)) ccipHome (Selector chain)
            (PeerIDs (NonBootstraps nodes)) ;;;
          let tokenDataObserversConf :=
            match EnabledChainMap (CfgUSDCConfig c) !! chainSel with
            | Some true =>
                [ {| ObsType := USDCCCTPHandlerType;
                     ObsVersion := "1.0";
                     ObsUSDCCCTPObserverConfig :=
                       {| ObsTokens := CCTPTokenConfig (CfgUSDCConfig c);
                          AttestationAPI := API (CfgUSDCConfig c);
                          AttestationAPITimeout := APITimeout (CfgUSDCConfig c);
                          AttestationAPIInterval := APIInterval (CfgUSDCConfig c) |} |} ]
            | _ => []
            end in
          on_error_do [Log Error "Failed to add DON"] id
            (AddDON (CfgOCRSecrets c) capReg ccipHome (RMNHomeAddress rmnHome)
               offRamp (FeedChainSel c) tokenInfo chain
               (chainOf e (HomeChainSel c)) (NonBootstraps nodes)
               tokenDataObserversConf) ;;;
          configureChainLoop e c nodes existingState capReg ccipHome rmnHome rest
      end end
  end.

Definition configureChain (e : Environment) (c : NewChainsConfig)
  : M Event unit :=
  if IsEmpty (CfgOCRSecrets c) then fail (Errorf "OCR secrets are empty" [])
  else
  match NodeInfo (NodeIDs e) with
  | Err err => log Error "Failed to get node info" ;;; fail err
  | Ok nodes =>
  if bool_decide (length nodes = 0) then
    (* [err] is nil here: the function logs and returns nil *)
    log Error "Failed to get node info" ;;; ret tt
  else
  existingState <-
    on_error_do [Log Error "Failed to load existing onchain state"] id
      (lift (LoadOnchainState e)) ;;
  match StCapabilityRegistry (chainStateOf existingState (HomeChainSel c)) with
  | None =>
      log Error "Failed to get capability registry" ;;;
      fail (Errorf "capability registry not found" [])
  | Some capReg =>
  match StCCIPHome (chainStateOf existingState (HomeChainSel c)) with
  | None =>
      log Error "Failed to get ccip home" ;;;
      fail (Errorf "ccip home not found" [])
  | Some ccipHome =>
  match StRMNHome (chainStateOf existingState (HomeChainSel c)) with
  | None =>
      log Error "Failed to get rmn home" ;;;
      fail (Errorf "rmn home not found" [])
  | Some rmnHome =>
      configureChainLoop e c nodes existingState capReg ccipHome rmnHome
        (ChainsToDeploy c)
  end end end end.

(** [e.ExistingAddresses.Merge(ab)]: the address book is not among the
    sources; what merging [ab] into the environment's book gives, the
    merged book or an error, is the collaborator's answer. *)
Variable Merge : AddressBook -> AddressBook -> Result AddressBook.

(** [deployCCIPContracts].  The address book [ab] it is handed has
    received the [Save] events of the deployment when it is merged into the
    environment's book, and [configureChain] runs on the environment with
    the merged book.  The goroutines that [deployChainContractsForChains]
    has left running are running still when this function returns. *)
Definition deployCCIPContracts (finished : list nat) (e : Environment)
    (ab : AddressBook) (c : NewChainsConfig) : Call :=
  let deployment :=
    deployChainContractsForChains finished e (HomeChainSel c)
      (ChainsToDeploy c) in
  let deployed :=
    on_error_do [Log Error "Failed to deploy chain contracts"] id
      (returned deployment) in
  {| returned :=
       deployed ;;;
       merged <- on_error_do [Log Error "Failed to merge address book"] id
                   (lift (Merge (ExistingAddresses e)
                            (applySaves (events deployed) ab))) ;;
       on_error_do [Log Error "Failed to add chain"] id
         (configureChain
            {| Chains := Chains e; ExistingAddresses := merged;
               NodeIDs := NodeIDs e |} c);
     unjoined := unjoined deployment |}.

End deploy.

Arguments HomeChainSel {OCRSecrets TokenConfig} _.
Arguments FeedChainSel {OCRSecrets TokenConfig} _.
Arguments ChainsToDeploy {OCRSecrets TokenConfig} _.
Arguments CfgTokenConfig {OCRSecrets TokenConfig} _.
Arguments CfgOCRSecrets {OCRSecrets TokenConfig} _.
Arguments CfgUSDCConfig {OCRSecrets TokenConfig} _.

End CCIP.

(** ** What the specification says the Capability Deduplicator returns *)

Module KeystoneSpec.
Import Keystone.

(** "Two descriptors with equal (name, version) are the same capability
    regardless of any other field." *)
Definition sameCapability (c1 c2 : CapabilitiesRegistryCapability) : Prop :=
  LabelledName c1 = LabelledName c2 ∧ Version c1 = Version c2.

#[export] Instance sameCapability_dec : RelDecision sameCapability.
Proof. intros c1 c2. unfold sameCapability. apply _. Defined.

(** The identity the code's [seen] map uses instead. *)
Definition sameCapabilityID (c1 c2 : CapabilitiesRegistryCapability) : Prop :=
  CapabilityID c1 = CapabilityID c2.

#[export] Instance sameCapabilityID_dec : RelDecision sameCapabilityID.
Proof. intros c1 c2. unfold sameCapabilityID. apply _. Defined.

(** "Drop any requested descriptor whose hash is already registered": the
    hash is the one the registry derives from name and version. *)
Definition alreadyRegistered (registry : CapabilitiesRegistry)
    (existing : list CapabilitiesRegistryCapabilityInfo)
    (c : CapabilitiesRegistryCapability) : bool :=
  match GetHashedCapabilityId registry (LabelledName c) (Version c) with
  | Ok h => bool_decide (h ∈ HashedId <$> existing)
  | Err _ => false
  end.

(** Steps (3) to (5) of the algorithm, for a notion [same] of "duplicates
    an earlier one": walking the request in order, a descriptor survives
    when it is neither registered nor the [same] as a descriptor [earlier]
    in the request. *)
Fixpoint survivors (same : relation CapabilitiesRegistryCapability)
    `{!RelDecision same} (registry : CapabilitiesRegistry)
    (existing : list CapabilitiesRegistryCapabilityInfo)
    (earlier capabilities : list CapabilitiesRegistryCapability)
  : list CapabilitiesRegistryCapability :=
  match capabilities with
  | [] => []
  | c :: rest =>
      if bool_decide (Exists (same c) earlier) || alreadyRegistered registry existing c
      then survivors same registry existing (earlier ++ [c]) rest
      else c :: survivors same registry existing (earlier ++ [c]) rest
  end.

(** The subset that is genuinely new, as the specification defines it. *)
Definition genuinelyNew (registry : CapabilitiesRegistry)
    (existing : list CapabilitiesRegistryCapabilityInfo)
    (capabilities : list CapabilitiesRegistryCapability)
  : list CapabilitiesRegistryCapability :=
  survivors sameCapability registry existing [] capabilities.

(** The hash reads [dedupCapabilities] makes for a request, in order. *)
Definition hashReads (registry : CapabilitiesRegistry)
    (caps : list CapabilitiesRegistryCapability) : list Event :=
  (fun c => ReadGetHashedCapabilityId (RegistryAddress registry)
              (LabelledName c) (Version c)) <$> caps.

(** The registry derives a hash for every descriptor of the request. *)
Definition hashesSucceed (registry : CapabilitiesRegistry)
    (caps : list CapabilitiesRegistryCapability) : Prop :=
  Forall (fun c => is_ok (GetHashedCapabilityId registry (LabelledName c) (Version c))
                   = true) caps.

End KeystoneSpec.

(** ** Sample data for the keystone package *)

Module KeystoneSamples.
Import Keystone.

Definition mkCap (name version : string) : CapabilitiesRegistryCapability :=
  {| LabelledName := name; Version := version; CapabilityType := 0%N;
     ResponseType := 0%N; ConfigurationContract := 0%N |}.

(** A stand-in for the registry's hash of (name, version): an injective
    encoding of the pair. *)
Definition sampleHash (name version : string) : Hash :=
  Npos (encode (name, version)).

Definition sampleInfo (c : CapabilitiesRegistryCapability)
  : CapabilitiesRegistryCapabilityInfo :=
  {| HashedId := sampleHash (LabelledName c) (Version c);
     InfoLabelledName := LabelledName c; InfoVersion := Version c;
     IsDeprecated := false |}.

Definition sampleTx (caps : list CapabilitiesRegistryCapability) : Transaction :=
  {| TxHash := N.of_nat (length caps); TxData := [x01; x02] |}.

(** A registry holding [registered], on which every call succeeds. *)
Definition sampleRegistry (registered : list CapabilitiesRegistryCapability)
  : CapabilitiesRegistry :=
  {| RegistryAddress := 4096%N;
     GetCapabilities := Ok (sampleInfo <$> registered);
     GetHashedCapabilityId := fun name version => Ok (sampleHash name version);
     RegistryAddCapabilities := fun _ caps => Ok (sampleTx caps) |}.

Definition sampleContractSet (registered : list CapabilitiesRegistryCapability)
  : ContractSet :=
  {| ContractSetCapabilitiesRegistry := sampleRegistry registered |}.

Definition sampleChain : Chain :=
  {| Selector := 909606746561742123%N;
     DeployerKey := {| From := 17%N; NoSend := false |};
     Confirm := fun _ => Ok 1%N |}.

Definition sampleDecodeErr (err : error) : error :=
  Errorf "contract error: %w" [ArgErr err].

Definition capA : CapabilitiesRegistryCapability := mkCap "A" "1.0".
Definition capB : CapabilitiesRegistryCapability := mkCap "B" "1.0".

(** Two different capabilities that [CapabilityID] renders alike. *)
Definition capLeft : CapabilitiesRegistryCapability := mkCap "a@b" "c".
Definition capRight : CapabilitiesRegistryCapability := mkCap "a" "b@c".

End KeystoneSamples.

(** ** Sample data for the CCIP deployment code *)

Module CCIPSamples.
Import CCIP.

Definition typeCode (t : ContractType) : N :=
  match t with
  | MockRMN => 1 | RMNRemote => 2 | LinkToken => 3 | ARMProxy => 4 | WETH9 => 5
  | Router => 6 | CommitStore => 7 | TokenAdminRegistry => 8
  | RegistryModule => 9 | NonceManager => 10 | FeeQuoter => 11 | CCIPHome => 12
  | CCIPConfig => 13 | RMNHome => 14 | OnRamp => 15 | OffRamp => 16
  | CapabilitiesRegistry => 17 | PriceFeed => 18 | TestRouter => 19
  | Multicall3 => 20 | CCIPReceiver => 21 | BurnMintToken => 22
  | BurnMintTokenPool => 23 | USDCToken => 24 | USDCMockTransmitter => 25
  | USDCTokenMessenger => 26 | USDCTokenPool => 27
  end%N.

Definition versionCode (v : SemVer) : N :=
  match v with
  | Version1_0_0 => 0 | Version1_2_0 => 1 | Version1_5_0 => 2
  | Version1_6_0_dev => 3
  end%N.

(** A chain on which every request succeeds; contracts land at addresses
    from [base] upwards; [added] is what [IsRegistryModule] answers. *)
Definition healthyChain (sel base : N) (added : bool) : Chain :=
  {| Selector := sel;
     DeployerKey := 17%N;
     Deploys := fun tv _ => Ok (base + 4 * typeCode (Type_ tv) + versionCode (Version tv))%N;
     Sends := fun _ _ => Ok tt;
     Confirm := fun _ => Ok tt;
     ReadsIsRegistryModule := fun _ _ => Ok added |}.

(** The same chain, on which the deployment of [broken] does not go
    through. *)
Definition faultyChain (sel base : N) (broken : TypeAndVersion) : Chain :=
  {| Selector := sel;
     DeployerKey := 17%N;
     Deploys := fun tv _ =>
       if decide (tv = broken) then Err (Opaque "execution reverted")
       else Ok (base + 4 * typeCode (Type_ tv) + versionCode (Version tv))%N;
     Sends := fun _ _ => Ok tt;
     Confirm := fun _ => Ok tt;
     ReadsIsRegistryModule := fun _ _ => Ok false |}.

(** Modelled from the spec: [DeployUSDC] is not among the sources.  The
    feature flag "enable stablecoin support for this environment" makes the
    Per-Environment Deployer add the stablecoin programs; the caller logs
    the token, pool, messenger and transmitter it returns, whose contract
    types the [var] block declares.  Each is deployed like every other
    program: deploy, wait for confirmation, append the record. *)
Definition modelDeployUSDC (chain : Chain) (rmnProxy router : Address)
  : M Event USDCContracts :=
  token <- DeployContract chain
             (deployClosure (NewTypeAndVersion USDCToken Version1_0_0) []) ;;
  transmitter <- DeployContract chain
                   (deployClosure (NewTypeAndVersion USDCMockTransmitter Version1_0_0) []) ;;
  messenger <- DeployContract chain
                 (deployClosure (NewTypeAndVersion USDCTokenMessenger Version1_0_0)
                    [transmitter]) ;;
  pool <- DeployContract chain
            (deployClosure (NewTypeAndVersion USDCTokenPool Version1_0_0)
               [messenger; token; rmnProxy; router]) ;;
  ret {| UsdcToken := token; UsdcPool := pool; UsdcMessenger := messenger;
         UsdcTransmitter := transmitter |}.

(** The state of a chain that has every prerequisite contract, the
    optional Multicall3 and the timelock. *)
Definition prerequisitesDeployed : CCIPChainState :=
  {| StWeth9 := Some 105%N; StLinkToken := Some 103%N;
     StTokenAdminRegistry := Some 108%N; StRegistryModule := Some 109%N;
     StRMNProxyExisting := Some 104%N; StRMNProxyNew := None;
     StRouter := Some 106%N; StMulticall3 := Some 120%N; StReceiver := None;
     StRMNRemote := None; StTestRouter := None; StNonceManager := None;
     StFeeQuoter := None; StOnRamp := None; StOffRamp := None;
     StTimelock := Some 130%N; StCapabilityRegistry := None;
     StCCIPHome := None; StRMNHome := None |}.

(** ... and, on top, every contract of [deployChainContracts]. *)
Definition fullyDeployed : CCIPChainState :=
  {| StWeth9 := Some 105%N; StLinkToken := Some 103%N;
     StTokenAdminRegistry := Some 108%N; StRegistryModule := Some 109%N;
     StRMNProxyExisting := Some 104%N; StRMNProxyNew := Some 140%N;
     StRouter := Some 106%N; StMulticall3 := Some 120%N;
     StReceiver := Some 141%N; StRMNRemote := Some 142%N;
     StTestRouter := Some 143%N; StNonceManager := Some 144%N;
     StFeeQuoter := Some 145%N; StOnRamp := Some 146%N;
     StOffRamp := Some 147%N; StTimelock := Some 130%N;
     StCapabilityRegistry := None; StCCIPHome := None; StRMNHome := None |}.

Definition sampleRMNHome : RMNHomeBinding :=
  {| RMNHomeChain := 1%N; RMNHomeAddress := 150%N;
     ReadsGetActiveDigest := Ok 48879%N |}.

Definition sampleCapReg : CapabilityRegistryBinding :=
  {| CapabilityRegistryAddress := 151%N;
     ReadsGetHashedCapabilityId := fun _ _ => Ok 51966%N;
     ReadsGetCapability := fun _ => Ok {| ConfigurationContract := 152%N |} |}.

(** The home chain's state: a fully deployed chain that also has the
    capability registry, CCIPHome and RMNHome. *)
Definition homeDeployed : CCIPChainState :=
  {| StWeth9 := Some 105%N; StLinkToken := Some 103%N;
     StTokenAdminRegistry := Some 108%N; StRegistryModule := Some 109%N;
     StRMNProxyExisting := Some 104%N; StRMNProxyNew := Some 140%N;
     StRouter := Some 106%N; StMulticall3 := Some 120%N;
     StReceiver := Some 141%N; StRMNRemote := Some 142%N;
     StTestRouter := Some 143%N; StNonceManager := Some 144%N;
     StFeeQuoter := Some 145%N; StOnRamp := Some 146%N;
     StOffRamp := Some 147%N; StTimelock := Some 130%N;
     StCapabilityRegistry := Some sampleCapReg; StCCIPHome := Some 152%N;
     StRMNHome := Some sampleRMNHome |}.

(** The address book of a chain in state [prerequisitesDeployed]. *)
Definition prerequisiteBook (sel : N) : AddressBook :=
  {[ sel := {[ 105%N := NewTypeAndVersion WETH9 Version1_0_0;
               103%N := NewTypeAndVersion LinkToken Version1_0_0;
               108%N := NewTypeAndVersion TokenAdminRegistry Version1_5_0;
               109%N := NewTypeAndVersion RegistryModule Version1_5_0;
               104%N := NewTypeAndVersion ARMProxy Version1_0_0;
               101%N := NewTypeAndVersion MockRMN Version1_0_0;
               106%N := NewTypeAndVersion Router Version1_2_0;
               120%N := NewTypeAndVersion Multicall3 Version1_0_0 ]} ]}.

(** Two environments: selector 1 with its prerequisites deployed, selector
    2 empty. *)
Definition twoChainEnv : Environment :=
  {| Chains := {[ 1%N := healthyChain 1 200 true; 2%N := healthyChain 2 300 false ]};
     ExistingAddresses := prerequisiteBook 1;
     NodeIDs := ["node-1"; "node-2"] |}.

Definition twoChainState : CCIPOnChainState :=
  {| StateChains := {[ 1%N := prerequisitesDeployed ]} |}.

Definition loadTwoChainState (_ : Environment) : Result CCIPOnChainState :=
  Ok twoChainState.


(** Three chains on which every request goes through: selector 1 is the
    home chain, fully deployed; selector 2 has its prerequisites only;
    selector 3 is unknown to the state. *)
Definition threeChainEnv : Environment :=
  {| Chains := {[ 1%N := healthyChain 1 200 true;
                  2%N := healthyChain 2 300 true;
                  3%N := healthyChain 3 400 false ]};
     ExistingAddresses := prerequisiteBook 1;
     NodeIDs := ["node-1"; "node-2"; "node-3"] |}.

Definition threeChainState : CCIPOnChainState :=
  {| StateChains := {[ 1%N := homeDeployed; 2%N := prerequisitesDeployed ]} |}.

Definition loadThreeChainState (_ : Environment) : Result CCIPOnChainState :=
  Ok threeChainState.

Definition sampleNewCCIPHome (addr : Address) (_ : Chain) : Result Address :=
  Ok addr.

Definition sampleCapabilityID : Hash := 51966%N.

Definition sampleNodeInfo (_ : list string) : Result (list Node) :=
  Ok [ {| IsBootstrap := true; PeerID := 11%N |};
       {| IsBootstrap := false; PeerID := 12%N |};
       {| IsBootstrap := false; PeerID := 13%N |} ].

(** Modelled from the spec: [AddChainConfig] and [AddDON] are not among the
    sources.  The Configuration Step "register[s] the home Environment's
    capability, and form[s]/extend[s] operational groups tied to specific
    Environments", and "every mutating action goes through the Change
    Router", which in direct mode "signs, submits, and blocks until
    confirmation".  [AddChainConfig] updates the chain configuration on
    CCIPHome; [AddDON] adds the group on the capability registry and sets
    the OCR3 configuration on the target's OffRamp. *)
Definition modelAddChainConfig (home : Chain) (ccipHome : Address)
    (chainSelector : N) (p2pIDs : list N) : M Event unit :=
  ConfirmIfNoError home
    (send home ccipHome (CollaboratorCall "applyChainConfigUpdates" chainSelector)).

Definition modelAddDON (secrets : unit) (capReg : CapabilityRegistryBinding)
    (ccipHome rmnHomeAddress offRamp : Address) (feedChainSel : N)
    (tokenInfo : unit) (dest home : Chain) (nodes : list Node)
    (tokenDataObserversConf : list TokenDataObserverConfig) : M Event unit :=
  ConfirmIfNoError home
    (send home (CapabilityRegistryAddress capReg)
       (CollaboratorCall "addDON" (Selector dest))) ;;;
  ConfirmIfNoError dest
    (send dest offRamp (CollaboratorCall "setOCR3Configs" (Selector dest))).

Definition sampleUSDCConfig : USDCConfig :=
  {| EnabledChainMap := ∅; CCTPTokenConfig := []; API := "";
     APITimeout := 0%N; APIInterval := 0%N |}.

(** [configureChain] with the sample collaborators. *)
Definition sampleConfigureChain (homeChainSel : N) (chainsToDeploy : list N)
  : M Event unit :=
  configureChain loadThreeChainState "usdc-cctp" unit (fun _ => false) unit unit
    (fun _ _ _ => tt) sampleNodeInfo modelAddChainConfig modelAddDON
    threeChainEnv
    {| HomeChainSel := homeChainSel; FeedChainSel := 1%N;
       ChainsToDeploy := chainsToDeploy; CfgTokenConfig := tt;
       CfgOCRSecrets := tt; CfgUSDCConfig := sampleUSDCConfig |}.

(** [deployChainContractsForChains] with the sample collaborators. *)
Definition sampleDeployChainContractsForChains (finished : list nat)
    (chainsToDeploy : list N) : Call :=
  deployChainContractsForChains loadThreeChainState sampleNewCCIPHome
    "ccip" "v1.0.0" sampleCapabilityID finished threeChainEnv 1%N chainsToDeploy.

End CCIPSamples.

(** ** Notions the properties of the CCIP deployment code are stated with *)

(** A property of event lists that holds of the empty list and is kept by
    concatenation holds of what a computation emits as soon as it holds of
    what each of its parts emits. *)
Class Compositional {E : Type} (P : list E -> Prop) : Prop := {
  comp_nil : P [];
  comp_app : forall t1 t2, P t1 -> P t2 -> P (t1 ++ t2);
}.

Definition emits {E A} (P : list E -> Prop) (m : M E A) : Prop :=
  P (events m).

Definition succeeds {E A} (m : M E A) : Prop :=
  is_ok (result m) = true.

Module CCIPSpec.
Import CCIP.

(** Every request to [chain] goes through. *)
Definition healthy (chain : Chain) : Prop :=
  (forall tv args, is_ok (Deploys chain tv args) = true) /\
  (forall to call, Sends chain to call = Ok tt) /\
  (forall tx, Confirm chain tx = Ok tt) /\
  (forall tar module, is_ok (ReadsIsRegistryModule chain tar module) = true).

(** A deployment that the chain accepted and confirmed has its record
    saved in the same run, whatever happens afterwards. *)
Definition persisted (chain : Chain) (t : list Event) : Prop :=
  forall tv args addr,
    DeployTx (Selector chain) tv args ∈ t ->
    Deploys chain tv args = Ok addr ->
    Confirm chain (TxDeploy tv args) = Ok tt ->
    Save (Selector chain) addr tv ∈ t.

(** Events that are log lines or address [sel]. *)
Definition localTo (sel : N) (ev : Event) : Prop :=
  eventChain ev = None \/ eventChain ev = Some sel.

(** An event that neither deploys a contract nor writes the address book. *)
Definition quiet (ev : Event) : Prop :=
  isDeploy ev = false /\ isSave ev = false.

(** The chain's state has every prerequisite contract, and Multicall3
    unless it was not asked for. *)
Definition prerequisitesPresent (opts : list PrerequisiteOpt)
    (cs : CCIPChainState) : Prop :=
  is_Some (StRMNProxyExisting cs) /\ is_Some (StTokenAdminRegistry cs) /\
  is_Some (StRegistryModule cs) /\ is_Some (StWeth9 cs) /\
  is_Some (StLinkToken cs) /\ is_Some (StRouter cs) /\
  (Multicall3Enabled (applyPrerequisiteOpts opts) = true ->
   is_Some (StMulticall3 cs)).

(** The chain's state has every contract [deployChainContracts] would
    deploy. *)
Definition chainContractsPresent (cs : CCIPChainState) : Prop :=
  is_Some (StReceiver cs) /\ is_Some (StRMNRemote cs) /\
  is_Some (StRMNProxyNew cs) /\ is_Some (StTestRouter cs) /\
  is_Some (StNonceManager cs) /\ is_Some (StFeeQuoter cs) /\
  is_Some (StOnRamp cs) /\ is_Some (StOffRamp cs).

(** *** Wiring *)

(** A run of [deployChainContracts] has come to the RMN wiring: it has
    written the log line that stands right before the [SetConfig] call. *)
Definition reachesRMNWiring (t : list Event) : Prop :=
  Log Info "setting active home digest to rmn remote" ∈ t.

(** It has come to the authorized-caller updates: the OffRamp step, the
    last one before them, has logged how it ended, with a fresh OffRamp or
    with the one of the state. *)
Definition reachesCallerWiring (t : list Event) : Prop :=
  Log Info "Deployed offramp" ∈ t \/ Log Info "offramp already deployed" ∈ t.

(** The goroutines of a group in the order in which they finish. *)
Definition completionOrder (finished : list nat) (tasks : list (M Event unit))
  : list (M Event unit) :=
  omap (fun i => tasks !! i) finished.

(** The address book has a record for [sel]. *)
Definition hasRecords (ab : AddressBook) (sel : N) : Prop :=
  exists m addr tv, ab !! sel = Some m /\ m !! addr = Some tv.

(** The failure policy of the Parallel Fan-Out Coordinator, for a run
    [run] that is to drive [tasks], one per target environment: every task
    has run to completion when [run] returns, whatever its siblings
    returned; [run] returns nil exactly when every task did, and otherwise
    the error of the first task, in the order of completion, that
    failed. *)
Definition fanOutPolicy (tasks : list (M Event unit)) (finished : list nat)
    (run : M Event unit) : Prop :=
  (forall m ev, m ∈ tasks -> ev ∈ events m -> ev ∈ events run) /\
  (result run = Ok tt <-> Forall (fun m => result m = Ok tt) tasks) /\
  (forall err, result run = Err err ->
     exists pre m post,
       completionOrder finished tasks = pre ++ m :: post /\
       Forall (fun m => result m = Ok tt) pre /\
       result m = Err err).

Section tasks.

Variable LoadOnchainState : Environment -> Result CCIPOnChainState.
Variable DeployUSDC : Chain -> Address -> Address -> M Event USDCContracts.
Variable NewCCIPHome : Address -> Chain -> Result Address.
Variable CapabilityLabelledName : string.
Variable CapabilityVersion : string.
Variable CCIPCapabilityID : Hash.

(** The goroutine [deployPrerequisiteChainContracts] starts for [sel]. *)
Definition prerequisiteTask (e : Environment) (state : CCIPOnChainState)
    (opts : list PrerequisiteOpt) (sel : N) : M Event unit :=
  on_error_do [Log Error "Failed to deploy prerequisite contracts"] id
    (deployPrerequisiteContracts DeployUSDC e state (chainOf e sel) opts).

(** The goroutine [deployChainContractsForChains] starts for [chainSel]. *)
Definition chainContractsTask (e : Environment) (rmnHome : RMNHomeBinding)
    (chainSel : N) : M Event unit :=
  on_error_do [Log Error "Failed to deploy chain contracts"]
    (fun err =>
       Errorf "failed to deploy chain contracts for chain %d: %w"
         [ArgUint chainSel; ArgErr err])
    (deployChainContracts LoadOnchainState e (chainOf e chainSel) rmnHome).

(** The checks [deployChainContractsForChains] makes on the home chain
    before it starts any task. *)
Definition homeChecksPass (e : Environment) (state : CCIPOnChainState)
    (homeChainSel : N) (rmnHome : RMNHomeBinding) : Prop :=
  exists capReg capability ccipHome,
    StCapabilityRegistry (chainStateOf state homeChainSel) = Some capReg /\
    ReadsGetHashedCapabilityId capReg CapabilityLabelledName CapabilityVersion
    = Ok CCIPCapabilityID /\
    ReadsGetCapability capReg CCIPCapabilityID = Ok capability /\
    NewCCIPHome (ConfigurationContract capability) (chainOf e homeChainSel)
    = Ok ccipHome /\
    StCCIPHome (chainStateOf state homeChainSel) = Some ccipHome /\
    StRMNHome (chainStateOf state homeChainSel) = Some rmnHome.

(** The checks it makes on a target before it starts the target's task. *)
Definition targetChecksPass (e : Environment) (state : CCIPOnChainState)
    (chainSel : N) : Prop :=
  is_Some (Chains e !! chainSel) /\
  is_Some (StLinkToken (chainStateOf state chainSel)) /\
  is_Some (StWeth9 (chainStateOf state chainSel)).

End tasks.

(** *** Dependency gating *)

(** The environments an error message names: the selectors among the
    arguments of its format. *)
Definition namesEnvironment (err : error) (sel : N) : Prop :=
  match err with
  | Errorf _ args => ArgUint sel ∈ args
  | _ => False
  end.

(** A record the Configuration Step requires of the home chain is absent
    from the loaded state. *)
Definition homeRecordMissing (state : CCIPOnChainState) (home : N) : Prop :=
  StCapabilityRegistry (chainStateOf state home) = None \/
  StCCIPHome (chainStateOf state home) = None \/
  StRMNHome (chainStateOf state home) = None.

(** The state of a target chain, or its OffRamp, is absent. *)
Definition targetRecordMissing (e : Environment) (state : CCIPOnChainState)
    (chainSel : N) : Prop :=
  match StateChains state !! Selector (chainOf e chainSel) with
  | None => True
  | Some chainState => StOffRamp chainState = None
  end.

Definition recordMissingIn (e : Environment) (state : CCIPOnChainState)
    (home : N) (targets : list N) (sel : N) : Prop :=
  (sel = home /\ homeRecordMissing state home) \/
  (sel ∈ targets /\ targetRecordMissing e state sel).

(** Dependency gating as the specification states it: when a required
    record is absent, the run fails with an error that names an environment
    with an absent record, and it has issued no mutating call. *)
Definition failsFast (e : Environment) (state : CCIPOnChainState)
    (home : N) (targets : list N) (run : M Event unit) : Prop :=
  (exists sel, recordMissingIn e state home targets sel) ->
  (exists err sel,
     result run = Err err /\
     recordMissingIn e state home targets sel /\
     namesEnvironment err sel) /\
  Forall (fun ev => isMutating ev = false) (events run).

End CCIPSpec.

(** ** Batched application of an AppendNodeCapabilities request *)

Module Changeset.
Import Keystone.

(** Modelled from the spec: the batched mode of the Change Router is not
    among the sources.  It "appends (target, encoded call) to the
    ChangeBatch for the calling Environment"; a ChangeBatch is an "ordered
    sequence of pending operations (target address, encoded call, value)
    grouped per Environment", and "multiple logically-related operations
    destined for the same Environment ... are accumulated into the same
    batch entry".  The batches of a request are kept in the order in which
    their environments were first addressed. *)
Fixpoint submitBatched (sel : N) (op : Operation)
    (batches : list BatchChainOperation) : list BatchChainOperation :=
  match batches with
  | [] => [ {| ChainIdentifier := sel; Batch := [op] |} ]
  | b :: rest =>
      if decide (ChainIdentifier b = sel)
      then {| ChainIdentifier := sel; Batch := Batch b ++ [op] |} :: rest
      else b :: submitBatched sel op rest
  end.

(** The batches after a sequence of submissions. *)
Definition routeBatched (submissions : list (N * Operation))
    (batches : list BatchChainOperation) : list BatchChainOperation :=
  foldl (fun bs s => submitBatched s.1 s.2 bs) batches submissions.

(** The operations submitted for one environment, in call order. *)
Definition operationsFor (sel : N) (submissions : list (N * Operation))
  : list Operation :=
  snd <$> filter (fun s => s.1 = sel) submissions.

(** The operations a list of batches holds for one environment. *)
Definition batchedFor (sel : N) (batches : list BatchChainOperation)
  : list Operation :=
  mjoin (Batch <$> filter (fun b => ChainIdentifier b = sel) batches).

(** Modelled from the spec: a GovernanceProposal is "one or more
    ChangeBatches bundled for external multi-signature approval"; the
    governance batching contract "accepts an ordered list of (environment,
    batch) pairs". *)
Record MCMSWithTimelockProposal : Type := {
  Transactions : list BatchChainOperation;
}.

Record ChangesetOutput : Type := {
  Proposals : list MCMSWithTimelockProposal;
}.

(** Modelled from the spec: the request of the test, as far as batched
    mode looks at it: the registry chain and contracts, the capabilities to
    append per node, whether an MCMS configuration is given, and the
    encoded update of the node registrations. *)
Record AppendNodeCapabilitiesRequest : Type := {
  RegistryChain : Chain;
  RegistryContracts : ContractSet;
  P2pToCapabilities : list (N * list CapabilitiesRegistryCapability);
  UseMCMS : bool;
  UpdateNodesCall : Bytes;
}.

(** Modelled from the spec: [changeset.AppendNodeCapabilities] is not among
    the sources, only its test.  One request makes two related changes on
    the registry's environment, "add capabilities" and "update node
    registrations".  The first is [AddCapabilities] of the source; in
    batched mode the second is submitted to the Change Router for the same
    environment, and the batches of the request are bundled into one
    proposal.  In direct mode there is no proposal; the direct update of
    the nodes is outside this model. *)
Definition AppendNodeCapabilities (DecodeErr : error -> error)
    (req : AppendNodeCapabilitiesRequest) : M Event ChangesetOutput :=
  let capabilities := mjoin (snd <$> P2pToCapabilities req) in
  op <- AddCapabilities DecodeErr (RegistryContracts req) (RegistryChain req)
          capabilities (UseMCMS req) ;;
  if UseMCMS req then
    let updateNodes :=
      {| To := RegistryAddress (ContractSetCapabilitiesRegistry (RegistryContracts req));
         Data := UpdateNodesCall req;
         Value := 0%Z |} in
    let batches :=
      submitBatched (Selector (RegistryChain req)) updateNodes
        (match op with Some batch => [batch] | None => [] end) in
    ret {| Proposals := [ {| Transactions := batches |} ] |}
  else
    ret {| Proposals := [] |}.

End Changeset.

(** ** Notions for further properties of the keystone package *)

Module KeystoneNotions.
Import Keystone.

(** The character "@", which [CapabilityID] uses as separator, occurs in
    [s]. *)
Fixpoint hasAt (s : string) : bool :=
  match s with
  | EmptyString => false
  | String a s' => if Ascii.eqb a "@"%char then true else hasAt s'
  end.

(** An event that only reads the registry. *)
Definition isRead (ev : Event) : bool :=
  match ev with
  | ReadGetCapabilities _ | ReadGetHashedCapabilityId _ _ _ => true
  | _ => false
  end.

(** An event that hands a capability list to the registry binding, to be
    sent or only built. *)
Definition isTransact (ev : Event) : bool :=
  match ev with
  | Transact _ _ _ => true
  | _ => false
  end.

(** An empty registry on which the hash read of the labelled name [name]
    fails, and one on which the read of the registered capabilities does. *)
Definition registryFailingOn (name : string) : CapabilitiesRegistry :=
  {| RegistryAddress := 4096%N;
     GetCapabilities := Ok [];
     GetHashedCapabilityId := fun n v =>
       if decide (n = name) then Err (Opaque "connection refused")
       else Ok (Npos (encode (n, v)));
     RegistryAddCapabilities := fun _ _ => Ok {| TxHash := 0%N; TxData := [] |} |}.

Definition unreachableRegistry : CapabilitiesRegistry :=
  {| RegistryAddress := 4096%N;
     GetCapabilities := Err (Opaque "connection refused");
     GetHashedCapabilityId := fun n v => Ok (Npos (encode (n, v)));
     RegistryAddCapabilities := fun _ _ => Ok {| TxHash := 0%N; TxData := [] |} |}.

End KeystoneNotions.

(** ** Notions for further properties of the CCIP deployment code *)

Module CCIPNotions.
Import CCIP.

Definition isLog (ev : Event) : bool :=
  match ev with Log _ _ => true | _ => false end.

(** The contract a [DeployTx] event deploys. *)
Definition deployedKind (ev : Event) : option TypeAndVersion :=
  match ev with
  | DeployTx _ tv _ => Some tv
  | _ => None
  end.

(** The deployments of a run, in order: type and version, and the
    addresses handed to the constructor. *)
Definition deployments (evs : list Event)
  : list (TypeAndVersion * list Address) :=
  omap (fun ev => match ev with
                  | DeployTx _ tv args => Some (tv, args)
                  | _ => None
                  end) evs.

(** The address at which [chain] deploys [tv] with [args]. *)
Definition deployedAt (chain : Chain) (tv : TypeAndVersion)
    (args : list Address) : Address :=
  match Deploys chain tv args with
  | Ok addr => addr
  | Err _ => 0%N
  end.

(** The record of the chain's state that [deployPrerequisiteContracts]
    looks at before it deploys [tv]; [None] for a contract it never
    deploys.  The mock RMN goes with the RMN proxy it is deployed for. *)
Definition prerequisiteRecord (cs : CCIPChainState) (tv : TypeAndVersion)
  : option (option Address) :=
  match tv with
  | NewTypeAndVersion MockRMN Version1_0_0 => Some (StRMNProxyExisting cs)
  | NewTypeAndVersion ARMProxy Version1_0_0 => Some (StRMNProxyExisting cs)
  | NewTypeAndVersion TokenAdminRegistry Version1_5_0 =>
      Some (StTokenAdminRegistry cs)
  | NewTypeAndVersion RegistryModule Version1_5_0 => Some (StRegistryModule cs)
  | NewTypeAndVersion WETH9 Version1_0_0 => Some (StWeth9 cs)
  | NewTypeAndVersion LinkToken Version1_0_0 => Some (StLinkToken cs)
  | NewTypeAndVersion Router Version1_2_0 => Some (StRouter cs)
  | NewTypeAndVersion Multicall3 Version1_0_0 => Some (StMulticall3 cs)
  | _ => None
  end.

(** The same for [deployChainContracts]. *)
Definition chainContractRecord (cs : CCIPChainState) (tv : TypeAndVersion)
  : option (option Address) :=
  match tv with
  | NewTypeAndVersion CCIPReceiver Version1_0_0 => Some (StReceiver cs)
  | NewTypeAndVersion RMNRemote Version1_6_0_dev => Some (StRMNRemote cs)
  | NewTypeAndVersion ARMProxy Version1_6_0_dev => Some (StRMNProxyNew cs)
  | NewTypeAndVersion TestRouter Version1_2_0 => Some (StTestRouter cs)
  | NewTypeAndVersion NonceManager Version1_6_0_dev => Some (StNonceManager cs)
  | NewTypeAndVersion FeeQuoter Version1_6_0_dev => Some (StFeeQuoter cs)
  | NewTypeAndVersion OnRamp Version1_6_0_dev => Some (StOnRamp cs)
  | NewTypeAndVersion OffRamp Version1_6_0_dev => Some (StOffRamp cs)
  | _ => None
  end.

(** The records [deployChainContracts] insists on before it deploys
    anything. *)
Definition readyForChainContracts (cs : CCIPChainState) : Prop :=
  is_Some (StWeth9 cs) /\ is_Some (StTimelock cs) /\
  is_Some (StLinkToken cs) /\ is_Some (StTokenAdminRegistry cs) /\
  is_Some (StRegistryModule cs) /\ is_Some (StRouter cs).

(** The state has none of the contracts [deployChainContracts] deploys. *)
Definition noChainContracts (cs : CCIPChainState) : Prop :=
  StReceiver cs = None /\ StRMNRemote cs = None /\ StRMNProxyNew cs = None /\
  StTestRouter cs = None /\ StNonceManager cs = None /\
  StFeeQuoter cs = None /\ StOnRamp cs = None /\ StOffRamp cs = None.

(** A request that the chain, or the RMNHome binding, turned down. *)
Definition rejected (chain : Chain) (rmnHome : option RMNHomeBinding)
    (ev : Event) : Prop :=
  match ev with
  | DeployTx _ tv args => is_ok (Deploys chain tv args) = false
  | SendTx _ to call => is_ok (Sends chain to call) = false
  | WaitConfirm _ tx => is_ok (Confirm chain tx) = false
  | Read _ to (IsRegistryModule module) =>
      is_ok (ReadsIsRegistryModule chain to module) = false
  | Read _ _ GetActiveDigest =>
      match rmnHome with
      | Some rmnHome => is_ok (ReadsGetActiveDigest rmnHome) = false
      | None => False
      end
  | _ => False
  end.

(** Fail-stop: whatever follows a request that was turned down is a log
    line. *)
Definition stopsAtRejection (rej : Event -> Prop) (t : list Event) : Prop :=
  forall pre ev post,
    t = pre ++ ev :: post -> rej ev -> Forall (fun ev => isLog ev = true) post.

(** A computation is fail-stop, and reports every request that was turned
    down: when it returns without error none was. *)
Definition failStop {A} (rej : Event -> Prop) (m : M Event A) : Prop :=
  stopsAtRejection rej (events m) /\
  (is_ok (result m) = true -> Forall (fun ev => ~ rej ev) (events m)).

(** The events of a list that address the chain [sel]. *)
Definition onChain (sel : N) (evs : list Event) : list Event :=
  filter (fun ev => eventChain ev = Some sel) evs.

End CCIPNotions.

(** ** Further sample data for the CCIP deployment code *)

Module CCIPCases.
Import CCIP CCIPSamples.

(** The state of a chain that has its prerequisites but for the router and
    Multicall3. *)
Definition routerMissing : CCIPChainState :=
  {| StWeth9 := Some 105%N; StLinkToken := Some 103%N;
     StTokenAdminRegistry := Some 108%N; StRegistryModule := Some 109%N;
     StRMNProxyExisting := Some 104%N; StRMNProxyNew := None;
     StRouter := None; StMulticall3 := None; StReceiver := None;
     StRMNRemote := None; StTestRouter := None; StNonceManager := None;
     StFeeQuoter := None; StOnRamp := None; StOffRamp := None;
     StTimelock := None; StCapabilityRegistry := None;
     StCCIPHome := None; StRMNHome := None |}.

Definition routerMissingState : CCIPOnChainState :=
  {| StateChains := {[ 2%N := routerMissing ]} |}.

(** The three chains again, with the deployment of the RMNRemote failing
    on selector 2. *)
Definition faultyEnv : Environment :=
  {| Chains := {[ 1%N := healthyChain 1 200 true;
                  2%N := faultyChain 2 300
                           (NewTypeAndVersion RMNRemote Version1_6_0_dev);
                  3%N := healthyChain 3 400 false ]};
     ExistingAddresses := prerequisiteBook 1;
     NodeIDs := ["node-1"; "node-2"; "node-3"] |}.

End CCIPCases.

(** * Properties *)

Set Default Proof Using "Type*".
Set Warnings "-clear-no-such-hyp".

(** ** The effect monad *)

Section eff_lemmas.
Context {E A B : Type}.

Lemma bind_pure (a : A) (k : A -> M E B) : bind (Ok a, []) k = k a.
Proof. unfold bind. by destruct (k a). Qed.

Lemma bind_load evs f (a : A) (k : A -> M E B) :
  bind (on_error_do evs f (lift (Ok a))) k = k a.
Proof. apply bind_pure. Qed.

Lemma bind_read evs f (ev : E) (a : A) (k : A -> M E B) :
  bind (on_error_do evs f (bind (emit ev) (fun _ => lift (Ok a)))) k
  = (result (k a), ev :: events (k a)).
Proof. unfold bind, emit, lift, on_error_do. simpl. by destruct (k a). Qed.

Lemma result_bind_ok (m : M E A) (k : A -> M E B) b :
  result (bind m k) = Ok b ->
  exists a, result m = Ok a /\ result (k a) = Ok b /\
            events (bind m k) = events m ++ events (k a).
Proof.
  destruct m as [[a|e] t]; simpl; [|done].
  destruct (k a) as [r t'] eqn:Hk; simpl. intros ->.
  exists a. by rewrite Hk.
Qed.

Lemma result_bind_inv (m : M E A) (k : A -> M E B) b :
  result (bind m k) = Ok b ->
  exists a, result m = Ok a /\ result (k a) = Ok b.
Proof.
  intros H. apply result_bind_ok in H as (a & Hm & Hk & _). eauto.
Qed.

Lemma events_bind_suffix (m : M E A) (k : A -> M E B) a ev :
  result m = Ok a -> ev ∈ events (k a) -> ev ∈ events (bind m k).
Proof.
  destruct m as [[a'|e] t]; simpl; [|done]. intros [= ->].
  destruct (k a) as [r t']. simpl. intros. apply elem_of_app. by right.
Qed.

End eff_lemmas.

(** ** Package keystone *)

Section keystone_proofs.
Import Keystone KeystoneSpec.

Variable DecodeErr : error -> error.
Variable registry : CapabilitiesRegistry.
Variable existing : list CapabilitiesRegistryCapabilityInfo.



Lemma existingByID_spec (h : Hash) (acc : gset Hash) :
  h ∈ foldl (fun m cap => {[ HashedId cap ]} ∪ m) acc existing
  <-> h ∈ acc \/ h ∈ HashedId <$> existing.
Proof.
  revert acc. induction existing as [|i l IH]; intros acc; simpl.
  - set_solver.
  - rewrite IH. set_solver.
Qed.

Lemma dedupLoop_survivors caps :
  hashesSucceed registry caps ->
  forall earlier seen out,
    seen = list_to_set (CapabilityID <$> earlier) ->
    dedupLoop registry
      (foldl (fun m cap => {[ HashedId cap ]} ∪ m) ∅ existing) caps seen out
    = (Ok (out ++ survivors sameCapabilityID registry existing earlier caps),
       hashReads registry caps).
Proof.
  induction 1 as [|c rest Hc _ IH]; intros earlier seen out Hseen; simpl.
  - by rewrite app_nil_r.
  - unfold callGetHashedCapabilityId, alreadyRegistered.
    destruct (GetHashedCapabilityId registry (LabelledName c) (Version c))
      as [h|] eqn:Hh; [|done]. simpl.
    assert (Hdup : CapabilityID c ∈ seen <-> Exists (sameCapabilityID c) earlier).
    { subst seen. rewrite elem_of_list_to_set, list_elem_of_fmap, Exists_exists.
      unfold sameCapabilityID. naive_solver. }
    assert (Hseen' : {[ CapabilityID c ]} ∪ seen
                     = list_to_set (CapabilityID <$> (earlier ++ [c]))).
    { subst seen. rewrite fmap_app, list_to_set_app_L. simpl. set_solver. }
    destruct (decide (CapabilityID c ∈ seen)) as [Hin|Hnin].
    + rewrite bool_decide_eq_true_2 by (by apply Hdup). simpl.
      rewrite (IH (earlier ++ [c]) seen out); [done|].
      rewrite <- Hseen'. set_solver.
    + rewrite bool_decide_eq_false_2 by (by rewrite <- Hdup). simpl.
      destruct (decide (h ∈ foldl (fun m cap => {[ HashedId cap ]} ∪ m) ∅ existing))
        as [Hreg|Hreg].
      * rewrite bool_decide_eq_true_2
          by (apply existingByID_spec in Hreg; set_solver).
        by rewrite (IH (earlier ++ [c]) _ out Hseen').
      * rewrite bool_decide_eq_false_2
          by (intros ?; apply Hreg, existingByID_spec; by right).
        rewrite (IH (earlier ++ [c]) _ (out ++ [c]) Hseen').
        by rewrite <- app_assoc.
Qed.

(** What [dedupCapabilities] computes when the registry reads succeed: the
    survivors up to the rendered identifier, after one read of the
    registered capabilities and one hash read per requested descriptor. *)
Lemma dedupCapabilities_by_id caps :
  GetCapabilities registry = Ok existing ->
  hashesSucceed registry caps ->
  dedupCapabilities registry caps
  = (Ok (survivors sameCapabilityID registry existing [] caps),
     ReadGetCapabilities (RegistryAddress registry) :: hashReads registry caps).
Proof.
  intros Hget Hhash. unfold dedupCapabilities, callGetCapabilities.
  rewrite Hget. simpl.
  by rewrite (dedupLoop_survivors caps Hhash [] ∅ []).
Qed.

End keystone_proofs.

Section keystone_claims.
Import Keystone KeystoneSpec KeystoneSamples.

Variable DecodeErr : error -> error.

(** When no two descriptors of the request render to the same identifier
    without being the same capability, the code's notion of duplicate is
    the specification's. *)
Lemma survivors_sameCapability registry existing caps :
  forall earlier,
    (forall c1 c2, c1 ∈ earlier ++ caps -> c2 ∈ earlier ++ caps ->
                   CapabilityID c1 = CapabilityID c2 -> sameCapability c1 c2) ->
    survivors sameCapabilityID registry existing earlier caps
    = survivors sameCapability registry existing earlier caps.
Proof.
  induction caps as [|c rest IH]; intros earlier Hinj; [done|]. simpl.
  assert (Hex : Exists (sameCapabilityID c) earlier
                <-> Exists (sameCapability c) earlier).
  { rewrite !Exists_exists. split; intros (x & Hx & Hsame); exists x; split; try done.
    - apply Hinj; [set_solver|set_solver|done].
    - destruct Hsame as [Hn Hv]. unfold sameCapabilityID, CapabilityID.
      by rewrite Hn, Hv. }
  rewrite (bool_decide_ext _ _ Hex).
  rewrite IH; [done|]. intros c1 c2 H1 H2. apply Hinj.
  - rewrite <- app_assoc in H1. done.
  - rewrite <- app_assoc in H2. done.
Qed.

(** The deduplicator returns the genuinely new descriptors whenever the
    request has no two different capabilities with one rendered
    identifier. *)
Lemma dedupCapabilities_genuinelyNew registry existing caps :
  GetCapabilities registry = Ok existing ->
  hashesSucceed registry caps ->
  (forall c1 c2, c1 ∈ caps -> c2 ∈ caps ->
                 CapabilityID c1 = CapabilityID c2 -> sameCapability c1 c2) ->
  result (dedupCapabilities registry caps)
  = Ok (genuinelyNew registry existing caps).
Proof.
  intros Hget Hhash Hinj.
  rewrite (dedupCapabilities_by_id registry existing caps Hget Hhash).
  unfold genuinelyNew. simpl. f_equal.
  by apply survivors_sameCapability.
Qed.

(** The scenario of the specification: [A@1.0, B@1.0, A@1.0] against a
    registry that holds [A@1.0] leaves [B@1.0]. *)
Example dedupCapabilities_scenario :
  result (dedupCapabilities (sampleRegistry [capA]) [capA; capB; capA])
  = Ok [capB].
Proof. vm_compute. reflexivity. Qed.

(** C1.  The deduplicator is to return every requested descriptor that is
    neither registered nor a duplicate, by (name, version), of an earlier
    one.  On the request [("a@b", "c"); ("a", "b@c")] against an empty
    registry both descriptors are different, unregistered capabilities with
    different registry hashes, so both are genuinely new; the code keys its
    [seen] map by [CapabilityID], which renders both as "a@b@c", and
    returns the first only. *)
Theorem dedupCapabilities_conflates_rendered_ids :
  ~ sameCapability capLeft capRight /\
  GetHashedCapabilityId (sampleRegistry []) (LabelledName capLeft) (Version capLeft)
  <> GetHashedCapabilityId (sampleRegistry []) (LabelledName capRight) (Version capRight) /\
  CapabilityID capLeft = CapabilityID capRight /\
  genuinelyNew (sampleRegistry []) [] [capLeft; capRight] = [capLeft; capRight] /\
  result (dedupCapabilities (sampleRegistry []) [capLeft; capRight])
  = Ok [capLeft].
Proof.
  split; [by intros [? _]|].
  split; [by vm_compute|].
  split; [done|].
  split; by vm_compute.
Qed.

(** C9.  A request of length zero returns a nil batch and a nil error and
    does nothing: no registry read, no transaction, no confirmation wait,
    no log line, in either mode and whatever the registry, the chain and
    the contract set are. *)
Theorem AddCapabilities_empty_request contractSet chain capabilities useMCMS :
  length capabilities = 0 ->
  result (AddCapabilities DecodeErr contractSet chain capabilities useMCMS)
  = Ok None /\
  events (AddCapabilities DecodeErr contractSet chain capabilities useMCMS) = [].
Proof.
  intros Hlen. unfold AddCapabilities.
  rewrite decide_True by exact Hlen. by split.
Qed.

(** The run of [AddCapabilities] in batched mode on a non-empty request
    when the registry calls succeed. *)
Lemma AddCapabilities_batched_run contractSet chain caps existing tx :
  caps <> [] ->
  GetCapabilities (ContractSetCapabilitiesRegistry contractSet) = Ok existing ->
  hashesSucceed (ContractSetCapabilitiesRegistry contractSet) caps ->
  RegistryAddCapabilities (ContractSetCapabilitiesRegistry contractSet)
    SimTransactOpts
    (survivors sameCapabilityID (ContractSetCapabilitiesRegistry contractSet)
       existing [] caps) = Ok tx ->
  AddCapabilities DecodeErr contractSet chain caps true
  = (Ok (Some {| ChainIdentifier := Selector chain;
                 Batch := [ {| To := RegistryAddress
                                       (ContractSetCapabilitiesRegistry contractSet);
                               Data := TxData tx; Value := 0%Z |} ] |}),
     ReadGetCapabilities (RegistryAddress (ContractSetCapabilitiesRegistry contractSet))
     :: hashReads (ContractSetCapabilitiesRegistry contractSet) caps
     ++ [Transact (RegistryAddress (ContractSetCapabilitiesRegistry contractSet))
           SimTransactOpts
           (survivors sameCapabilityID
              (ContractSetCapabilitiesRegistry contractSet) existing [] caps)]).
Proof.
  intros Hne Hget Hhash Htx.
  set (registry := ContractSetCapabilitiesRegistry contractSet) in *.
  unfold AddCapabilities. destruct caps as [|c rest]; [done|].
  rewrite decide_False by done. fold registry.
  rewrite (dedupCapabilities_by_id registry existing _ Hget Hhash).
  cbn [on_error bind]. unfold callAddCapabilities.
  cbn [bind emit lift]. rewrite Htx. cbn [on_error bind negb ret].
  by rewrite app_nil_r.
Qed.

(** C3.  Batched mode, non-empty request, registry calls succeeding: the
    result is a batch operation for the chain's selector with the single
    operation (registry address, data of the built transaction, value 0);
    the transaction is built with the simulation options for the
    deduplicated request; nothing is submitted and no confirmation is
    waited for. *)
Theorem AddCapabilities_batched_mode contractSet chain caps existing tx :
  caps <> [] ->
  GetCapabilities (ContractSetCapabilitiesRegistry contractSet) = Ok existing ->
  hashesSucceed (ContractSetCapabilitiesRegistry contractSet) caps ->
  RegistryAddCapabilities (ContractSetCapabilitiesRegistry contractSet)
    SimTransactOpts
    (survivors sameCapabilityID (ContractSetCapabilitiesRegistry contractSet)
       existing [] caps) = Ok tx ->
  result (AddCapabilities DecodeErr contractSet chain caps true)
  = Ok (Some {| ChainIdentifier := Selector chain;
                Batch := [ {| To := RegistryAddress
                                      (ContractSetCapabilitiesRegistry contractSet);
                              Data := TxData tx;
                              Value := 0%Z |} ] |})
  /\ events (AddCapabilities DecodeErr contractSet chain caps true)
     = ReadGetCapabilities (RegistryAddress (ContractSetCapabilitiesRegistry contractSet))
       :: hashReads (ContractSetCapabilitiesRegistry contractSet) caps
       ++ [Transact (RegistryAddress (ContractSetCapabilitiesRegistry contractSet))
             SimTransactOpts
             (survivors sameCapabilityID
                (ContractSetCapabilitiesRegistry contractSet) existing [] caps)]
  /\ Forall (fun ev => onchain_effect ev = false /\ is_confirm ev = false)
       (events (AddCapabilities DecodeErr contractSet chain caps true)).
Proof.
  intros Hne Hget Hhash Htx.
  pose proof (AddCapabilities_batched_run contractSet chain caps existing tx
                Hne Hget Hhash Htx) as Hrun.
  rewrite Hrun. simpl. split; [done|]. split; [done|].
  constructor; [done|]. apply Forall_app. split.
  - unfold hashReads. apply Forall_fmap, Forall_true. done.
  - by repeat constructor.
Qed.


(** C4.  Direct mode never returns a batch.  On a non-empty request whose
    registry reads succeed it submits the deduplicated request with the
    chain's deployer key; a failed submission is an error; otherwise it
    waits for the confirmation of that transaction, a failed confirmation
    is an error, and a confirmed one gives the nil batch with a nil
    error. *)
Theorem AddCapabilities_direct_mode contractSet chain caps :
  (forall batch,
     result (AddCapabilities DecodeErr contractSet chain caps false)
     <> Ok (Some batch)) /\
  match caps, dedupCapabilities (ContractSetCapabilitiesRegistry contractSet) caps with
  | [], _ => True
  | _, (Err _, _) =>
      is_ok (result (AddCapabilities DecodeErr contractSet chain caps false)) = false
  | _, (Ok deduped, reads) =>
      let submit :=
        Transact (RegistryAddress (ContractSetCapabilitiesRegistry contractSet))
          (DeployerKey chain) deduped in
      match RegistryAddCapabilities (ContractSetCapabilitiesRegistry contractSet)
              (DeployerKey chain) deduped with
      | Err _ =>
          is_ok (result (AddCapabilities DecodeErr contractSet chain caps false)) = false
          /\ events (AddCapabilities DecodeErr contractSet chain caps false)
             = reads ++ [submit]
      | Ok tx =>
          match Confirm chain tx with
          | Err _ =>
              is_ok (result (AddCapabilities DecodeErr contractSet chain caps false))
              = false
              /\ events (AddCapabilities DecodeErr contractSet chain caps false)
                 = reads ++ [submit; WaitConfirm (Selector chain) tx]
          | Ok _ =>
              result (AddCapabilities DecodeErr contractSet chain caps false) = Ok None
              /\ events (AddCapabilities DecodeErr contractSet chain caps false)
                 = reads ++ [submit; WaitConfirm (Selector chain) tx;
                             LogInfo "registered capabilities" deduped]
          end
      end
  end.
Proof.
  unfold AddCapabilities.
  destruct caps as [|c rest]; [by split|].
  rewrite decide_False by done.
  set (registry := ContractSetCapabilitiesRegistry contractSet).
  destruct (dedupCapabilities registry (c :: rest)) as [[deduped|e] reads];
    [|by split; [intros ?|]; destruct e].
  unfold callAddCapabilities, callConfirm. simpl.
  destruct (RegistryAddCapabilities registry (DeployerKey chain) deduped)
    as [tx|e]; simpl; [|by split; [intros ?|]; destruct e].
  destruct (Confirm chain tx) as [n|e]; simpl;
    [by split; [intros ?|]|by split; [intros ?|]; destruct e].
Qed.

End keystone_claims.

Section keystone_witnesses.
Import Keystone KeystoneSpec KeystoneSamples.

(** A registry on which every call fails. *)
Lemma AddCapabilities_empty_request_witness :
  result (AddCapabilities sampleDecodeErr
            {| ContractSetCapabilitiesRegistry :=
                 {| RegistryAddress := 4096%N;
                    GetCapabilities := Err (Opaque "connection refused");
                    GetHashedCapabilityId := fun _ _ => Err (Opaque "connection refused");
                    RegistryAddCapabilities := fun _ _ => Err (Opaque "connection refused") |} |}
            sampleChain [] true) = Ok None /\
  events (AddCapabilities sampleDecodeErr
            {| ContractSetCapabilitiesRegistry :=
                 {| RegistryAddress := 4096%N;
                    GetCapabilities := Err (Opaque "connection refused");
                    GetHashedCapabilityId := fun _ _ => Err (Opaque "connection refused");
                    RegistryAddCapabilities := fun _ _ => Err (Opaque "connection refused") |} |}
            sampleChain [] true) = [].
Proof.
  apply (AddCapabilities_empty_request sampleDecodeErr). reflexivity.
Defined.

Lemma AddCapabilities_batched_mode_witness :
  result (AddCapabilities sampleDecodeErr (sampleContractSet [capA]) sampleChain
            [capA; capB; capA] true)
  = Ok (Some {| ChainIdentifier := 909606746561742123%N;
                Batch := [ {| To := 4096%N; Data := [x01; x02]; Value := 0%Z |} ] |})
  /\ Forall (fun ev => onchain_effect ev = false /\ is_confirm ev = false)
       (events (AddCapabilities sampleDecodeErr (sampleContractSet [capA]) sampleChain
                  [capA; capB; capA] true)).
Proof.
  destruct (AddCapabilities_batched_mode sampleDecodeErr
              (sampleContractSet [capA]) sampleChain
              [capA; capB; capA] [sampleInfo capA] (sampleTx [capB]))
    as (Hres & _ & Hev).
  - done.
  - reflexivity.
  - repeat constructor.
  - vm_compute. reflexivity.
  - split; [exact Hres|exact Hev].
Defined.

End keystone_witnesses.

(** ** Reasoning about emitted events, compositionally *)

#[export] Instance Forall_compositional {E} (Q : E -> Prop) :
  Compositional (Forall Q).
Proof. split; [constructor|]. intros. by apply Forall_app. Qed.

Section emits_rules.
Context {E : Type} (P : list E -> Prop) `{!Compositional P}.

Lemma emits_ret {A} (a : A) : emits P (ret a).
Proof. apply comp_nil. Qed.

Lemma emits_fail {A} e : emits P (@fail E A e).
Proof. apply comp_nil. Qed.

Lemma emits_lift {A} (r : Result A) : emits P (lift r).
Proof. apply comp_nil. Qed.

Lemma emits_emit ev : P [ev] -> emits P (emit ev).
Proof. done. Qed.

Lemma emits_bind {A B} (m : M E A) (k : A -> M E B) :
  emits P m -> (forall a, emits P (k a)) -> emits P (bind m k).
Proof.
  unfold emits, events. destruct m as [[a|e] t]; simpl; [|done].
  intros Hm Hk. specialize (Hk a). destruct (k a) as [r t']. simpl in *.
  by apply comp_app.
Qed.

Lemma emits_on_error {A} f (m : M E A) : emits P m -> emits P (on_error f m).
Proof. by destruct m as [[a|[]] t]. Qed.

Lemma emits_on_error_do {A} evs f (m : M E A) :
  P evs -> emits P m -> emits P (on_error_do evs f m).
Proof.
  unfold emits, events. destruct m as [[a|[]] t]; simpl; try done;
    intros; by apply comp_app.
Qed.

End emits_rules.

Section succeeds_rules.
Context {E : Type}.

Lemma succeeds_ret {A} (a : A) : succeeds (@ret E A a).
Proof. done. Qed.

Lemma succeeds_emit (ev : E) : succeeds (emit ev).
Proof. done. Qed.

Lemma succeeds_bind {A B} (m : M E A) (k : A -> M E B) :
  succeeds m -> (forall a, succeeds (k a)) -> succeeds (bind m k).
Proof.
  unfold succeeds, result. destruct m as [[a|e] t]; simpl; [|done].
  intros _ Hk. specialize (Hk a). by destruct (k a).
Qed.

Lemma succeeds_on_error_do {A} evs f (m : M E A) :
  succeeds m -> succeeds (on_error_do evs f m).
Proof. by destruct m as [[a|[]] t]. Qed.

Lemma succeeds_result (m : M E unit) : succeeds m -> result m = Ok tt.
Proof. unfold succeeds. by destruct (result m) as [[]|]. Qed.

End succeeds_rules.

(** One step of a proof by the rules above; [tac] closes the leaves. *)
Ltac emits_step tac :=
  lazymatch goal with
  | |- emits ?P (bind _ _) => apply (emits_bind P); [|intros ?]
  | |- emits ?P (on_error_do _ _ _) => apply (emits_on_error_do P); [tac|]
  | |- emits ?P (on_error _ _) => apply (emits_on_error P)
  | |- emits ?P (ret _) => apply (emits_ret P)
  | |- emits ?P (fail _) => apply (emits_fail P)
  | |- emits ?P (lift _) => apply (emits_lift P)
  | |- emits ?P (emit _) => apply (emits_emit P); tac
  | |- emits _ (match ?x with _ => _ end) => destruct x eqn:?
  end.

Ltac succeeds_step tac :=
  lazymatch goal with
  | |- succeeds (bind _ _) => apply succeeds_bind; [|intros ?]
  | |- succeeds (on_error_do _ _ _) => apply succeeds_on_error_do
  | |- succeeds (ret _) => apply succeeds_ret
  | |- succeeds (emit _) => apply succeeds_emit
  | |- succeeds (match ?x with _ => _ end) => destruct x eqn:?
  | |- _ => tac
  end.

(** ** The CCIP deployment code *)

Section ccip_steps.
Import CCIP CCIPSpec.

#[export] Instance persisted_compositional chain : Compositional (persisted chain).
Proof.
  split.
  - intros tv args addr Hin. by apply elem_of_nil in Hin.
  - intros t1 t2 H1 H2 tv args addr Hin Hd Hc.
    apply elem_of_app in Hin as [Hin|Hin]; apply elem_of_app; eauto.
Qed.

Lemma DeployContract_persisted chain tv args :
  emits (persisted chain) (DeployContract chain (deployClosure tv args)).
Proof.
  unfold DeployContract, deployClosure, chainConfirm, emits.
  cbn [bind emit]. destruct (Deploys chain tv args) as [addr|err] eqn:Hd.
  - cbn. destruct (Confirm chain (TxDeploy tv args)) as [[]|err] eqn:Hc; cbn.
    + intros tv' args' addr' Hin Hd' Hc'.
      apply elem_of_cons in Hin as [Heq|Hin]; [|set_solver].
      injection Heq as -> ->. rewrite Hd in Hd'. injection Hd' as ->.
      set_solver.
    + intros tv' args' addr' Hin Hd' Hc'.
      apply elem_of_cons in Hin as [Heq|Hin]; [|set_solver].
      injection Heq as -> ->. congruence.
  - cbn. intros tv' args' addr' Hin Hd' Hc'.
    apply elem_of_cons in Hin as [Heq|Hin]; [|set_solver].
    injection Heq as -> ->. congruence.
Qed.

Lemma DeployContract_local chain tv args :
  emits (Forall (localTo (Selector chain)))
    (DeployContract chain (deployClosure tv args)).
Proof.
  unfold DeployContract, deployClosure, chainConfirm, emits.
  cbn [bind emit]. destruct (Deploys chain tv args) as [addr|err]; cbn.
  - destruct (Confirm chain (TxDeploy tv args)) as [[]|err]; cbn;
      repeat constructor; by right.
  - repeat constructor; by right.
Qed.

Lemma DeployContract_succeeds chain tv args :
  healthy chain -> succeeds (DeployContract chain (deployClosure tv args)).
Proof.
  intros (Hd & _ & Hc & _).
  unfold DeployContract, deployClosure, chainConfirm, succeeds.
  cbn [bind emit]. specialize (Hd tv args).
  destruct (Deploys chain tv args) as [addr|err]; [|done]. cbn.
  by rewrite Hc.
Qed.

Lemma send_local chain to call :
  emits (Forall (localTo (Selector chain))) (send chain to call).
Proof.
  unfold send, emits. cbn. destruct (Sends chain to call) as [[]|];
    repeat constructor; by right.
Qed.

Lemma send_no_deploy chain to call :
  emits (Forall (fun ev => isDeploy ev = false /\ isSave ev = false))
    (send chain to call).
Proof.
  unfold send, emits. cbn. destruct (Sends chain to call) as [[]|];
    by repeat constructor.
Qed.

Lemma send_persisted chain to call :
  emits (persisted chain) (send chain to call).
Proof.
  unfold send, emits. cbn.
  destruct (Sends chain to call) as [[]|]; cbn; intros tv args addr Hin;
    set_solver.
Qed.

Lemma send_succeeds chain to call :
  healthy chain -> succeeds (send chain to call).
Proof. intros (_ & Hs & _). unfold send, succeeds. cbn. by rewrite Hs. Qed.

Lemma chainConfirm_local chain tx :
  emits (Forall (localTo (Selector chain))) (chainConfirm chain tx).
Proof.
  unfold chainConfirm, emits. cbn. destruct (Confirm chain tx) as [[]|];
    repeat constructor; by right.
Qed.

Lemma chainConfirm_no_deploy chain tx :
  emits (Forall (fun ev => isDeploy ev = false /\ isSave ev = false))
    (chainConfirm chain tx).
Proof.
  unfold chainConfirm, emits. cbn. destruct (Confirm chain tx) as [[]|];
    by repeat constructor.
Qed.

Lemma chainConfirm_persisted chain tx :
  emits (persisted chain) (chainConfirm chain tx).
Proof.
  unfold chainConfirm, emits. cbn.
  destruct (Confirm chain tx) as [[]|]; cbn; intros tv args addr Hin;
    set_solver.
Qed.

Lemma chainConfirm_succeeds chain tx :
  healthy chain -> succeeds (chainConfirm chain tx).
Proof.
  intros (_ & _ & Hc & _). unfold chainConfirm, succeeds. cbn. by rewrite Hc.
Qed.

Lemma persisted_singleton chain ev :
  isDeploy ev = false -> persisted chain [ev].
Proof.
  intros Hev tv args addr Hin. apply list_elem_of_singleton in Hin.
  by subst ev.
Qed.

End ccip_steps.

Lemma succeeds_lift {E A} (r : Result A) :
  is_ok r = true -> succeeds (@lift E A r).
Proof. done. Qed.

Lemma events_bind_prefix {E A B} (m : M E A) (k : A -> M E B) ev :
  ev ∈ events m -> ev ∈ events (bind m k).
Proof.
  destruct m as [[a|e] t]; simpl; [|done].
  destruct (k a) as [r t']. simpl. set_solver.
Qed.

Lemma events_on_error_do_prefix {E A} evs f (m : M E A) ev :
  ev ∈ events m -> ev ∈ events (on_error_do evs f m).
Proof. destruct m as [[a|[]] t]; simpl; set_solver. Qed.

Ltac persisted_leaf :=
  idtac; first [ apply DeployContract_persisted
        | apply send_persisted
        | apply chainConfirm_persisted
        | apply persisted_singleton; reflexivity
        | assumption ].
Ltac local_leaf :=
  idtac; first [ apply DeployContract_local
        | apply send_local
        | apply chainConfirm_local
        | by (repeat constructor; first [by left | by right])
        | assumption ].
Ltac quiet_leaf :=
  idtac; first [ apply send_no_deploy
        | apply chainConfirm_no_deploy
        | by repeat constructor
        | congruence
        | assumption ].
Ltac emits_walk leaf :=
  repeat first [ emits_step leaf | leaf ].

Ltac succeeds_leaf H :=
  idtac;
  first [ apply (DeployContract_succeeds _ _ _ H)
        | apply (send_succeeds _ _ _ H)
        | apply (chainConfirm_succeeds _ _ H)
        | apply succeeds_lift; apply H
        | reflexivity
        | assumption ].

Section ccip_deployers.
Import CCIP CCIPSpec.

Variable LoadOnchainState : Environment -> Result CCIPOnChainState.
Variable DeployUSDC : Chain -> Address -> Address -> M Event USDCContracts.

(** Whatever the state and however the run ends, the prerequisite deployer
    has saved the record of every deployment that went through. *)
Lemma deployPrerequisiteContracts_persisted e state chain opts :
  (Selector chain ∈ USDCEnabledChains (applyPrerequisiteOpts opts) ->
   forall rmnProxy r, emits (persisted chain) (DeployUSDC chain rmnProxy r)) ->
  emits (persisted chain)
    (deployPrerequisiteContracts DeployUSDC e state chain opts).
Proof.
  intros Husdc. unfold deployPrerequisiteContracts, log. cbv zeta.
  emits_walk persisted_leaf;
    apply Husdc; eapply bool_decide_eq_true_1; eassumption.
Qed.

(** Without stablecoin support for the chain, the prerequisite deployer
    only addresses its own chain. *)
Lemma deployPrerequisiteContracts_local e state chain opts :
  (Selector chain ∈ USDCEnabledChains (applyPrerequisiteOpts opts) ->
   forall rmnProxy r,
     emits (Forall (localTo (Selector chain))) (DeployUSDC chain rmnProxy r)) ->
  emits (Forall (localTo (Selector chain)))
    (deployPrerequisiteContracts DeployUSDC e state chain opts).
Proof.
  intros Husdc. unfold deployPrerequisiteContracts, log. cbv zeta.
  emits_walk local_leaf;
    apply Husdc; eapply bool_decide_eq_true_1; eassumption.
Qed.

(** On a chain where every request goes through, the prerequisite deployer
    returns no error, whatever the state and the options, as long as the
    stablecoin step, when asked for, goes through as well. *)
Lemma deployPrerequisiteContracts_succeeds e state chain opts :
  healthy chain ->
  (Selector chain ∈ USDCEnabledChains (applyPrerequisiteOpts opts) ->
   forall rmnProxy r, succeeds (DeployUSDC chain rmnProxy r)) ->
  succeeds (deployPrerequisiteContracts DeployUSDC e state chain opts).
Proof.
  intros Hh Husdc. unfold deployPrerequisiteContracts, log. cbv zeta.
  repeat first
    [ succeeds_step ltac:(succeeds_leaf Hh)
    | apply Husdc; eapply bool_decide_eq_true_1; eassumption ].
Qed.

(** Skip-if-exists: with every prerequisite in the state and no stablecoin
    support asked for, the prerequisite deployer deploys nothing and saves
    nothing. *)
Lemma deployPrerequisiteContracts_skips_existing e state chain opts cs :
  StateChains state !! Selector chain = Some cs ->
  prerequisitesPresent opts cs ->
  Selector chain ∉ USDCEnabledChains (applyPrerequisiteOpts opts) ->
  emits (Forall quiet)
    (deployPrerequisiteContracts DeployUSDC e state chain opts).
Proof.
  intros Hcs ([a1 H1] & [a2 H2] & [a3 H3] & [a4 H4] & [a5 H5] & [a6 H6] & Hmc)
    Husdc.
  unfold deployPrerequisiteContracts, log, chainStateOf. cbv zeta.
  rewrite Hcs. rewrite bool_decide_eq_true_2 by eauto.
  rewrite (bool_decide_eq_false_2 _ Husdc).
  change (default zeroChainState (Some cs)) with cs. cbv iota.
  rewrite H1, H2, H3, H4, H5, H6.
  assert (Hmc' : Multicall3Enabled (applyPrerequisiteOpts opts)
                 && bool_decide (StMulticall3 cs = None) = false).
  { destruct (Multicall3Enabled (applyPrerequisiteOpts opts)); [|done].
    destruct Hmc as [m Hm]; [done|]. rewrite Hm. done. }
  rewrite Hmc'.
  emits_walk quiet_leaf.
Qed.

(** The stablecoin step looks at no record: on a chain enabled for it,
    whatever [DeployUSDC] does it does on every run, also when the state
    has every prerequisite and the earlier steps have all been skipped. *)
Lemma deployPrerequisiteContracts_stablecoin_unguarded
    e state chain opts cs rmnProxy tar rm weth link r ev :
  StateChains state !! Selector chain = Some cs ->
  StRMNProxyExisting cs = Some rmnProxy ->
  StTokenAdminRegistry cs = Some tar ->
  StRegistryModule cs = Some rm ->
  StWeth9 cs = Some weth ->
  StLinkToken cs = Some link ->
  StRouter cs = Some r ->
  ReadsIsRegistryModule chain tar rm = Ok true ->
  Multicall3Enabled (applyPrerequisiteOpts opts)
  && bool_decide (StMulticall3 cs = None) = false ->
  Selector chain ∈ USDCEnabledChains (applyPrerequisiteOpts opts) ->
  ev ∈ events (DeployUSDC chain rmnProxy r) ->
  ev ∈ events (deployPrerequisiteContracts DeployUSDC e state chain opts).
Proof.
  intros Hcs H1 H2 H3 H4 H5 H6 Hread Hmc Husdc Hev.
  unfold deployPrerequisiteContracts, log, chainStateOf. cbv zeta.
  rewrite Hcs. rewrite bool_decide_eq_true_2 by eauto.
  rewrite (bool_decide_eq_true_2 _ Husdc).
  change (default zeroChainState (Some cs)) with cs. cbv iota.
  rewrite H1, H2, H3, H4, H5, H6, Hmc.
  eapply events_bind_suffix; [reflexivity|]. cbv beta.
  eapply events_bind_suffix; [reflexivity|]. cbv beta.
  eapply events_bind_suffix; [reflexivity|]. cbv beta.
  rewrite Hread.
  eapply events_bind_suffix; [reflexivity|]. cbv beta.
  eapply events_bind_suffix; [reflexivity|]. cbv beta.
  eapply events_bind_suffix; [reflexivity|]. cbv beta.
  eapply events_bind_suffix; [reflexivity|]. cbv beta.
  eapply events_bind_suffix; [reflexivity|]. cbv beta.
  eapply events_bind_suffix; [reflexivity|]. cbv beta.
  by do 2 apply events_bind_prefix.
Qed.

(** An environment the state does not know gets its mock RMN deployed and
    saved first. *)
Lemma deployPrerequisiteContracts_fresh e state chain opts :
  healthy chain ->
  StateChains state !! Selector chain = None ->
  exists addr,
    DeployTx (Selector chain) (NewTypeAndVersion MockRMN Version1_0_0) []
      ∈ events (deployPrerequisiteContracts DeployUSDC e state chain opts) /\
    Save (Selector chain) addr (NewTypeAndVersion MockRMN Version1_0_0)
      ∈ events (deployPrerequisiteContracts DeployUSDC e state chain opts).
Proof.
  intros (Hd & _ & Hc & _) Hcs.
  unfold deployPrerequisiteContracts. cbv zeta. rewrite Hcs.
  rewrite bool_decide_eq_false_2 by (by intros [? ?]).
  specialize (Hd (NewTypeAndVersion MockRMN Version1_0_0) []).
  destruct (Deploys chain (NewTypeAndVersion MockRMN Version1_0_0) [])
    as [addr|] eqn:Hdep; [|done].
  exists addr.
  assert (Hev : events (DeployContract chain
                  (deployClosure (NewTypeAndVersion MockRMN Version1_0_0) []))
                = [DeployTx (Selector chain) (NewTypeAndVersion MockRMN Version1_0_0) [];
                   WaitConfirm (Selector chain)
                     (TxDeploy (NewTypeAndVersion MockRMN Version1_0_0) []);
                   Save (Selector chain) addr
                     (NewTypeAndVersion MockRMN Version1_0_0)]).
  { unfold DeployContract, deployClosure, chainConfirm. cbn [bind emit].
    rewrite Hdep. cbn. by rewrite Hc. }
  split; do 2 apply events_bind_prefix; apply events_on_error_do_prefix;
    rewrite Hev; repeat constructor.
Qed.

(** Whatever the state and however the run ends, [deployChainContracts]
    has saved the record of every deployment that went through. *)
Lemma deployChainContracts_persisted e chain rmnHome :
  emits (persisted chain)
    (deployChainContracts LoadOnchainState e chain rmnHome).
Proof.
  unfold deployChainContracts, ConfirmIfNoError, log.
  repeat first
    [ emits_step ltac:(idtac; first
        [ apply DeployContract_persisted | apply send_persisted
        | apply chainConfirm_persisted
        | apply persisted_singleton; reflexivity ])
    | apply DeployContract_persisted | apply send_persisted
    | apply chainConfirm_persisted ].
Qed.

(** Skip-if-exists for [deployChainContracts]. *)
Lemma deployChainContracts_skips_existing e chain rmnHome state cs :
  LoadOnchainState e = Ok state ->
  StateChains state !! Selector chain = Some cs ->
  chainContractsPresent cs ->
  emits (Forall quiet)
    (deployChainContracts LoadOnchainState e chain rmnHome).
Proof.
  intros Hload Hcs
    ([a1 H1] & [a2 H2] & [a3 H3] & [a4 H4] & [a5 H5] & [a6 H6] & [a7 H7] & [a8 H8]).
  unfold deployChainContracts, ConfirmIfNoError, log.
  rewrite Hload, bind_load, Hcs.
  rewrite H1, H2, H3, H4, H5, H6, H7, H8.
  emits_walk quiet_leaf.
Qed.

End ccip_deployers.

(** ** The fan-out *)

Section fanout.
Import CCIP CCIPSpec.

Lemma goroutines_foldl_Go {X} (f : X -> M Event unit) (l : list X) (g : Group) :
  goroutines (foldl (fun grp x => Go grp (f x)) g l) = goroutines g ++ (f <$> l).
Proof.
  revert g. induction l as [|x l IH]; intros g; simpl.
  - by rewrite app_nil_r.
  - rewrite IH. simpl. by rewrite <- app_assoc.
Qed.

Lemma omap_lookup_seq {X} (l : list X) (k : nat) (pre : list X) :
  length pre = k ->
  omap (fun i => (pre ++ l) !! i) (seq k (length l)) = l.
Proof.
  revert k pre. induction l as [|x l IH]; intros k pre Hk; [done|]. simpl.
  rewrite lookup_app_r by lia. replace (k - length pre) with 0 by lia. simpl.
  f_equal. specialize (IH (S k) (pre ++ [x])).
  rewrite <- app_assoc in IH. apply IH. rewrite length_app. simpl. lia.
Qed.

Lemma completionOrder_Permutation finished (tasks : list (M Event unit)) :
  finished ≡ₚ seq 0 (length tasks) ->
  completionOrder finished tasks ≡ₚ tasks.
Proof.
  intros Hperm. unfold completionOrder. rewrite Hperm.
  pose proof (omap_lookup_seq tasks 0 [] eq_refl) as Heq. simpl in Heq.
  by rewrite Heq.
Qed.

Lemma completionOrder_subset finished (tasks : list (M Event unit)) m :
  m ∈ completionOrder finished tasks -> m ∈ tasks.
Proof.
  unfold completionOrder. rewrite list_elem_of_omap.
  intros (i & _ & Hi). by eapply list_elem_of_lookup_2.
Qed.

Lemma firstError_spec (done : list (M Event unit)) :
  match firstError done with
  | Ok _ => Forall (fun m => result m = Ok tt) done
  | Err err =>
      exists pre m post,
        done = pre ++ m :: post /\
        Forall (fun m => result m = Ok tt) pre /\
        result m = Err err
  end.
Proof.
  unfold firstError.
  destruct (list_find _ done) as [[i m]|] eqn:Hfind.
  - apply list_find_Some in Hfind as (Hi & Hbad & Hbefore).
    destruct (result m) as [[]|err] eqn:Hres; [done|].
    exists (take i done), m, (drop (S i) done). split_and!.
    + by rewrite take_drop_middle.
    + apply Forall_forall. intros m' Hm'.
      apply list_elem_of_lookup in Hm' as [j Hj].
      assert (j < i) by (apply lookup_lt_Some in Hj; rewrite length_take in Hj; lia).
      rewrite lookup_take_lt in Hj by done.
      specialize (Hbefore j m' Hj H).
      destruct (result m') as [[]|]; done.
    + done.
  - apply list_find_None in Hfind.
    eapply Forall_impl; [exact Hfind|]. intros m Hm. simpl in Hm.
    destruct (result m) as [[]|]; done.
Qed.

Lemma Wait_events finished g ev :
  ev ∈ events (Wait finished g) <->
  exists m, m ∈ completionOrder finished (goroutines g) /\ ev ∈ events m.
Proof.
  unfold Wait, events at 1. simpl. fold (completionOrder finished (goroutines g)).
  rewrite list_elem_of_join. setoid_rewrite list_elem_of_fmap. naive_solver.
Qed.

(** What joining a group gives: every goroutine has run to completion, its
    events are there whatever the others returned; the result is nil
    exactly when every goroutine returned nil, and otherwise the error of
    the first goroutine, in the order of completion, that returned one. *)
Lemma Wait_joins_all finished g :
  finished ≡ₚ seq 0 (length (goroutines g)) ->
  (forall m ev, m ∈ goroutines g -> ev ∈ events m ->
                ev ∈ events (Wait finished g)) /\
  (result (Wait finished g) = Ok tt <->
   Forall (fun m => result m = Ok tt) (goroutines g)) /\
  (forall err, result (Wait finished g) = Err err ->
     exists pre m post,
       completionOrder finished (goroutines g) = pre ++ m :: post /\
       Forall (fun m => result m = Ok tt) pre /\
       result m = Err err).
Proof.
  intros Hperm. pose proof (completionOrder_Permutation _ _ Hperm) as Hdone.
  split_and!.
  - intros m ev Hm Hev. apply Wait_events. exists m. by rewrite Hdone.
  - unfold Wait, result. simpl. fold (completionOrder finished (goroutines g)).
    pose proof (firstError_spec (completionOrder finished (goroutines g))) as Hspec.
    split.
    + intros Hok. rewrite Hok in Hspec. by rewrite <- Hdone.
    + intros Hall. rewrite <- Hdone in Hall.
      destruct (firstError _) as [[]|err]; [done|].
      destruct Hspec as (pre & m & post & Heq & _ & Herr).
      rewrite Heq in Hall. apply Forall_app in Hall as [_ Hall].
      apply Forall_cons in Hall as [Hm _]. unfold result in *. simpl in Hm.
      congruence.
  - intros err Herr. unfold Wait, result in Herr. simpl in Herr.
    fold (completionOrder finished (goroutines g)) in Herr.
    pose proof (firstError_spec (completionOrder finished (goroutines g))) as Hspec.
    by rewrite Herr in Hspec.
Qed.

Lemma Wait_emits (P : Event -> Prop) finished g :
  Forall (fun m => Forall P (events m)) (goroutines g) ->
  Forall P (events (Wait finished g)).
Proof.
  intros Hall. apply Forall_forall. intros ev Hev.
  apply Wait_events in Hev as (m & Hm & Hev).
  apply completionOrder_subset in Hm.
  rewrite Forall_forall in Hall. specialize (Hall m Hm).
  rewrite Forall_forall in Hall. by apply Hall.
Qed.

Lemma Wait_succeeds finished g :
  Forall (fun m => result m = Ok tt) (goroutines g) ->
  result (Wait finished g) = Ok tt.
Proof.
  intros Hall. unfold Wait, result. simpl.
  fold (completionOrder finished (goroutines g)).
  pose proof (firstError_spec (completionOrder finished (goroutines g))) as Hspec.
  destruct (firstError _) as [[]|err]; [done|].
  destruct Hspec as (pre & m & post & Heq & _ & Herr).
  assert (Hm : m ∈ completionOrder finished (goroutines g))
    by (rewrite Heq; set_solver).
  apply completionOrder_subset in Hm.
  rewrite Forall_forall in Hall. specialize (Hall m Hm).
  unfold result in *. simpl in Hall. congruence.
Qed.

(** *** Address-book facts *)

Lemma hasRecords_abSave ab sel addr tv : hasRecords (abSave sel addr tv ab) sel.
Proof.
  exists (<[addr := tv]> (default ∅ (ab !! sel))), addr, tv.
  unfold abSave. by rewrite !lookup_insert_eq.
Qed.

Lemma hasRecords_abSave_mono ab sel sel' addr tv :
  hasRecords ab sel -> hasRecords (abSave sel' addr tv ab) sel.
Proof.
  intros (m & a & t & Hm & Ha).
  destruct (decide (sel' = sel)) as [->|Hne]; [apply hasRecords_abSave|].
  exists m, a, t. unfold abSave. by rewrite lookup_insert_ne.
Qed.

Lemma applySaves_mono evs ab sel :
  hasRecords ab sel -> hasRecords (applySaves evs ab) sel.
Proof.
  revert ab. induction evs as [|ev evs IH]; intros ab Hab; [done|].
  unfold applySaves in *. simpl. apply IH.
  destruct ev; try done. by apply hasRecords_abSave_mono.
Qed.

Lemma applySaves_hasRecords evs ab sel addr tv :
  Save sel addr tv ∈ evs -> hasRecords (applySaves evs ab) sel.
Proof.
  revert ab. induction evs as [|ev evs IH]; intros ab Hin.
  - by apply elem_of_nil in Hin.
  - apply elem_of_cons in Hin as [<-|Hin].
    + unfold applySaves. simpl. apply (applySaves_mono evs).
      apply hasRecords_abSave.
    + unfold applySaves in *. simpl. by apply IH.
Qed.

Lemma hasRecords_abMerge_l ab delta sel :
  hasRecords ab sel -> hasRecords (abMerge ab delta) sel.
Proof.
  intros (m & a & t & Hm & Ha). unfold abMerge, hasRecords.
  setoid_rewrite lookup_union_with. rewrite Hm.
  destruct (delta !! sel) as [m'|]; simpl.
  - exists (m ∪ m'), a, t. split; [done|]. by apply lookup_union_Some_l.
  - by exists m, a, t.
Qed.

Lemma hasRecords_abMerge_r ab delta sel :
  hasRecords delta sel -> hasRecords (abMerge ab delta) sel.
Proof.
  intros (m & a & t & Hm & Ha). unfold abMerge, hasRecords.
  setoid_rewrite lookup_union_with. rewrite Hm.
  destruct (ab !! sel) as [m'|]; simpl.
  - destruct (m' !! a) as [t'|] eqn:Hm'.
    + exists (m' ∪ m), a, t'. split; [done|]. by apply lookup_union_Some_l.
    + exists (m' ∪ m), a, t. split; [done|]. by rewrite lookup_union_r.
  - by exists m, a, t.
Qed.

End fanout.

Section ccip_fanout_claims.
Import CCIP CCIPSpec.

Variable LoadOnchainState : Environment -> Result CCIPOnChainState.
Variable DeployUSDC : Chain -> Address -> Address -> M Event USDCContracts.
Variable NewCCIPHome : Address -> Chain -> Result Address.
Variable CapabilityLabelledName : string.
Variable CapabilityVersion : string.
Variable CCIPCapabilityID : Hash.

Lemma Group_eq (g1 g2 : Group) : goroutines g1 = goroutines g2 -> g1 = g2.
Proof. destruct g1, g2. simpl. by intros ->. Qed.

Lemma deployPrerequisiteChainContracts_joins finished e selectors opts state :
  LoadOnchainState e = Ok state ->
  deployPrerequisiteChainContracts LoadOnchainState DeployUSDC finished e
    selectors opts
  = Wait finished {| goroutines := prerequisiteTask DeployUSDC e state opts <$> selectors |}.
Proof.
  intros Hload. unfold deployPrerequisiteChainContracts.
  rewrite Hload, bind_load. f_equal. apply Group_eq.
  by rewrite (goroutines_foldl_Go (prerequisiteTask DeployUSDC e state opts)).
Qed.

Lemma prerequisiteTask_result e state opts sel :
  succeeds (deployPrerequisiteContracts DeployUSDC e state (chainOf e sel) opts) ->
  result (prerequisiteTask DeployUSDC e state opts sel) = Ok tt.
Proof.
  intros Hok. apply succeeds_result. by apply succeeds_on_error_do.
Qed.

(** Skip-if-exists across the fan-out, stablecoin support of the deployed
    environment aside.  Two environments, [sel1] with every prerequisite in
    the loaded state (and in the address book) and [sel2] unknown to the
    state, both on chains where requests go through; [sel1] has no
    stablecoin support, and where [sel2] has it the stablecoin step goes
    through on [sel2]'s chain.  Whatever the order in which the two tasks
    finish, the fan-out returns no error, every deployment it makes is on
    [sel2] and there is one, and the address book, once the new records are
    merged in, has records for both.  The Multicall3 step is covered in all
    its forms: not asked for, with or without a record, or asked for and
    present in [sel1], absent in [sel2]. *)
Lemma prerequisite_fanout_deploys_only_missing
    finished e state sel1 sel2 chain1 chain2 cs1 opts :
  LoadOnchainState e = Ok state ->
  Chains e !! sel1 = Some chain1 -> Selector chain1 = sel1 ->
  Chains e !! sel2 = Some chain2 -> Selector chain2 = sel2 ->
  healthy chain1 -> healthy chain2 ->
  StateChains state !! sel1 = Some cs1 ->
  prerequisitesPresent opts cs1 ->
  StateChains state !! sel2 = None ->
  sel1 ∉ USDCEnabledChains (applyPrerequisiteOpts opts) ->
  (sel2 ∈ USDCEnabledChains (applyPrerequisiteOpts opts) ->
   forall rmnProxy r,
     succeeds (DeployUSDC chain2 rmnProxy r) /\
     Forall (localTo sel2) (events (DeployUSDC chain2 rmnProxy r))) ->
  hasRecords (ExistingAddresses e) sel1 ->
  finished ≡ₚ [0; 1] ->
  result (deployPrerequisiteChainContracts LoadOnchainState DeployUSDC
            finished e [sel1; sel2] opts) = Ok tt
  /\ Forall (fun ev => isDeploy ev = true -> eventChain ev = Some sel2)
       (events (deployPrerequisiteChainContracts LoadOnchainState DeployUSDC
                  finished e [sel1; sel2] opts))
  /\ Exists (fun ev => isDeploy ev = true /\ eventChain ev = Some sel2)
       (events (deployPrerequisiteChainContracts LoadOnchainState DeployUSDC
                  finished e [sel1; sel2] opts))
  /\ hasRecords
       (abMerge (ExistingAddresses e)
          (applySaves
             (events (deployPrerequisiteChainContracts LoadOnchainState
                        DeployUSDC finished e [sel1; sel2] opts)) ∅)) sel1
  /\ hasRecords
       (abMerge (ExistingAddresses e)
          (applySaves
             (events (deployPrerequisiteChainContracts LoadOnchainState
                        DeployUSDC finished e [sel1; sel2] opts)) ∅)) sel2.
Proof.
  intros Hload Hc1 Hs1 Hc2 Hs2 Hh1 Hh2 Hst1 Hpre Hst2 Hu1 Hu2 Hbook Hperm.
  rewrite (deployPrerequisiteChainContracts_joins _ _ _ _ _ Hload).
  set (g := {| goroutines := prerequisiteTask DeployUSDC e state opts <$> [sel1; sel2] |}).
  assert (Hch1 : chainOf e sel1 = chain1) by (unfold chainOf; by rewrite Hc1).
  assert (Hch2 : chainOf e sel2 = chain2) by (unfold chainOf; by rewrite Hc2).
  assert (Hfresh : exists addr,
             DeployTx sel2 (NewTypeAndVersion MockRMN Version1_0_0) []
               ∈ events (Wait finished g) /\
             Save sel2 addr (NewTypeAndVersion MockRMN Version1_0_0)
               ∈ events (Wait finished g)).
  { destruct (deployPrerequisiteContracts_fresh DeployUSDC e state chain2 opts Hh2)
      as (addr & Hd & Hs); [by rewrite Hs2|].
    rewrite Hs2 in Hd, Hs. exists addr.
    destruct (Wait_joins_all finished g) as (Hin & _); [done|].
    split; apply (Hin (prerequisiteTask DeployUSDC e state opts sel2));
      first [ by (simpl; repeat constructor)
            | unfold prerequisiteTask; rewrite Hch2;
              by apply events_on_error_do_prefix ]. }
  split_and!.
  - apply Wait_succeeds. simpl. repeat constructor.
    + apply prerequisiteTask_result. rewrite Hch1.
      apply deployPrerequisiteContracts_succeeds; [done|]. by rewrite Hs1.
    + apply prerequisiteTask_result. rewrite Hch2.
      apply deployPrerequisiteContracts_succeeds; [done|]. rewrite Hs2.
      intros Hin rmnProxy r. by apply Hu2.
  - apply Wait_emits. simpl. repeat constructor.
    + unfold prerequisiteTask. rewrite Hch1.
      eapply Forall_impl.
      * apply (emits_on_error_do (Forall quiet)); [by repeat constructor|].
        apply (deployPrerequisiteContracts_skips_existing _ _ _ _ _ cs1);
          by rewrite ?Hs1.
      * intros ev [Hq _] Hd. congruence.
    + unfold prerequisiteTask. rewrite Hch2.
      eapply Forall_impl.
      * apply (emits_on_error_do (Forall (localTo sel2)));
          [repeat constructor; by left|].
        rewrite <- Hs2 at 1.
        apply deployPrerequisiteContracts_local. rewrite Hs2.
        intros Hin rmnProxy r. by apply Hu2.
      * intros ev [Hnone|Hsome] Hd; [by destruct ev|done].
  - destruct Hfresh as (addr & Hd & _).
    apply Exists_exists. eexists. split; [exact Hd|done].
  - by apply hasRecords_abMerge_l.
  - destruct Hfresh as (addr & _ & Hs).
    apply hasRecords_abMerge_r. by eapply applySaves_hasRecords.
Qed.

End ccip_fanout_claims.

Section ccip_fanout_policy.
Import CCIP CCIPSpec.

Variable LoadOnchainState : Environment -> Result CCIPOnChainState.
Variable DeployUSDC : Chain -> Address -> Address -> M Event USDCContracts.
Variable NewCCIPHome : Address -> Chain -> Result Address.
Variable CapabilityLabelledName : string.
Variable CapabilityVersion : string.
Variable CCIPCapabilityID : Hash.

Lemma startChainContractTasks_valid e rmnHome state chains :
  Forall (targetChecksPass e state) chains ->
  forall g,
    startChainContractTasks LoadOnchainState e rmnHome state chains g
    = ({| goroutines :=
            goroutines g
            ++ (chainContractsTask LoadOnchainState e rmnHome <$> chains) |},
       None).
Proof.
  induction 1 as [|sel chains ([chain Hc] & [l Hl] & [w Hw]) _ IH]; intros g.
  - simpl. rewrite app_nil_r. by destruct g.
  - simpl. rewrite Hc, Hl, Hw. simpl. rewrite IH. simpl.
    rewrite <- app_assoc. simpl. unfold chainContractsTask, chainOf.
    by rewrite Hc.
Qed.

Lemma deployChainContractsForChains_joins finished e home chains state rmnHome :
  LoadOnchainState e = Ok state ->
  homeChecksPass NewCCIPHome CapabilityLabelledName CapabilityVersion
    CCIPCapabilityID e state home rmnHome ->
  Forall (targetChecksPass e state) chains ->
  unjoined (deployChainContractsForChains LoadOnchainState NewCCIPHome
              CapabilityLabelledName CapabilityVersion CCIPCapabilityID
              finished e home chains) = [] /\
  exists reads tail,
    returned (deployChainContractsForChains LoadOnchainState NewCCIPHome
                CapabilityLabelledName CapabilityVersion CCIPCapabilityID
                finished e home chains)
    = (result (Wait finished
                 {| goroutines :=
                      chainContractsTask LoadOnchainState e rmnHome <$> chains |}),
       reads
       ++ events (Wait finished
                    {| goroutines :=
                         chainContractsTask LoadOnchainState e rmnHome <$> chains |})
       ++ tail).
Proof.
  intros Hload (capReg & capability & ccipHome & Hreg & Hid & Hcap & Hnew
                & Hhome & Hrmn) Hvalid.
  unfold deployChainContractsForChains. cbn [returned unjoined].
  rewrite Hload, bind_load, Hreg, Hid, bind_read.
  rewrite bool_decide_eq_false_2 by (by intros []).
  rewrite Hcap, bind_read, Hnew, bind_load, Hhome.
  rewrite bool_decide_eq_false_2 by (by intros []).
  rewrite Hrmn.
  rewrite (startChainContractTasks_valid e rmnHome state chains Hvalid zeroGroup).
  change (goroutines zeroGroup ++ ?l) with l.
  split; [done|]. cbn [ret result events fst snd bind].
  set (W := Wait finished _). clearbody W.
  exists [Read home (CapabilityRegistryAddress capReg)
            (GetHashedCapabilityId CapabilityLabelledName CapabilityVersion);
          Read home (CapabilityRegistryAddress capReg)
            (GetCapability CCIPCapabilityID)].
  destruct W as [[[]|err] t].
  - exists []. simpl. by rewrite app_nil_r.
  - destruct err; [exists [Log Error "Failed to deploy chain contracts"]
                  |exists []
                  |exists [Log Error "Failed to deploy chain contracts"]];
      simpl; by rewrite ?app_nil_r.
Qed.

Lemma chainContractsTask_persisted e rmnHome sel :
  persisted (chainOf e sel)
    (events (chainContractsTask LoadOnchainState e rmnHome sel)).
Proof.
  apply (emits_on_error_do (persisted (chainOf e sel))).
  - by apply persisted_singleton.
  - apply deployChainContracts_persisted.
Qed.

Lemma prerequisiteTask_persisted e state opts sel :
  (forall chain rmnProxy r, persisted chain (events (DeployUSDC chain rmnProxy r))) ->
  persisted (chainOf e sel) (events (prerequisiteTask DeployUSDC e state opts sel)).
Proof.
  intros Husdc. apply (emits_on_error_do (persisted (chainOf e sel))).
  - by apply persisted_singleton.
  - apply deployPrerequisiteContracts_persisted. intros _. apply Husdc.
Qed.

(** The failure policy where no start loop is left early.  Once the state
    is loaded, [deployPrerequisiteChainContracts] follows the policy with
    one task per selector; so does [deployChainContractsForChains] once its
    checks on the home chain and on every target have passed, and it
    leaves no goroutine running.  In both, each task has saved the record
    of every deployment of its own that went through, also when the task,
    or the run, ends in an error (for the prerequisites, given that
    [DeployUSDC] does so for what it deploys). *)
Theorem fanout_policy_after_checks :
  (forall finished e selectors opts state,
     LoadOnchainState e = Ok state ->
     finished ≡ₚ seq 0 (length selectors) ->
     (forall chain rmnProxy r,
        persisted chain (events (DeployUSDC chain rmnProxy r))) ->
     fanOutPolicy (prerequisiteTask DeployUSDC e state opts <$> selectors)
       finished
       (deployPrerequisiteChainContracts LoadOnchainState DeployUSDC
          finished e selectors opts)
     /\ forall sel, sel ∈ selectors ->
          persisted (chainOf e sel)
            (events (prerequisiteTask DeployUSDC e state opts sel)))
  /\
  (forall finished e home chains state rmnHome,
     LoadOnchainState e = Ok state ->
     homeChecksPass NewCCIPHome CapabilityLabelledName CapabilityVersion
    CCIPCapabilityID e state home rmnHome ->
     Forall (targetChecksPass e state) chains ->
     finished ≡ₚ seq 0 (length chains) ->
     fanOutPolicy (chainContractsTask LoadOnchainState e rmnHome <$> chains)
       finished
       (returned (deployChainContractsForChains LoadOnchainState NewCCIPHome
                    CapabilityLabelledName CapabilityVersion CCIPCapabilityID
                    finished e home chains))
     /\ unjoined (deployChainContractsForChains LoadOnchainState NewCCIPHome
                    CapabilityLabelledName CapabilityVersion CCIPCapabilityID
                    finished e home chains) = []
     /\ forall sel, sel ∈ chains ->
          persisted (chainOf e sel)
            (events (chainContractsTask LoadOnchainState e rmnHome sel))).
Proof.
  split.
  - intros finished e selectors opts state Hload Hperm Husdc. split.
    + rewrite (deployPrerequisiteChainContracts_joins _ _ _ _ _ _ _ Hload).
      pose proof (Wait_joins_all finished
        {| goroutines := prerequisiteTask DeployUSDC e state opts <$> selectors |})
        as Hjoin.
      cbn [goroutines] in Hjoin. rewrite length_fmap in Hjoin.
      exact (Hjoin Hperm).
    + intros sel _. by apply prerequisiteTask_persisted.
  - intros finished e home chains state rmnHome Hload Hhome Hvalid Hperm.
    destruct (deployChainContractsForChains_joins finished e home chains state
                rmnHome Hload Hhome Hvalid) as (Hnone & reads & tail & ->).
    split; [|split; [exact Hnone|]].
    + pose proof (Wait_joins_all finished
        {| goroutines :=
             chainContractsTask LoadOnchainState e rmnHome <$> chains |})
        as Hjoin.
      cbn [goroutines] in Hjoin. rewrite length_fmap in Hjoin.
      destruct (Hjoin Hperm) as (Hin & Hok & Herr).
      split_and!.
      * intros m ev Hm Hev. unfold events at 1. simpl.
        apply elem_of_app. right. apply elem_of_app. left.
        by apply (Hin m).
      * exact Hok.
      * exact Herr.
    + intros sel _. apply chainContractsTask_persisted.
Qed.

End ccip_fanout_policy.

Section ccip_configure.
Import CCIP CCIPSpec.

Variable LoadOnchainState : Environment -> Result CCIPOnChainState.
Variable USDCCCTPHandlerType : string.
Variable OCRSecrets : Type.
Variable IsEmpty : OCRSecrets -> bool.
Variable TokenConfig : Type.
Variable TokenInfo : Type.
Variable GetTokenInfo : TokenConfig -> option Address -> option Address -> TokenInfo.
Variable NodeInfo : list string -> Result (list Node).
Variable AddChainConfig : Chain -> Address -> N -> list N -> M Event unit.
Variable AddDON :
  OCRSecrets -> CapabilityRegistryBinding -> Address -> Address -> Address ->
  N -> TokenInfo -> Chain -> Chain -> list Node ->
  list TokenDataObserverConfig -> M Event unit.

Lemma bind_assoc {E A B C} (m : M E A) (k : A -> M E B) (k' : B -> M E C) :
  bind (bind m k) k' = bind m (fun a => bind (k a) k').
Proof.
  destruct m as [[a|e] t]; simpl; [|done].
  destruct (k a) as [[b|e] t1]; simpl; [|done].
  destruct (k' b) as [r t2]. by rewrite app_assoc.
Qed.

Lemma bind_ext {E A B} (m : M E A) (k k' : A -> M E B) :
  (forall a, k a = k' a) -> bind m k = bind m k'.
Proof. intros H. destruct m as [[a|e] t]; simpl; [|done]. by rewrite H. Qed.

Abbreviation loop :=
  (configureChainLoop USDCCCTPHandlerType OCRSecrets TokenConfig TokenInfo
     GetTokenInfo AddChainConfig AddDON).

(** The loop over the targets, split at any point: the targets before it
    are configured first. *)
Lemma configureChainLoop_app e c nodes state capReg ccipHome rmnHome l1 l2 :
  loop e c nodes state capReg ccipHome rmnHome (l1 ++ l2)
  = bind (loop e c nodes state capReg ccipHome rmnHome l1)
      (fun _ => loop e c nodes state capReg ccipHome rmnHome l2).
Proof.
  induction l1 as [|sel l1 IH]; cbn [app configureChainLoop].
  - unfold ret. by rewrite bind_pure.
  - destruct (StateChains state !! Selector (chainOf e sel)) as [cs|]; [|done].
    destruct (StOffRamp cs) as [offRamp|]; [|done].
    rewrite bind_assoc. apply bind_ext. intros _.
    rewrite bind_assoc. apply bind_ext. intros _. apply IH.
Qed.

Abbreviation cfg :=
  (configureChain LoadOnchainState USDCCCTPHandlerType OCRSecrets IsEmpty
     TokenConfig TokenInfo GetTokenInfo NodeInfo AddChainConfig AddDON).

(** C7, as amended.  With OCR secrets and node information at hand and
    the state loaded, [configureChain] fails on the first required record
    it finds absent.  For a home-chain record (capability registry,
    CCIPHome, RMNHome) the error names the record and no environment, and
    only a log line has been emitted.  For a target, the state and the
    OffRamp are looked up under the selector of the chain that the
    environment holds for the target; when one of them is absent the error
    names the record and that selector, and the run has made exactly the
    calls that configured the targets listed before it (none when it is the
    first target); when one of those earlier targets fails first, that
    failure is what is returned. *)
Theorem configureChain_missing_record e c nodes state :
  IsEmpty (CfgOCRSecrets c) = false ->
  NodeInfo (NodeIDs e) = Ok nodes ->
  nodes <> [] ->
  LoadOnchainState e = Ok state ->
  match StCapabilityRegistry (chainStateOf state (HomeChainSel c)) with
  | None =>
      cfg e c = (Err (Errorf "capability registry not found" []),
                 [Log Error "Failed to get capability registry"])
  | Some capReg =>
  match StCCIPHome (chainStateOf state (HomeChainSel c)) with
  | None =>
      cfg e c = (Err (Errorf "ccip home not found" []),
                 [Log Error "Failed to get ccip home"])
  | Some ccipHome =>
  match StRMNHome (chainStateOf state (HomeChainSel c)) with
  | None =>
      cfg e c = (Err (Errorf "rmn home not found" []),
                 [Log Error "Failed to get rmn home"])
  | Some rmnHome =>
      forall before chainSel after,
        ChainsToDeploy c = before ++ chainSel :: after ->
        targetRecordMissing e state chainSel ->
        match loop e c nodes state capReg ccipHome rmnHome before with
        | (Err err, evs) => cfg e c = (Err err, evs)
        | (Ok _, evs) =>
            cfg e c
            = (Err (Errorf
                      match StateChains state !! Selector (chainOf e chainSel) with
                      | None => "chain state not found for chain %d"
                      | Some _ => "off ramp not found for chain %d"
                      end
                      [ArgUint (Selector (chainOf e chainSel))]),
               evs)
        end
  end end end.
Proof.
  intros Hsecrets Hnodes Hne Hload. unfold configureChain.
  rewrite Hsecrets, Hnodes.
  rewrite bool_decide_eq_false_2 by (by destruct nodes).
  rewrite Hload, bind_load.
  destruct (StCapabilityRegistry _) as [capReg|]; [|done].
  destruct (StCCIPHome _) as [ccipHome|]; [|done].
  destruct (StRMNHome _) as [rmnHome|]; [|done].
  intros before chainSel after -> Hmissing.
  rewrite configureChainLoop_app.
  destruct (loop e c nodes state capReg ccipHome rmnHome before)
    as [[[]|err] evs]; [|done].
  cbn [configureChainLoop]. unfold targetRecordMissing in Hmissing.
  destruct (StateChains state !! Selector (chainOf e chainSel)) as [cs|].
  - rewrite Hmissing. simpl. by rewrite app_nil_r.
  - simpl. by rewrite app_nil_r.
Qed.

End ccip_configure.

(** ** The properties at concrete inputs *)

Section ccip_concrete.
Import CCIP CCIPSpec CCIPSamples CCIPCases.

Lemma healthyChain_healthy sel base added : healthy (healthyChain sel base added).
Proof. by repeat split. Qed.

Lemma modelDeployUSDC_persisted chain rmnProxy r :
  persisted chain (events (modelDeployUSDC chain rmnProxy r)).
Proof.
  change (emits (persisted chain) (modelDeployUSDC chain rmnProxy r)).
  unfold modelDeployUSDC. emits_walk persisted_leaf.
Qed.

Lemma modelDeployUSDC_succeeds chain rmnProxy r :
  healthy chain -> succeeds (modelDeployUSDC chain rmnProxy r).
Proof.
  intros Hh. unfold modelDeployUSDC.
  repeat succeeds_step ltac:(succeeds_leaf Hh).
Qed.

Lemma modelDeployUSDC_local chain rmnProxy r :
  Forall (localTo (Selector chain)) (events (modelDeployUSDC chain rmnProxy r)).
Proof.
  change (emits (Forall (localTo (Selector chain)))
            (modelDeployUSDC chain rmnProxy r)).
  unfold modelDeployUSDC. emits_walk local_leaf.
Qed.

(** C2.  A chain whose state has every prerequisite contract and that is
    enabled for stablecoin support: the prerequisite deployer skips every
    guarded step and then deploys the four stablecoin contracts and saves
    four new records, as it does on every run; the step is not guarded by
    any look at the state. *)
Theorem deployPrerequisiteContracts_redeploys_USDC :
  prerequisitesPresent [WithUSDCChains [1%N]; WithMulticall3 true]
    prerequisitesDeployed /\
  result (deployPrerequisiteContracts modelDeployUSDC twoChainEnv twoChainState
            (healthyChain 1 200 true)
            [WithUSDCChains [1%N]; WithMulticall3 true]) = Ok tt /\
  filter (fun ev => isSave ev = true)
    (events (deployPrerequisiteContracts modelDeployUSDC twoChainEnv twoChainState
               (healthyChain 1 200 true)
               [WithUSDCChains [1%N]; WithMulticall3 true]))
  = [Save 1 296%N (NewTypeAndVersion USDCToken Version1_0_0);
     Save 1 300%N (NewTypeAndVersion USDCMockTransmitter Version1_0_0);
     Save 1 304%N (NewTypeAndVersion USDCTokenMessenger Version1_0_0);
     Save 1 308%N (NewTypeAndVersion USDCTokenPool Version1_0_0)].
Proof.
  split; [|split].
  - repeat split; eauto.
  - by vm_compute.
  - by vm_compute.
Qed.

(** The same chain without stablecoin support: nothing is deployed. *)
Example deployPrerequisiteContracts_second_run_is_quiet :
  filter (fun ev => isDeploy ev = true)
    (events (deployPrerequisiteContracts modelDeployUSDC twoChainEnv twoChainState
               (healthyChain 1 200 true) [WithMulticall3 true])) = [].
Proof. by vm_compute. Qed.

(** C6.  The two environments of the scenario, selector 1 with every
    prerequisite in the loaded state and in the address book, selector 2
    unknown to the state, on chains where every request goes through; the
    options enable stablecoin support for selector 1.  The fan-out returns
    no error, and it deploys into the deployed environment: there the
    stablecoin step, which no look at the state guards, puts four new
    contracts. *)
Theorem prerequisite_fanout_redeploys_USDC :
  prerequisitesPresent [WithUSDCChains [1%N]] prerequisitesDeployed /\
  StateChains twoChainState !! 1%N = Some prerequisitesDeployed /\
  StateChains twoChainState !! 2%N = None /\
  result (deployPrerequisiteChainContracts loadTwoChainState modelDeployUSDC
            [0; 1] twoChainEnv [1%N; 2%N] [WithUSDCChains [1%N]]) = Ok tt /\
  filter (fun ev => isDeploy ev = true /\ eventChain ev = Some 1%N)
    (events (deployPrerequisiteChainContracts loadTwoChainState modelDeployUSDC
               [0; 1] twoChainEnv [1%N; 2%N] [WithUSDCChains [1%N]]))
  = [DeployTx 1 (NewTypeAndVersion USDCToken Version1_0_0) [];
     DeployTx 1 (NewTypeAndVersion USDCMockTransmitter Version1_0_0) [];
     DeployTx 1 (NewTypeAndVersion USDCTokenMessenger Version1_0_0) [300%N];
     DeployTx 1 (NewTypeAndVersion USDCTokenPool Version1_0_0)
       [304%N; 296%N; 104%N; 106%N]] /\
  ~ Forall (fun ev => isDeploy ev = true -> eventChain ev = Some 2%N)
      (events (deployPrerequisiteChainContracts loadTwoChainState modelDeployUSDC
                 [0; 1] twoChainEnv [1%N; 2%N] [WithUSDCChains [1%N]])).
Proof.
  split_and!.
  - repeat split; eauto.
  - by vm_compute.
  - by vm_compute.
  - by vm_compute.
  - by vm_compute.
  - intros Hall. rewrite Forall_forall in Hall.
    specialize (Hall (DeployTx 1 (NewTypeAndVersion USDCToken Version1_0_0) [])).
    discriminate Hall; [|reflexivity].
    vm_compute. repeat constructor.
Qed.

Lemma prerequisite_fanout_deploys_only_missing_witness :
  result (deployPrerequisiteChainContracts loadTwoChainState modelDeployUSDC
            [1; 0] twoChainEnv [1%N; 2%N] [WithMulticall3 true; WithUSDCChains [2%N]]) = Ok tt
  /\ Forall (fun ev => isDeploy ev = true -> eventChain ev = Some 2%N)
       (events (deployPrerequisiteChainContracts loadTwoChainState modelDeployUSDC
                  [1; 0] twoChainEnv [1%N; 2%N] [WithMulticall3 true; WithUSDCChains [2%N]]))
  /\ hasRecords
       (abMerge (ExistingAddresses twoChainEnv)
          (applySaves
             (events (deployPrerequisiteChainContracts loadTwoChainState
                        modelDeployUSDC [1; 0] twoChainEnv [1%N; 2%N]
                        [WithMulticall3 true; WithUSDCChains [2%N]])) ∅)) 1%N
  /\ hasRecords
       (abMerge (ExistingAddresses twoChainEnv)
          (applySaves
             (events (deployPrerequisiteChainContracts loadTwoChainState
                        modelDeployUSDC [1; 0] twoChainEnv [1%N; 2%N]
                        [WithMulticall3 true; WithUSDCChains [2%N]])) ∅)) 2%N.
Proof.
  destruct (prerequisite_fanout_deploys_only_missing loadTwoChainState
              modelDeployUSDC [1; 0] twoChainEnv twoChainState 1%N 2%N
              (healthyChain 1 200 true) (healthyChain 2 300 false)
              prerequisitesDeployed [WithMulticall3 true; WithUSDCChains [2%N]])
    as (Hres & Hdep & _ & Hb1 & Hb2).
  - reflexivity.
  - by vm_compute.
  - reflexivity.
  - by vm_compute.
  - reflexivity.
  - apply healthyChain_healthy.
  - apply healthyChain_healthy.
  - by vm_compute.
  - repeat split; eauto.
  - by vm_compute.
  - vm_compute. intros Hin. apply list_elem_of_singleton in Hin. discriminate Hin.
  - intros _ rmnProxy r. split.
    + apply modelDeployUSDC_succeeds, healthyChain_healthy.
    + apply (modelDeployUSDC_local (healthyChain 2 300 false)).
  - eexists _, 105%N, _. split; by vm_compute.
  - apply perm_swap.
  - by split_and!.
Defined.

(** C8.  [deployChainContractsForChains] with targets 2 and 3, of which 3
    has no fee tokens in the loaded state: the call starts the task of
    target 2 and then returns the error of the check on target 3 from
    inside its start loop, having made two reads and nothing else.  It has
    not waited for the task of target 2, which is left running and deploys
    its contracts after the return; what that task returns is read by
    nobody.  The failure policy does not hold of the call. *)
Theorem fanout_returns_before_join :
  returned (sampleDeployChainContractsForChains [0; 1] [2%N; 3%N])
  = (Err (Errorf "fee tokens not found for chain %d" [ArgUint 3%N]),
     [Read 1 151%N (GetHashedCapabilityId "ccip" "v1.0.0");
      Read 1 151%N (GetCapability 51966%N)]) /\
  unjoined (sampleDeployChainContractsForChains [0; 1] [2%N; 3%N])
  = [chainContractsTask loadThreeChainState threeChainEnv sampleRMNHome 2%N] /\
  DeployTx 2 (NewTypeAndVersion OffRamp Version1_6_0_dev)
    [319%N; 343%N; 108%N; 347%N]
    ∈ events (chainContractsTask loadThreeChainState threeChainEnv
                sampleRMNHome 2%N) /\
  ~ fanOutPolicy
      (chainContractsTask loadThreeChainState threeChainEnv sampleRMNHome
         <$> [2%N; 3%N])
      [0; 1]
      (returned (sampleDeployChainContractsForChains [0; 1] [2%N; 3%N])).
Proof.
  assert (Hev : DeployTx 2 (NewTypeAndVersion OffRamp Version1_6_0_dev)
                  [319%N; 343%N; 108%N; 347%N]
                ∈ events (chainContractsTask loadThreeChainState threeChainEnv
                            sampleRMNHome 2%N)).
  { vm_compute. repeat constructor. }
  split_and!; [by vm_compute|by vm_compute|exact Hev|].
  intros (Hin & _).
  specialize (Hin _ _ ltac:(by left) Hev).
  vm_compute in Hin.
  repeat (apply elem_of_cons in Hin as [Hin|Hin]; [discriminate Hin|]).
  by apply elem_of_nil in Hin.
Qed.

Lemma fanout_policy_after_checks_witness :
  fanOutPolicy
    (prerequisiteTask modelDeployUSDC twoChainEnv twoChainState
       [WithUSDCChains [2%N]] <$> [1%N; 2%N])
    [1; 0]
    (deployPrerequisiteChainContracts loadTwoChainState modelDeployUSDC
       [1; 0] twoChainEnv [1%N; 2%N] [WithUSDCChains [2%N]])
  /\
  fanOutPolicy
    (chainContractsTask loadThreeChainState faultyEnv sampleRMNHome
       <$> [1%N; 2%N])
    [1; 0]
    (returned (deployChainContractsForChains loadThreeChainState
                 sampleNewCCIPHome "ccip" "v1.0.0" sampleCapabilityID
                 [1; 0] faultyEnv 1%N [1%N; 2%N]))
  /\
  unjoined (deployChainContractsForChains loadThreeChainState
              sampleNewCCIPHome "ccip" "v1.0.0" sampleCapabilityID
              [1; 0] faultyEnv 1%N [1%N; 2%N]) = [].
Proof.
  destruct (fanout_policy_after_checks loadThreeChainState modelDeployUSDC
              sampleNewCCIPHome "ccip" "v1.0.0" sampleCapabilityID)
    as [_ Hchains].
  destruct (fanout_policy_after_checks loadTwoChainState modelDeployUSDC
              sampleNewCCIPHome "ccip" "v1.0.0" sampleCapabilityID)
    as [Hprereq _].
  split.
  - apply (Hprereq [1; 0] twoChainEnv [1%N; 2%N] [WithUSDCChains [2%N]]
             twoChainState).
    + reflexivity.
    + apply perm_swap.
    + apply modelDeployUSDC_persisted.
  - destruct (Hchains [1; 0] faultyEnv 1%N [1%N; 2%N] threeChainState
                sampleRMNHome) as (Hpolicy & Hnone & _).
    + reflexivity.
    + exists sampleCapReg, {| ConfigurationContract := 152%N |}, 152%N.
      by split_and!.
    + apply Forall_cons_2; [|apply Forall_cons_2; [|apply Forall_nil_2]];
        unfold targetChecksPass; split_and!; vm_compute; eauto.
    + apply perm_swap.
    + by split.
Defined.

(** C7, as stated, fails in three ways.  With home chain 1 and targets 1
    and 2, of which 2 has no OffRamp in the state, [configureChain] has
    already configured target 1, by mutating calls, when it returns the
    error about target 2.  With home chain 2, which has no capability
    registry in the state, the error it returns names no environment.  With
    target 4, for which the environment has no chain, the error names
    chain 0, which is neither the home chain nor a target. *)
Lemma configureChain_wires_before_failing :
  ~ failsFast threeChainEnv threeChainState 1%N [1%N; 2%N]
      (sampleConfigureChain 1%N [1%N; 2%N]) /\
  ~ failsFast threeChainEnv threeChainState 2%N [1%N]
      (sampleConfigureChain 2%N [1%N]) /\
  ~ failsFast threeChainEnv threeChainState 1%N [4%N]
      (sampleConfigureChain 1%N [4%N]).
Proof.
  split_and!.
  - intros Hclaim. destruct Hclaim as [_ Hall].
    + exists 2%N. right. split; [by right; left|]. by vm_compute.
    + vm_compute in Hall. apply Forall_cons in Hall as [Hbad _].
      discriminate Hbad.
  - intros Hclaim. destruct Hclaim as [(err & sel & Hres & _ & Hnames) _].
    + exists 2%N. left. split; [done|]. left. by vm_compute.
    + vm_compute in Hres. injection Hres as <-. simpl in Hnames.
      by apply elem_of_nil in Hnames.
  - intros Hclaim. destruct Hclaim as [(err & sel & Hres & Hmissing & Hnames) _].
    + exists 4%N. right. split; [by left|]. by vm_compute.
    + vm_compute in Hres. injection Hres as <-. simpl in Hnames.
      apply list_elem_of_singleton in Hnames. injection Hnames as ->.
      destruct Hmissing as [[[=] _]|[Hin _]].
      apply list_elem_of_singleton in Hin. discriminate Hin.
Qed.

Lemma configureChain_missing_record_witness :
  sampleConfigureChain 1%N [2%N; 1%N]
  = (Err (Errorf "off ramp not found for chain %d" [ArgUint 2%N]), []).
Proof.
  pose proof (configureChain_missing_record loadThreeChainState "usdc-cctp"
                unit (fun _ => false) unit unit (fun _ _ _ => tt) sampleNodeInfo
                modelAddChainConfig modelAddDON threeChainEnv
                {| HomeChainSel := 1%N; FeedChainSel := 1%N;
                   ChainsToDeploy := [2%N; 1%N]; CfgTokenConfig := tt;
                   CfgOCRSecrets := tt; CfgUSDCConfig := sampleUSDCConfig |}
                _ threeChainState eq_refl eq_refl) as H.
  specialize (H ltac:(done) eq_refl).
  change (StCapabilityRegistry _) with (Some sampleCapReg) in H.
  change (StCCIPHome _) with (Some 152%N) in H.
  change (StRMNHome _) with (Some sampleRMNHome) in H.
  cbv iota in H.
  exact (H [] 2%N [1%N] eq_refl ltac:(by vm_compute)).
Defined.

End ccip_concrete.

(** ** Batch atomicity *)

Section changeset_proofs.
Import Keystone KeystoneSpec Changeset.

Variable DecodeErr : error -> error.

Lemma submitBatched_identifiers sel op batches :
  ChainIdentifier <$> submitBatched sel op batches
  = if decide (sel ∈ ChainIdentifier <$> batches)
    then ChainIdentifier <$> batches
    else (ChainIdentifier <$> batches) ++ [sel].
Proof.
  induction batches as [|b rest IH]; cbn [submitBatched fmap list_fmap].
  - destruct (decide (sel ∈ [])) as [Hin|_]; [by apply elem_of_nil in Hin|done].
  - destruct (decide (ChainIdentifier b = sel)) as [<-|Hne];
      cbn [fmap list_fmap ChainIdentifier].
    + rewrite decide_True; [done|]. by left.
    + change (list_fmap _ _ ChainIdentifier ?l) with (ChainIdentifier <$> l).
      rewrite IH.
      destruct (decide (sel ∈ ChainIdentifier <$> rest)) as [Hin|Hnin].
      * rewrite decide_True; [done|]. by right.
      * rewrite decide_False; [done|].
        intros Hin. apply elem_of_cons in Hin as [->|Hin]; done.
Qed.

Lemma submitBatched_NoDup sel op batches :
  NoDup (ChainIdentifier <$> batches) ->
  NoDup (ChainIdentifier <$> submitBatched sel op batches).
Proof.
  intros Hnd. rewrite submitBatched_identifiers.
  destruct (decide (sel ∈ ChainIdentifier <$> batches)) as [Hin|Hnin]; [done|].
  apply NoDup_app. split_and!; [done| |apply NoDup_singleton].
  intros x Hx Hx'. apply list_elem_of_singleton in Hx'. by subst.
Qed.

Lemma filter_none {X} (P : X -> Prop) `{!forall x, Decision (P x)} (l : list X) :
  (forall x, x ∈ l -> ~ P x) -> filter P l = [].
Proof.
  induction l as [|x l IH]; intros Hnone; [done|].
  rewrite filter_cons_False by (apply Hnone; by left).
  apply IH. intros y Hy. apply Hnone. by right.
Qed.

Lemma batchedFor_cons sel b batches :
  batchedFor sel (b :: batches)
  = (if decide (ChainIdentifier b = sel) then Batch b else [])
    ++ batchedFor sel batches.
Proof.
  unfold batchedFor. rewrite filter_cons.
  by destruct (decide (ChainIdentifier b = sel)).
Qed.

Lemma batchedFor_absent sel batches :
  sel ∉ ChainIdentifier <$> batches -> batchedFor sel batches = [].
Proof.
  intros Hnin. unfold batchedFor. rewrite filter_none; [done|].
  intros x Hx Hx'. apply Hnin. rewrite <- Hx'. by apply list_elem_of_fmap_2.
Qed.

Lemma submitBatched_batchedFor sel op batches sel' :
  NoDup (ChainIdentifier <$> batches) ->
  batchedFor sel' (submitBatched sel op batches)
  = batchedFor sel' batches ++ (if decide (sel = sel') then [op] else []).
Proof.
  induction batches as [|b rest IH]; intros Hnd; cbn [submitBatched].
  - rewrite batchedFor_cons. cbn [ChainIdentifier Batch].
    by destruct (decide (sel = sel')).
  - rewrite fmap_cons in Hnd. apply NoDup_cons in Hnd as [Hb Hnd].
    destruct (decide (ChainIdentifier b = sel)) as [Hsel|Hne].
    + rewrite !batchedFor_cons. cbn [ChainIdentifier Batch]. subst sel.
      destruct (decide (ChainIdentifier b = sel')) as [Heq|Hne'].
      * rewrite batchedFor_absent by (by rewrite <- Heq).
        by rewrite !app_nil_r.
      * by rewrite app_nil_r.
    + rewrite !batchedFor_cons, IH by done. by rewrite app_assoc.
Qed.

(** However many operations a request routes in batched mode, and for
    whichever environments: no two batches share an environment, and the
    batch of an environment holds exactly the operations submitted for it,
    in call order. *)
Lemma routeBatched_one_batch_per_environment submissions :
  NoDup (ChainIdentifier <$> routeBatched submissions []) /\
  forall sel,
    batchedFor sel (routeBatched submissions []) = operationsFor sel submissions.
Proof.
  assert (Hgen : forall batches,
    NoDup (ChainIdentifier <$> batches) ->
    NoDup (ChainIdentifier <$> routeBatched submissions batches) /\
    forall sel, batchedFor sel (routeBatched submissions batches)
                = batchedFor sel batches ++ operationsFor sel submissions).
  { induction submissions as [|[s op] subs IH]; intros batches Hnd.
    - split; [done|]. intros sel. unfold operationsFor. simpl.
      by rewrite app_nil_r.
    - unfold routeBatched in *. simpl.
      destruct (IH (submitBatched s op batches)) as [Hnd' Hops];
        [by apply submitBatched_NoDup|].
      split; [done|]. intros sel. rewrite Hops.
      rewrite submitBatched_batchedFor by done.
      rewrite <- app_assoc. f_equal. unfold operationsFor.
      rewrite filter_cons. simpl.
      destruct (decide (s = sel)); done. }
  destruct (Hgen [] (NoDup_nil_2)) as [Hnd Hops]. split; [done|].
  intros sel. by rewrite Hops.
Qed.

(** C5.  Batched mode, a request with capabilities to add, registry calls
    succeeding: the request yields exactly one proposal with exactly one
    transaction, for the registry chain's selector, whose batch holds the
    two operations, "add capabilities" then "update nodes".  And whatever a
    request routes through the batched Change Router, one environment's
    operations are never split across two batches. *)
Theorem AppendNodeCapabilities_one_batch req existing tx :
  UseMCMS req = true ->
  mjoin (snd <$> P2pToCapabilities req) <> [] ->
  GetCapabilities (ContractSetCapabilitiesRegistry (RegistryContracts req))
  = Ok existing ->
  hashesSucceed (ContractSetCapabilitiesRegistry (RegistryContracts req))
    (mjoin (snd <$> P2pToCapabilities req)) ->
  RegistryAddCapabilities (ContractSetCapabilitiesRegistry (RegistryContracts req))
    SimTransactOpts
    (survivors sameCapabilityID
       (ContractSetCapabilitiesRegistry (RegistryContracts req)) existing []
       (mjoin (snd <$> P2pToCapabilities req))) = Ok tx ->
  result (AppendNodeCapabilities DecodeErr req)
  = Ok {| Proposals :=
            [ {| Transactions :=
                   [ {| ChainIdentifier := Selector (RegistryChain req);
                        Batch :=
                          [ {| To := RegistryAddress
                                       (ContractSetCapabilitiesRegistry
                                          (RegistryContracts req));
                               Data := TxData tx; Value := 0%Z |};
                            {| To := RegistryAddress
                                       (ContractSetCapabilitiesRegistry
                                          (RegistryContracts req));
                               Data := UpdateNodesCall req; Value := 0%Z |} ] |} ] |} ] |}
  /\ forall submissions,
       NoDup (ChainIdentifier <$> routeBatched submissions []) /\
       forall sel,
         batchedFor sel (routeBatched submissions [])
         = operationsFor sel submissions.
Proof.
  intros Hmcms Hne Hget Hhash Htx. split; [|apply routeBatched_one_batch_per_environment].
  unfold AppendNodeCapabilities. rewrite Hmcms.
  rewrite (AddCapabilities_batched_run DecodeErr (RegistryContracts req)
             (RegistryChain req) _ existing tx Hne Hget Hhash Htx).
  cbn [bind ret result fst submitBatched ChainIdentifier Batch].
  by rewrite decide_True.
Qed.

End changeset_proofs.

Section changeset_witness.
Import Keystone KeystoneSpec KeystoneSamples Changeset.

Lemma AppendNodeCapabilities_one_batch_witness :
  result (AppendNodeCapabilities sampleDecodeErr
            {| RegistryChain := sampleChain;
               RegistryContracts := sampleContractSet [];
               P2pToCapabilities := [(1%N, [capA; capB]); (2%N, [capA; capB])];
               UseMCMS := true;
               UpdateNodesCall := [x03] |})
  = Ok {| Proposals :=
            [ {| Transactions :=
                   [ {| ChainIdentifier := 909606746561742123%N;
                        Batch := [ {| To := 4096%N; Data := [x01; x02]; Value := 0%Z |};
                                   {| To := 4096%N; Data := [x03]; Value := 0%Z |} ] |} ] |} ] |}.
Proof.
  destruct (AppendNodeCapabilities_one_batch sampleDecodeErr
              {| RegistryChain := sampleChain;
                 RegistryContracts := sampleContractSet [];
                 P2pToCapabilities := [(1%N, [capA; capB]); (2%N, [capA; capB])];
                 UseMCMS := true;
                 UpdateNodesCall := [x03] |} [] (sampleTx [capA; capB]))
    as [Hres _].
  - reflexivity.
  - done.
  - reflexivity.
  - repeat constructor.
  - by vm_compute.
  - exact Hres.
Defined.

End changeset_witness.

(** * Further properties *)

(** ** The capability deduplicator *)

Section keystone_dedup.
Import Keystone KeystoneSpec KeystoneNotions KeystoneSamples.

Implicit Types registry : CapabilitiesRegistry.
Implicit Types existing : list CapabilitiesRegistryCapabilityInfo.
Implicit Types caps out earlier : list CapabilitiesRegistryCapability.

(** The loop returns only when every hash read went through. *)
Lemma dedupLoop_ok_hashes registry existingByID caps :
  forall seen out r,
    result (dedupLoop registry existingByID caps seen out) = Ok r ->
    hashesSucceed registry caps.
Proof.
  induction caps as [|c rest IH]; intros seen out r Hok; [constructor|].
  cbn [dedupLoop] in Hok. unfold callGetHashedCapabilityId in Hok.
  destruct (GetHashedCapabilityId registry (LabelledName c) (Version c))
    as [h|e] eqn:Hh; [|by destruct e].
  cbn [bind emit lift on_error] in Hok.
  constructor; [by rewrite Hh|].
  destruct (decide (CapabilityID c ∈ seen));
    [|destruct (decide (h ∈ existingByID))];
    match type of Hok with
    | context [dedupLoop _ _ _ ?s ?o] =>
        destruct (dedupLoop registry existingByID rest s o) as [[r'|e'] t'] eqn:Hrest;
        [eapply (IH s o r'); by rewrite Hrest | done]
    end.
Qed.

(** A successful run read the registered capabilities and the hash of every
    requested descriptor, and returned the survivors up to the rendered
    identifier. *)
Lemma dedupCapabilities_ok_inv registry caps out :
  result (dedupCapabilities registry caps) = Ok out ->
  exists existing,
    GetCapabilities registry = Ok existing /\
    hashesSucceed registry caps /\
    out = survivors sameCapabilityID registry existing [] caps.
Proof.
  intros Hok.
  destruct (GetCapabilities registry) as [existing|e] eqn:Hget.
  - assert (Hhash : hashesSucceed registry caps).
    { unfold dedupCapabilities, callGetCapabilities in Hok. rewrite Hget in Hok.
      cbn [bind emit lift on_error] in Hok.
      match type of Hok with
      | context [dedupLoop _ ?ex _ ?s ?o] =>
          destruct (dedupLoop registry ex caps s o) as [[r'|e'] t'] eqn:Hrest;
          [eapply (dedupLoop_ok_hashes registry ex caps s o r'); by rewrite Hrest
          |done]
      end. }
    exists existing. split_and!; [done..|].
    rewrite (dedupCapabilities_by_id registry existing caps Hget Hhash) in Hok.
    simpl in Hok. congruence.
  - unfold dedupCapabilities, callGetCapabilities in Hok. rewrite Hget in Hok.
    by destruct e.
Qed.

Lemma survivors_sublist (same : relation CapabilitiesRegistryCapability)
    `{!RelDecision same} registry existing caps :
  forall earlier, survivors same registry existing earlier caps `sublist_of` caps.
Proof.
  induction caps as [|c rest IH]; intros earlier; simpl; [done|].
  destruct (_ || _).
  - by apply sublist_cons.
  - by apply sublist_skip.
Qed.

Lemma survivors_unregistered (same : relation CapabilitiesRegistryCapability)
    `{!RelDecision same} registry existing caps :
  forall earlier c,
    c ∈ survivors same registry existing earlier caps ->
    alreadyRegistered registry existing c = false.
Proof.
  induction caps as [|c' rest IH]; intros earlier c Hin; simpl in Hin.
  - by apply elem_of_nil in Hin.
  - destruct (bool_decide _) eqn:Hdup; simpl in Hin; [by eapply IH|].
    destruct (alreadyRegistered registry existing c') eqn:Hreg; [by eapply IH|].
    apply elem_of_cons in Hin as [->|Hin]; [done|by eapply IH].
Qed.

Lemma survivors_fresh_ids registry existing caps :
  forall earlier c,
    c ∈ survivors sameCapabilityID registry existing earlier caps ->
    CapabilityID c ∉ CapabilityID <$> earlier.
Proof.
  induction caps as [|c' rest IH]; intros earlier c Hin; simpl in Hin.
  - by apply elem_of_nil in Hin.
  - assert (Hrest : c ∈ survivors sameCapabilityID registry existing
                          (earlier ++ [c']) rest ->
                    CapabilityID c ∉ CapabilityID <$> earlier).
    { intros H. apply IH in H. rewrite fmap_app in H. set_solver. }
    destruct (bool_decide (Exists (sameCapabilityID c') earlier)) eqn:Hdup;
      simpl in Hin; [by apply Hrest|].
    destruct (alreadyRegistered registry existing c'); [by apply Hrest|].
    apply elem_of_cons in Hin as [->|Hin]; [|by apply Hrest].
    apply bool_decide_eq_false_1 in Hdup. intros Hid. apply Hdup.
    apply list_elem_of_fmap in Hid as (x & Hx & Hin).
    apply Exists_exists. by exists x.
Qed.

Lemma survivors_NoDup registry existing caps :
  forall earlier,
    NoDup (CapabilityID <$> survivors sameCapabilityID registry existing earlier caps).
Proof.
  induction caps as [|c rest IH]; intros earlier; simpl; [constructor|].
  destruct (_ || _); [apply IH|]. rewrite fmap_cons. constructor; [|apply IH].
  intros Hin. apply list_elem_of_fmap in Hin as (x & Hx & Hin).
  apply survivors_fresh_ids in Hin. apply Hin. rewrite fmap_app, <- Hx. set_solver.
Qed.

(** Every descriptor of the request is accounted for. *)
Lemma survivors_complete registry existing caps :
  forall earlier pre c post,
    caps = pre ++ c :: post ->
    c ∈ survivors sameCapabilityID registry existing earlier caps \/
    alreadyRegistered registry existing c = true \/
    CapabilityID c ∈ CapabilityID <$> (earlier ++ pre).
Proof.
  induction caps as [|c' rest IH]; intros earlier pre c post Heq.
  - by destruct pre.
  - destruct pre as [|p pre]; simplify_eq/=.
    + rewrite app_nil_r.
      destruct (bool_decide (Exists (sameCapabilityID c) earlier)) eqn:Hdup; simpl.
      * right; right. apply bool_decide_eq_true_1, Exists_exists in Hdup
          as (x & Hx & Hsame).
        apply list_elem_of_fmap. by exists x.
      * destruct (alreadyRegistered registry existing c); [by right; left|].
        left. by left.
    + destruct (IH (earlier ++ [p]) pre c post eq_refl) as [Hin|[Hreg|Hid]].
      * left. destruct (_ || _); [done|by right].
      * by right; left.
      * right; right. by rewrite <- app_assoc in Hid.
Qed.

(** A request none of whose descriptors is registered or shares its
    identifier with another comes back unchanged. *)
Lemma survivors_fixed registry existing caps :
  forall earlier,
    Forall (fun c => alreadyRegistered registry existing c = false) caps ->
    NoDup (CapabilityID <$> (earlier ++ caps)) ->
    survivors sameCapabilityID registry existing earlier caps = caps.
Proof.
  induction caps as [|c rest IH]; intros earlier Hreg Hnd; [done|]. simpl.
  apply Forall_cons in Hreg as [Hc Hrest].
  rewrite Hc, orb_false_r.
  rewrite bool_decide_eq_false_2.
  - f_equal. apply IH; [done|]. by rewrite <- app_assoc.
  - intros Hex. apply Exists_exists in Hex as (x & Hx & Hsame).
    rewrite fmap_app, fmap_cons in Hnd. apply NoDup_app in Hnd as (_ & Hdisj & _).
    apply (Hdisj (CapabilityID c)); [|by left].
    apply list_elem_of_fmap. by exists x.
Qed.

(** X1.  Whatever [dedupCapabilities] returns is a selection from the
    request: the descriptors it returns are descriptors of the request, in
    the order of the request, none invented and none repeated more often
    than requested. *)
Theorem dedupCapabilities_selects_from_request registry caps out :
  result (dedupCapabilities registry caps) = Ok out ->
  out `sublist_of` caps.
Proof.
  intros Hok.
  apply dedupCapabilities_ok_inv in Hok as (existing & _ & _ & ->).
  apply survivors_sublist.
Qed.

Lemma dedupCapabilities_selects_from_request_witness :
  [capB] `sublist_of` [capA; capB; capA].
Proof.
  apply (dedupCapabilities_selects_from_request (sampleRegistry [capA])).
  vm_compute. reflexivity.
Defined.

(** X2.  No descriptor that [dedupCapabilities] returns is registered: the
    registry derives a hash for it, and that hash is not the [HashedId] of
    any capability that [GetCapabilities] returned. *)
Theorem dedupCapabilities_returns_unregistered registry existing caps out c :
  GetCapabilities registry = Ok existing ->
  result (dedupCapabilities registry caps) = Ok out ->
  c ∈ out ->
  exists h,
    GetHashedCapabilityId registry (LabelledName c) (Version c) = Ok h /\
    h ∉ HashedId <$> existing.
Proof.
  intros Hget Hok Hin.
  apply dedupCapabilities_ok_inv in Hok as (existing' & Hget' & Hhash & ->).
  assert (existing' = existing) as -> by congruence.
  pose proof (survivors_unregistered _ _ _ _ _ _ Hin) as Hreg.
  assert (Hc : c ∈ caps).
  { eapply elem_of_sublist; [exact Hin|apply survivors_sublist]. }
  unfold hashesSucceed in Hhash. rewrite Forall_forall in Hhash.
  specialize (Hhash c Hc). unfold alreadyRegistered in Hreg.
  destruct (GetHashedCapabilityId registry (LabelledName c) (Version c))
    as [h|]; [|done].
  exists h. split; [done|]. by apply bool_decide_eq_false_1 in Hreg.
Qed.

Lemma dedupCapabilities_returns_unregistered_witness :
  exists h,
    GetHashedCapabilityId (sampleRegistry [capA]) (LabelledName capB) (Version capB)
    = Ok h /\
    h ∉ HashedId <$> [sampleInfo capA].
Proof.
  apply (dedupCapabilities_returns_unregistered (sampleRegistry [capA])
           [sampleInfo capA] [capA; capB; capA] [capB] capB).
  - reflexivity.
  - vm_compute. reflexivity.
  - by left.
Defined.

(** X3.  No two descriptors that [dedupCapabilities] returns render to the
    same [CapabilityID]. *)
Theorem dedupCapabilities_returns_distinct_ids registry caps out :
  result (dedupCapabilities registry caps) = Ok out ->
  NoDup (CapabilityID <$> out).
Proof.
  intros Hok.
  apply dedupCapabilities_ok_inv in Hok as (existing & _ & _ & ->).
  apply survivors_NoDup.
Qed.

Lemma dedupCapabilities_returns_distinct_ids_witness :
  NoDup (CapabilityID <$> [capA; capB]).
Proof.
  apply (dedupCapabilities_returns_distinct_ids (sampleRegistry [])
           [capA; capB; capA; capB]).
  vm_compute. reflexivity.
Defined.

(** X4.  [dedupCapabilities] drops no descriptor without a reason: every
    descriptor of the request is returned, or its hash is registered, or
    a descriptor before it in the request renders to the same
    [CapabilityID]. *)
Theorem dedupCapabilities_drops_with_reason
    registry existing caps out pre c post :
  GetCapabilities registry = Ok existing ->
  result (dedupCapabilities registry caps) = Ok out ->
  caps = pre ++ c :: post ->
  c ∈ out \/
  alreadyRegistered registry existing c = true \/
  CapabilityID c ∈ CapabilityID <$> pre.
Proof.
  intros Hget Hok Heq.
  apply dedupCapabilities_ok_inv in Hok as (existing' & Hget' & _ & ->).
  assert (existing' = existing) as -> by congruence.
  exact (survivors_complete registry existing caps [] pre c post Heq).
Qed.

Lemma dedupCapabilities_drops_with_reason_witness :
  capRight ∈ [capLeft] \/
  alreadyRegistered (sampleRegistry []) [] capRight = true \/
  CapabilityID capRight ∈ CapabilityID <$> [capLeft].
Proof.
  apply (dedupCapabilities_drops_with_reason (sampleRegistry []) []
           [capLeft; capRight] [capLeft] [capLeft] capRight []).
  - reflexivity.
  - vm_compute. reflexivity.
  - reflexivity.
Defined.

(** X5.  Deduplicating is idempotent: handing the descriptors that
    [dedupCapabilities] returned back to it, against the same registry,
    returns them unchanged. *)
Theorem dedupCapabilities_idempotent registry caps out :
  result (dedupCapabilities registry caps) = Ok out ->
  result (dedupCapabilities registry out) = Ok out.
Proof.
  intros Hok.
  apply dedupCapabilities_ok_inv in Hok as (existing & Hget & Hhash & ->).
  set (out := survivors sameCapabilityID registry existing [] caps).
  assert (Hsub : out `sublist_of` caps) by apply survivors_sublist.
  assert (Hhash' : hashesSucceed registry out).
  { unfold hashesSucceed in *. rewrite Forall_forall in *.
    intros c Hc. apply Hhash. by eapply elem_of_sublist. }
  rewrite (dedupCapabilities_by_id registry existing out Hget Hhash').
  simpl. f_equal. apply survivors_fixed.
  - apply Forall_forall. intros c Hc. by eapply survivors_unregistered.
  - apply survivors_NoDup.
Qed.

Lemma dedupCapabilities_idempotent_witness :
  result (dedupCapabilities (sampleRegistry [capA]) [capB]) = Ok [capB].
Proof.
  apply (dedupCapabilities_idempotent (sampleRegistry [capA]) [capA; capB; capA]).
  vm_compute. reflexivity.
Defined.

End keystone_dedup.

(** ** [CapabilityID] and what the deduplicator reads *)

Section keystone_ids.
Import Keystone KeystoneSpec KeystoneNotions KeystoneSamples.

Implicit Types registry : CapabilitiesRegistry.
Implicit Types existing : list CapabilitiesRegistryCapabilityInfo.
Implicit Types caps out earlier : list CapabilitiesRegistryCapability.

(** Two renderings [n1@v1] and [n2@v2] whose names hold no "@" agree only
    when names and versions do. *)
Lemma append_at_inj (n1 n2 v1 v2 : string) :
  hasAt n1 = false -> hasAt n2 = false ->
  n1 +:+ "@" +:+ v1 = n2 +:+ "@" +:+ v2 ->
  n1 = n2 /\ v1 = v2.
Proof.
  assert (Hcons : forall a n v, String a n +:+ v = String a (n +:+ v)) by done.
  revert n2. induction n1 as [|a n1 IH]; intros [|b n2] H1 H2 Heq;
    rewrite ?Hcons in Heq;
    change ("" +:+ v1) with v1 in Heq; change ("" +:+ v2) with v2 in Heq;
    cbn [hasAt] in H1, H2.
  - by injection Heq as ->.
  - injection Heq as <- _. by rewrite Ascii.eqb_refl in H2.
  - injection Heq as -> _. by rewrite Ascii.eqb_refl in H1.
  - injection Heq as -> Heq.
    destruct (Ascii.eqb b "@"%char); [done|].
    destruct (IH n2 H1 H2 Heq) as [-> ->]. done.
Qed.

(** X6.  [CapabilityID] tells capabilities apart as long as no labelled
    name holds the separator: two descriptors whose labelled names are free
    of "@" and that render to the same identifier have the same labelled
    name and the same version. *)
Theorem CapabilityID_injective_without_at (c1 c2 : CapabilitiesRegistryCapability) :
  hasAt (LabelledName c1) = false ->
  hasAt (LabelledName c2) = false ->
  CapabilityID c1 = CapabilityID c2 ->
  LabelledName c1 = LabelledName c2 /\ Version c1 = Version c2.
Proof.
  intros H1 H2 Heq. unfold CapabilityID in Heq.
  by apply append_at_inj.
Qed.

Lemma CapabilityID_injective_without_at_witness :
  LabelledName (mkCap "write_ethereum" "1.0.0")
  = LabelledName {| LabelledName := "write_ethereum"; Version := "1.0.0";
                    CapabilityType := 3%N; ResponseType := 1%N;
                    ConfigurationContract := 7%N |}
  /\ Version (mkCap "write_ethereum" "1.0.0")
     = Version {| LabelledName := "write_ethereum"; Version := "1.0.0";
                  CapabilityType := 3%N; ResponseType := 1%N;
                  ConfigurationContract := 7%N |}.
Proof.
  apply CapabilityID_injective_without_at; reflexivity.
Defined.

(** X7.  On a request whose labelled names are free of "@",
    [dedupCapabilities] returns exactly the descriptors that are neither
    registered nor a repetition, by labelled name and version, of a
    descriptor before them in the request, in the order of the request. *)
Theorem dedupCapabilities_exact_without_at registry existing caps out :
  GetCapabilities registry = Ok existing ->
  Forall (fun c => hasAt (LabelledName c) = false) caps ->
  result (dedupCapabilities registry caps) = Ok out ->
  out = survivors sameCapability registry existing [] caps.
Proof.
  intros Hget Hat Hok.
  apply dedupCapabilities_ok_inv in Hok as (existing' & Hget' & Hhash & ->).
  assert (existing' = existing) as -> by congruence.
  apply survivors_sameCapability. simpl.
  rewrite Forall_forall in Hat.
  intros c1 c2 H1 H2. apply append_at_inj; by apply Hat.
Qed.

Lemma dedupCapabilities_exact_without_at_witness :
  [capB] = survivors sameCapability (sampleRegistry [capA]) [sampleInfo capA] []
             [capA; capB; capA].
Proof.
  apply (dedupCapabilities_exact_without_at (sampleRegistry [capA])).
  - reflexivity.
  - by repeat constructor.
  - vm_compute. reflexivity.
Defined.

(** The loop over a request, split at any point before which the hash
    reads go through: the reads of the first part, then the loop over the
    rest, from some state of [seen] and [out]. *)
Lemma dedupLoop_app registry existingByID pre rest :
  hashesSucceed registry pre ->
  forall seen out,
    exists seen' out',
      dedupLoop registry existingByID (pre ++ rest) seen out
      = (result (dedupLoop registry existingByID rest seen' out'),
         hashReads registry pre
         ++ events (dedupLoop registry existingByID rest seen' out')).
Proof.
  induction 1 as [|c pre Hc _ IH]; intros seen out.
  - exists seen, out. simpl. by destruct (dedupLoop _ _ _ _ _).
  - cbn [app dedupLoop]. unfold callGetHashedCapabilityId.
    destruct (GetHashedCapabilityId registry (LabelledName c) (Version c))
      as [h|]; [|done].
    cbn [bind emit lift on_error].
    destruct (decide (CapabilityID c ∈ seen));
      [|destruct (decide (h ∈ existingByID))];
      match goal with
      | |- context [dedupLoop _ _ (pre ++ rest) ?s ?o] =>
          destruct (IH s o) as (seen' & out' & ->)
      end; exists seen', out'; done.
Qed.

(** X8.  [dedupCapabilities] asks the registry for the hash of each
    requested descriptor in turn, before it looks whether the descriptor is
    a repetition, and stops at the first read that fails: the call returns
    that error, wrapped, and the descriptors after it are not read. *)
Theorem dedupCapabilities_stops_at_failing_read
    registry existing pre c post origin :
  GetCapabilities registry = Ok existing ->
  hashesSucceed registry pre ->
  GetHashedCapabilityId registry (LabelledName c) (Version c)
  = Err (Opaque origin) ->
  dedupCapabilities registry (pre ++ c :: post)
  = (Err (Errorf "failed to call GetHashedCapabilityId: %w"
            [ArgErr (Opaque origin)]),
     ReadGetCapabilities (RegistryAddress registry)
     :: hashReads registry (pre ++ [c])).
Proof.
  intros Hget Hpre Hc. unfold dedupCapabilities, callGetCapabilities.
  rewrite Hget. cbn [bind emit lift on_error].
  match goal with
  | |- context [dedupLoop _ ?ex _ ?s ?o] =>
      destruct (dedupLoop_app registry ex pre (c :: post) Hpre s o)
        as (seen' & out' & ->)
  end.
  cbn [dedupLoop]. unfold callGetHashedCapabilityId. rewrite Hc.
  cbn. unfold hashReads. by rewrite fmap_app.
Qed.

Lemma dedupCapabilities_stops_at_failing_read_witness :
  dedupCapabilities (registryFailingOn "B") [capA; capB; capA]
  = (Err (Errorf "failed to call GetHashedCapabilityId: %w"
            [ArgErr (Opaque "connection refused")]),
     [ReadGetCapabilities 4096%N;
      ReadGetHashedCapabilityId 4096%N "A" "1.0";
      ReadGetHashedCapabilityId 4096%N "B" "1.0"]).
Proof.
  refine (dedupCapabilities_stops_at_failing_read (registryFailingOn "B") []
            [capA] capB [capA] "connection refused" eq_refl _ eq_refl).
  by repeat constructor.
Defined.

End keystone_ids.

(** ** [AddCapabilities] on every input *)

Section keystone_add.
Import Keystone KeystoneSpec KeystoneNotions KeystoneSamples.

Variable DecodeErr : error -> error.

Implicit Types registry : CapabilitiesRegistry.

Lemma dedupLoop_reads registry existingByID caps :
  forall seen out,
    Forall (fun ev => isRead ev = true)
      (events (dedupLoop registry existingByID caps seen out)).
Proof.
  induction caps as [|c rest IH]; intros seen out; [constructor|].
  cbn [dedupLoop]. unfold callGetHashedCapabilityId.
  destruct (GetHashedCapabilityId registry (LabelledName c) (Version c))
    as [h|e]; [|destruct e; by repeat constructor].
  cbn [bind emit lift on_error].
  destruct (decide (CapabilityID c ∈ seen));
    [|destruct (decide (h ∈ existingByID))];
    match goal with
    | |- context [dedupLoop _ _ rest ?s ?o] =>
        pose proof (IH s o) as Hrest;
        destruct (dedupLoop registry existingByID rest s o) as [r t]
    end; constructor; done.
Qed.

(** [dedupCapabilities] only reads. *)
Lemma dedupCapabilities_reads registry caps :
  Forall (fun ev => isRead ev = true) (events (dedupCapabilities registry caps)).
Proof.
  unfold dedupCapabilities, callGetCapabilities.
  destruct (GetCapabilities registry) as [existing|e];
    [|destruct e; by repeat constructor].
  cbn [bind emit lift on_error].
  match goal with
  | |- context [dedupLoop _ ?ex _ ?s ?o] =>
      pose proof (dedupLoop_reads registry ex caps s o) as Hrest;
      destruct (dedupLoop registry ex caps s o) as [r t]
  end.
  by constructor.
Qed.

(** X9.  In MCMS mode [AddCapabilities] never changes the chain, however
    the call ends: on every request, with any registry and chain, also
    when a registry call fails, no event of the run submits a transaction
    for real and none waits for a confirmation. *)
Theorem AddCapabilities_batched_never_submits contractSet chain caps :
  Forall (fun ev => onchain_effect ev = false /\ is_confirm ev = false)
    (events (AddCapabilities DecodeErr contractSet chain caps true)).
Proof.
  unfold AddCapabilities.
  destruct (decide (length caps = 0)); [constructor|].
  set (registry := ContractSetCapabilitiesRegistry contractSet).
  pose proof (dedupCapabilities_reads registry caps) as Hreads.
  assert (Hq : Forall (fun ev => onchain_effect ev = false /\ is_confirm ev = false)
                 (events (dedupCapabilities registry caps))).
  { eapply Forall_impl; [exact Hreads|]. by intros []. }
  destruct (dedupCapabilities registry caps) as [[deduped|e] reads];
    [|by destruct e].
  unfold callAddCapabilities. cbn [on_error bind emit lift].
  destruct (RegistryAddCapabilities registry SimTransactOpts deduped) as [tx|e];
    [|destruct e]; cbn; rewrite ?app_nil_r;
    (apply Forall_app; split; [exact Hq|by repeat constructor]).
Qed.

(** X10.  [AddCapabilities] looks at the length of the request, not of
    what is left of it: on a non-empty request all of whose descriptors are
    registered already, it still hands the registry binding a capability
    list, the empty one, in either mode. *)
Theorem AddCapabilities_transacts_empty_list
    contractSet chain caps existing (useMCMS : bool) :
  caps <> [] ->
  GetCapabilities (ContractSetCapabilitiesRegistry contractSet) = Ok existing ->
  hashesSucceed (ContractSetCapabilitiesRegistry contractSet) caps ->
  Forall (fun c => alreadyRegistered (ContractSetCapabilitiesRegistry contractSet)
                     existing c = true) caps ->
  Transact (RegistryAddress (ContractSetCapabilitiesRegistry contractSet))
    (if useMCMS then SimTransactOpts else DeployerKey chain) []
  ∈ events (AddCapabilities DecodeErr contractSet chain caps useMCMS).
Proof.
  intros Hne Hget Hhash Hreg.
  set (registry := ContractSetCapabilitiesRegistry contractSet) in *.
  assert (Hnone : forall earlier,
            survivors sameCapabilityID registry existing earlier caps = []).
  { clear Hne Hhash. induction Hreg as [|c rest Hc _ IH]; intros earlier; [done|].
    simpl. rewrite Hc, orb_true_r. apply IH. }
  unfold AddCapabilities. destruct caps as [|c rest]; [done|].
  rewrite decide_False by done. fold registry.
  rewrite (dedupCapabilities_by_id registry existing _ Hget Hhash), Hnone.
  eapply events_bind_suffix; [reflexivity|]. cbv beta.
  apply events_bind_prefix. unfold callAddCapabilities.
  set (opts := if useMCMS then _ else _).
  destruct (RegistryAddCapabilities registry opts []) as [tx|[]];
    cbn; by left.
Qed.

(** X11.  When a registry read fails on a non-empty request, whether it is
    the read of the registered capabilities or of a descriptor's hash,
    [AddCapabilities] returns an error and has done nothing but read: no
    capability list is handed to the registry binding, in either mode. *)
Theorem AddCapabilities_failed_read_builds_nothing
    contractSet chain caps useMCMS :
  caps <> [] ->
  is_ok (GetCapabilities (ContractSetCapabilitiesRegistry contractSet)) = false \/
  ~ hashesSucceed (ContractSetCapabilitiesRegistry contractSet) caps ->
  is_ok (result (AddCapabilities DecodeErr contractSet chain caps useMCMS)) = false /\
  Forall (fun ev => isRead ev = true)
    (events (AddCapabilities DecodeErr contractSet chain caps useMCMS)).
Proof.
  intros Hne Hfail.
  set (registry := ContractSetCapabilitiesRegistry contractSet) in *.
  pose proof (dedupCapabilities_reads registry caps) as Hreads.
  assert (Hbad : is_ok (result (dedupCapabilities registry caps)) = false).
  { destruct (result (dedupCapabilities registry caps)) as [out|] eqn:Hres; [|done].
    apply dedupCapabilities_ok_inv in Hres as (existing & Hget & Hhash & _).
    destruct Hfail as [Hfail|Hfail]; [by rewrite Hget in Hfail|done]. }
  unfold AddCapabilities. destruct caps as [|c rest]; [done|].
  rewrite decide_False by done. fold registry.
  destruct (dedupCapabilities registry (c :: rest)) as [[deduped|e] reads];
    [done|].
  by destruct e.
Qed.

End keystone_add.

Section keystone_add_witnesses.
Import Keystone KeystoneSpec KeystoneNotions KeystoneSamples.

Lemma AddCapabilities_transacts_empty_list_witness :
  Transact 4096%N {| From := 17%N; NoSend := false |} []
  ∈ events (AddCapabilities sampleDecodeErr (sampleContractSet [capA; capB])
              sampleChain [capB; capA] false).
Proof.
  apply (AddCapabilities_transacts_empty_list sampleDecodeErr
           (sampleContractSet [capA; capB]) sampleChain [capB; capA]
           [sampleInfo capA; sampleInfo capB] false).
  - done.
  - reflexivity.
  - by repeat constructor.
  - repeat constructor; by vm_compute.
Defined.

Lemma AddCapabilities_failed_read_builds_nothing_witness :
  is_ok (result (AddCapabilities sampleDecodeErr
                   {| ContractSetCapabilitiesRegistry := unreachableRegistry |}
                   sampleChain [capA] false)) = false /\
  Forall (fun ev => isRead ev = true)
    (events (AddCapabilities sampleDecodeErr
               {| ContractSetCapabilitiesRegistry := unreachableRegistry |}
               sampleChain [capA] false)).
Proof.
  apply (AddCapabilities_failed_read_builds_nothing sampleDecodeErr).
  - done.
  - left. reflexivity.
Defined.

End keystone_add_witnesses.

(** ** One transaction per call *)

Section keystone_single_transaction.
Import Keystone KeystoneSpec KeystoneNotions.

Variable DecodeErr : error -> error.

(** X12.  A call of [AddCapabilities] hands the registry binding at most
    one capability list; and it waits for a confirmation only in direct
    mode, on its own chain, and only of the transaction that the binding
    returned for that list under the chain's deployer key. *)
Theorem AddCapabilities_single_transaction
    contractSet chain caps (useMCMS : bool) :
  length (filter (fun ev => isTransact ev = true)
            (events (AddCapabilities DecodeErr contractSet chain caps useMCMS)))
  <= 1 /\
  forall sel tx,
    WaitConfirm sel tx
    ∈ events (AddCapabilities DecodeErr contractSet chain caps useMCMS) ->
    useMCMS = false /\ sel = Selector chain /\
    exists deduped,
      RegistryAddCapabilities (ContractSetCapabilitiesRegistry contractSet)
        (DeployerKey chain) deduped = Ok tx /\
      Transact (RegistryAddress (ContractSetCapabilitiesRegistry contractSet))
        (DeployerKey chain) deduped
      ∈ events (AddCapabilities DecodeErr contractSet chain caps useMCMS).
Proof.
  unfold AddCapabilities.
  destruct (decide (length caps = 0)).
  { split; [simpl; lia|]. intros sel tx Hin. by apply elem_of_nil in Hin. }
  set (registry := ContractSetCapabilitiesRegistry contractSet).
  pose proof (dedupCapabilities_reads registry caps) as Hreads.
  assert (Hnone : filter (fun ev => isTransact ev = true)
                    (events (dedupCapabilities registry caps)) = []).
  { induction Hreads as [|ev t Hev _ IH]; [done|].
    rewrite filter_cons_False; [done|]. by destruct ev. }
  assert (Hnowait : forall sel tx,
            WaitConfirm sel tx ∉ events (dedupCapabilities registry caps)).
  { intros sel tx Hin. rewrite Forall_forall in Hreads.
    by specialize (Hreads _ Hin). }
  destruct (dedupCapabilities registry caps) as [[deduped|e] reads].
  - unfold callAddCapabilities, callConfirm. simpl in Hnone, Hnowait.
    cbn [on_error bind emit lift].
    set (opts := if useMCMS then SimTransactOpts else DeployerKey chain).
    destruct (RegistryAddCapabilities registry opts deduped) as [tx|e] eqn:Htx.
    + destruct useMCMS; cbn.
      * rewrite filter_app, Hnone. split; [simpl; lia|].
        intros sel tx' Hin. apply elem_of_app in Hin as [Hin|Hin];
          [by apply Hnowait in Hin|].
        apply list_elem_of_singleton in Hin. discriminate Hin.
      * destruct (Confirm chain tx) as [n'|e]; [|destruct e]; cbn;
          rewrite filter_app, Hnone;
          (split; [simpl; lia|]);
          intros sel tx' Hin; (apply elem_of_app in Hin as [Hin|Hin];
            [by apply Hnowait in Hin|]);
          repeat (apply elem_of_cons in Hin as [Hin|Hin];
                  [try discriminate Hin|]);
          try (by apply elem_of_nil in Hin);
          injection Hin as -> ->;
          (split; [done|]); (split; [done|]); exists deduped;
          (split; [exact Htx|]); apply elem_of_app; right; by left.
    + destruct e; cbn; rewrite ?app_nil_r, filter_app, Hnone;
        (split; [simpl; lia|]);
        intros sel tx' Hin; (apply elem_of_app in Hin as [Hin|Hin];
          [by apply Hnowait in Hin|]);
        apply list_elem_of_singleton in Hin; discriminate Hin.
  - simpl in Hnone, Hnowait.
    destruct e; cbn; rewrite Hnone; (split; [simpl; lia|]);
      intros sel tx Hin; by apply Hnowait in Hin.
Qed.

End keystone_single_transaction.

(** ** The deployers, contract by contract *)

(** The rule for [bind] that remembers what the first part returned. *)
Lemma emits_bind_ok {E A B} (P : list E -> Prop) `{!Compositional P}
    (m : M E A) (k : A -> M E B) :
  emits P m -> (forall a, result m = Ok a -> emits P (k a)) -> emits P (bind m k).
Proof.
  unfold emits, events, result. destruct m as [[a|e] t]; simpl; [|done].
  intros Hm Hk. specialize (Hk a eq_refl). destruct (k a) as [r t']. simpl in *.
  by apply comp_app.
Qed.

Section ccip_contracts.
Import CCIP CCIPSpec CCIPNotions.

Variable LoadOnchainState : Environment -> Result CCIPOnChainState.
Variable DeployUSDC : Chain -> Address -> Address -> M Event USDCContracts.

(** What [DeployContract] emits: the deployment, and events that deploy
    nothing. *)
Lemma DeployContract_emits (Q : Event -> Prop) chain tv args :
  Q (DeployTx (Selector chain) tv args) ->
  Q (WaitConfirm (Selector chain) (TxDeploy tv args)) ->
  (forall addr, Q (Save (Selector chain) addr tv)) ->
  emits (Forall Q) (DeployContract chain (deployClosure tv args)).
Proof.
  intros Hd Hc Hs. unfold DeployContract, deployClosure, chainConfirm, emits.
  cbn [bind emit]. destruct (Deploys chain tv args) as [addr|err]; cbn.
  - destruct (Confirm chain (TxDeploy tv args)) as [[]|err]; cbn;
      repeat constructor; first [exact Hd | exact Hc | apply Hs].
  - repeat constructor. exact Hd.
Qed.

Lemma send_emits (Q : Event -> Prop) chain to call :
  Q (SendTx (Selector chain) to call) ->
  emits (Forall Q) (send chain to call).
Proof.
  intros Hs. unfold send, emits. cbn. destruct (Sends chain to call) as [[]|];
    by repeat constructor.
Qed.

Lemma chainConfirm_emits (Q : Event -> Prop) chain tx :
  Q (WaitConfirm (Selector chain) tx) ->
  emits (Forall Q) (chainConfirm chain tx).
Proof.
  intros Hs. unfold chainConfirm, emits. cbn.
  destruct (Confirm chain tx) as [[]|]; by repeat constructor.
Qed.

End ccip_contracts.

(** Leaves of a walk for a property [Forall Q] that holds of every event
    but a deployment; [dep] settles [Q] at a deployment. *)
Ltac kind_leaf dep :=
  idtac;
  first [ apply DeployContract_emits; [dep|done|done]
        | apply send_emits; done
        | apply chainConfirm_emits; done
        | by repeat constructor
        | assumption ].

Section ccip_skip_if_exists.
Import CCIP CCIPSpec CCIPNotions CCIPSamples.

Variable LoadOnchainState : Environment -> Result CCIPOnChainState.
Variable DeployUSDC : Chain -> Address -> Address -> M Event USDCContracts.

(** X13.  Skip-if-exists, step by step: on a chain known to the state and
    not enabled for stablecoin support, [deployPrerequisiteContracts]
    deploys a contract only if it is one of its eight prerequisites and the
    state has no record of it (for the mock RMN: no record of the RMN proxy
    it serves; for Multicall3: only if asked for as well). *)
Theorem deployPrerequisiteContracts_deploys_only_missing
    e state chain opts cs ev tv :
  StateChains state !! Selector chain = Some cs ->
  Selector chain ∉ USDCEnabledChains (applyPrerequisiteOpts opts) ->
  ev ∈ events (deployPrerequisiteContracts DeployUSDC e state chain opts) ->
  deployedKind ev = Some tv ->
  prerequisiteRecord cs tv = Some None /\
  (tv = NewTypeAndVersion Multicall3 Version1_0_0 ->
   Multicall3Enabled (applyPrerequisiteOpts opts) = true).
Proof.
  intros Hcs Husdc. revert ev tv.
  set (Q := fun ev => forall tv, deployedKind ev = Some tv ->
              prerequisiteRecord cs tv = Some None /\
              (tv = NewTypeAndVersion Multicall3 Version1_0_0 ->
               Multicall3Enabled (applyPrerequisiteOpts opts) = true)).
  cut (emits (Forall Q)
         (deployPrerequisiteContracts DeployUSDC e state chain opts)).
  { unfold emits. rewrite Forall_forall. intros H ev tv Hin. by apply H. }
  unfold deployPrerequisiteContracts, log, chainStateOf. cbv zeta.
  rewrite Hcs. rewrite bool_decide_eq_true_2 by eauto.
  rewrite (bool_decide_eq_false_2 _ Husdc).
  change (default zeroChainState (Some cs)) with cs. cbv iota.
  emits_walk ltac:(kind_leaf ltac:(
    intros ? [= <-]; cbn [prerequisiteRecord];
    repeat match goal with
           | H : _ && _ = true |- _ => apply andb_prop in H as [? ?]
           | H : bool_decide _ = true |- _ => apply bool_decide_eq_true_1 in H
           end;
    split; [congruence|first [done|intros; assumption]])).
Qed.

(** X14.  Skip-if-exists, step by step, for [deployChainContracts]: on a
    chain that the loaded state knows, it deploys a contract only if it is
    one of its eight chain contracts (receiver, RMNRemote, new RMN proxy,
    test router, nonce manager, fee quoter, OnRamp, OffRamp) and the state
    has no record of it. *)
Theorem deployChainContracts_deploys_only_missing
    e chain rmnHome state cs ev tv :
  LoadOnchainState e = Ok state ->
  StateChains state !! Selector chain = Some cs ->
  ev ∈ events (deployChainContracts LoadOnchainState e chain rmnHome) ->
  deployedKind ev = Some tv ->
  chainContractRecord cs tv = Some None.
Proof.
  intros Hload Hcs. revert ev tv.
  set (Q := fun ev => forall tv, deployedKind ev = Some tv ->
              chainContractRecord cs tv = Some None).
  cut (emits (Forall Q) (deployChainContracts LoadOnchainState e chain rmnHome)).
  { unfold emits. rewrite Forall_forall. intros H ev tv Hin. by apply H. }
  unfold deployChainContracts, ConfirmIfNoError, log.
  rewrite Hload, bind_load, Hcs.
  emits_walk ltac:(kind_leaf ltac:(
    intros ? [= <-]; cbn [chainContractRecord]; congruence)).
Qed.

End ccip_skip_if_exists.

Section ccip_skip_if_exists_witnesses.
Import CCIP CCIPSpec CCIPNotions CCIPSamples CCIPCases.

Lemma deployPrerequisiteContracts_deploys_only_missing_witness :
  prerequisiteRecord routerMissing (NewTypeAndVersion Router Version1_2_0)
  = Some None /\
  (NewTypeAndVersion Router Version1_2_0
   = NewTypeAndVersion Multicall3 Version1_0_0 ->
   Multicall3Enabled (applyPrerequisiteOpts []) = true).
Proof.
  apply (deployPrerequisiteContracts_deploys_only_missing modelDeployUSDC
           twoChainEnv routerMissingState (healthyChain 2 300 false) [] _
           (DeployTx 2 (NewTypeAndVersion Router Version1_2_0) [105%N; 104%N])).
  - by vm_compute.
  - vm_compute. intros Hin. by apply elem_of_nil in Hin.
  - vm_compute. repeat constructor.
  - reflexivity.
Defined.

Lemma deployChainContracts_deploys_only_missing_witness :
  chainContractRecord prerequisitesDeployed
    (NewTypeAndVersion OffRamp Version1_6_0_dev) = Some None.
Proof.
  apply (deployChainContracts_deploys_only_missing loadThreeChainState
           threeChainEnv (healthyChain 2 300 true) sampleRMNHome
           threeChainState prerequisitesDeployed
           (DeployTx 2 (NewTypeAndVersion OffRamp Version1_6_0_dev)
              [319%N; 343%N; 108%N; 347%N])).
  - reflexivity.
  - by vm_compute.
  - vm_compute. repeat constructor.
  - reflexivity.
Defined.

End ccip_skip_if_exists_witnesses.

(** ** What the deployers look at, and what they leave alone *)

(** One step of a walk that remembers what each part returned. *)
Ltac emits_step_ok tac :=
  lazymatch goal with
  | |- emits ?P (bind _ _) => apply (emits_bind_ok P); [|intros ? ?]
  | |- emits ?P (on_error_do _ _ _) => apply (emits_on_error_do P); [tac|]
  | |- emits ?P (on_error _ _) => apply (emits_on_error P)
  | |- emits ?P (ret _) => apply (emits_ret P)
  | |- emits ?P (fail _) => apply (emits_fail P)
  | |- emits ?P (lift _) => apply (emits_lift P)
  | |- emits ?P (emit _) => apply (emits_emit P); tac
  | |- emits _ (match ?x with _ => _ end) => destruct x eqn:?
  end.

Ltac emits_walk_ok leaf :=
  repeat first [ emits_step_ok leaf | leaf ].

(** What a read step returned is what the binding answered. *)
Lemma read_step_inv {E A} evs f (ev : E) (r : Result A) a :
  result (on_error_do evs f (bind (emit ev) (fun _ => lift r))) = Ok a ->
  r = Ok a.
Proof. destruct r as [v|[]]; simpl; congruence. Qed.

Section ccip_gating.
Import CCIP CCIPSpec CCIPNotions.

Variable LoadOnchainState : Environment -> Result CCIPOnChainState.
Variable DeployUSDC : Chain -> Address -> Address -> M Event USDCContracts.

(** X15.  [deployChainContracts] insists on the prerequisites: when the
    loaded state does not know the chain, or lacks its WETH9, timelock, LINK
    token, token admin registry, registry module or router, the call
    returns an error whose message carries the chain's selector, and it has
    made no request and written no log line. *)
Theorem deployChainContracts_requires_prerequisites e chain rmnHome state :
  LoadOnchainState e = Ok state ->
  (forall cs, StateChains state !! Selector chain = Some cs ->
              ~ readyForChainContracts cs) ->
  events (deployChainContracts LoadOnchainState e chain rmnHome) = [] /\
  exists format,
    result (deployChainContracts LoadOnchainState e chain rmnHome)
    = Err (Errorf format [ArgUint (Selector chain)]).
Proof.
  intros Hload Hnot. unfold deployChainContracts.
  rewrite Hload, bind_load.
  destruct (StateChains state !! Selector chain) as [cs|]; [|by eauto].
  specialize (Hnot cs eq_refl). unfold readyForChainContracts in Hnot.
  destruct (StWeth9 cs) as [weth9|]; [|by eauto].
  destruct (StTimelock cs) as [timelock|]; [|by eauto].
  destruct (StLinkToken cs) as [link|]; [|by eauto].
  destruct (StTokenAdminRegistry cs) as [tar|]; [|by eauto].
  destruct (StRegistryModule cs) as [rm|];
    [rewrite bool_decide_eq_false_2 by done
    |rewrite bool_decide_eq_true_2 by done; by eauto].
  destruct (StRouter cs) as [r|];
    [|rewrite bool_decide_eq_true_2 by done; by eauto].
  exfalso. apply Hnot. repeat split; eauto.
Qed.

(** X16.  The RMNRemote is only ever configured with the digest that is
    active on RMNHome: a [SetConfig] transaction of [deployChainContracts]
    carries the digest that [GetActiveDigest] answered, the one signer of
    the source and [F = 0]; if the digest could not be read, none is
    sent. *)
Theorem deployChainContracts_configures_read_digest
    e chain rmnHome sel to digest signers F :
  SendTx sel to (SetConfig digest signers F)
  ∈ events (deployChainContracts LoadOnchainState e chain rmnHome) ->
  ReadsGetActiveDigest rmnHome = Ok digest /\
  signers = [(0%N, addressByte1)] /\ F = 0%N.
Proof.
  set (Q := fun ev => forall sel to digest signers F,
              ev = SendTx sel to (SetConfig digest signers F) ->
              ReadsGetActiveDigest rmnHome = Ok digest /\
              signers = [(0%N, addressByte1)] /\ F = 0%N).
  cut (emits (Forall Q) (deployChainContracts LoadOnchainState e chain rmnHome)).
  { unfold emits. rewrite Forall_forall. intros H Hin. by eapply H. }
  unfold deployChainContracts, ConfirmIfNoError, log.
  emits_walk_ok ltac:(idtac; first
    [ apply DeployContract_emits; by intros
    | apply send_emits; intros ? ? ? ? ? [= <- <- <- <- <-];
      match goal with
      | H : result (on_error_do _ _ (bind (emit (Read _ _ GetActiveDigest)) _))
            = Ok _ |- _ => apply read_step_inv in H; by rewrite H
      end
    | apply send_emits; by intros ? ? ? ? ? [=]
    | apply chainConfirm_emits; done
    | by repeat constructor ]).
Qed.

(** X17.  Neither deployer reaches beyond the chain it is handed:
    [deployChainContracts] addresses its own chain in every request but
    the read of the active digest, which goes to RMNHome; so does
    [deployPrerequisiteContracts], as long as the stablecoin deployer, where
    it is called, does. *)
Theorem deployers_address_their_own_chain e state chain rmnHome opts :
  Forall (fun ev => localTo (Selector chain) ev \/
                    ev = Read (RMNHomeChain rmnHome) (RMNHomeAddress rmnHome)
                           GetActiveDigest)
    (events (deployChainContracts LoadOnchainState e chain rmnHome)) /\
  ((Selector chain ∈ USDCEnabledChains (applyPrerequisiteOpts opts) ->
    forall rmnProxy r,
      Forall (localTo (Selector chain)) (events (DeployUSDC chain rmnProxy r))) ->
   Forall (localTo (Selector chain))
     (events (deployPrerequisiteContracts DeployUSDC e state chain opts))).
Proof.
  split.
  - change (emits (Forall (fun ev => localTo (Selector chain) ev \/
                     ev = Read (RMNHomeChain rmnHome) (RMNHomeAddress rmnHome)
                            GetActiveDigest))
              (deployChainContracts LoadOnchainState e chain rmnHome)).
    unfold deployChainContracts, ConfirmIfNoError, log.
    emits_walk ltac:(idtac; first
      [ apply DeployContract_emits; [by left; right|by left; right|];
        intros; by left; right
      | apply send_emits; by left; right
      | apply chainConfirm_emits; by left; right
      | by (repeat constructor; first [by left; left | by right]) ]).
  - intros Husdc.
    apply (deployPrerequisiteContracts_local DeployUSDC e state chain opts Husdc).
Qed.

(** X18.  Without stablecoin support for the chain, the only transaction
    [deployPrerequisiteContracts] sends to a deployed contract is
    [AddRegistryModule], and it sends it only to a token admin registry
    that has just answered that the module is not registered with it. *)
Theorem deployPrerequisiteContracts_registers_module_if_absent
    e state chain opts sel to call :
  Selector chain ∉ USDCEnabledChains (applyPrerequisiteOpts opts) ->
  SendTx sel to call
  ∈ events (deployPrerequisiteContracts DeployUSDC e state chain opts) ->
  exists module,
    call = AddRegistryModule module /\
    ReadsIsRegistryModule chain to module = Ok false.
Proof.
  intros Husdc.
  set (Q := fun ev => forall sel to call,
              ev = SendTx sel to call ->
              exists module,
                call = AddRegistryModule module /\
                ReadsIsRegistryModule chain to module = Ok false).
  cut (emits (Forall Q)
         (deployPrerequisiteContracts DeployUSDC e state chain opts)).
  { unfold emits. rewrite Forall_forall. intros H Hin. by eapply H. }
  unfold deployPrerequisiteContracts, log. cbv zeta.
  rewrite (bool_decide_eq_false_2 _ Husdc). cbv iota.
  emits_walk_ok ltac:(idtac; first
    [ apply DeployContract_emits; by intros
    | apply send_emits; intros ? ? ? [= <- <- <-];
      match goal with
      | H : result (on_error_do _ _ (bind (emit (Read _ _ (IsRegistryModule _))) _))
            = Ok ?b,
        Hb : negb ?b = true |- _ =>
          apply read_step_inv in H; apply negb_true_iff in Hb; subst b;
          by eauto
      end
    | apply chainConfirm_emits; done
    | by repeat constructor ]).
Qed.

(** X19.  The optional steps are taken only when asked for.  For a chain
    that is not among the stablecoin chains of the options, the run is the
    same whatever the stablecoin deployer is: it is not called.  With
    Multicall3 not enabled, no Multicall3 is deployed, whatever the state
    holds. *)
Theorem deployPrerequisiteContracts_optional_steps e state chain opts :
  Selector chain ∉ USDCEnabledChains (applyPrerequisiteOpts opts) ->
  (forall DeployUSDC',
     deployPrerequisiteContracts DeployUSDC' e state chain opts
     = deployPrerequisiteContracts DeployUSDC e state chain opts) /\
  (Multicall3Enabled (applyPrerequisiteOpts opts) = false ->
   Forall (fun ev => deployedKind ev
                     <> Some (NewTypeAndVersion Multicall3 Version1_0_0))
     (events (deployPrerequisiteContracts DeployUSDC e state chain opts))).
Proof.
  intros Husdc. split.
  - intros DeployUSDC'. unfold deployPrerequisiteContracts. cbv zeta.
    by rewrite (bool_decide_eq_false_2 _ Husdc).
  - intros Hmc.
    change (emits (Forall (fun ev => deployedKind ev
                     <> Some (NewTypeAndVersion Multicall3 Version1_0_0)))
              (deployPrerequisiteContracts DeployUSDC e state chain opts)).
    unfold deployPrerequisiteContracts, log. cbv zeta.
    rewrite (bool_decide_eq_false_2 _ Husdc), Hmc.
    cbv beta iota delta [andb].
    emits_walk ltac:(kind_leaf ltac:(by intros [=])).
Qed.

End ccip_gating.

Section ccip_gating_witnesses.
Import CCIP CCIPSpec CCIPNotions CCIPSamples CCIPCases.

Lemma deployChainContracts_requires_prerequisites_witness :
  events (deployChainContracts loadThreeChainState threeChainEnv
            (healthyChain 3 400 false) sampleRMNHome) = [] /\
  exists format,
    result (deployChainContracts loadThreeChainState threeChainEnv
              (healthyChain 3 400 false) sampleRMNHome)
    = Err (Errorf format [ArgUint 3%N]).
Proof.
  apply (deployChainContracts_requires_prerequisites loadThreeChainState
           threeChainEnv (healthyChain 3 400 false) sampleRMNHome
           threeChainState).
  - reflexivity.
  - intros cs Hcs. by vm_compute in Hcs.
Defined.

Lemma deployChainContracts_configures_read_digest_witness :
  ReadsGetActiveDigest sampleRMNHome = Ok 48879%N /\
  [(0%N, addressByte1)] = [(0%N, addressByte1)] /\ 0%N = 0%N.
Proof.
  apply (deployChainContracts_configures_read_digest loadThreeChainState
           threeChainEnv (healthyChain 1 200 true) sampleRMNHome 1%N 142%N).
  vm_compute. repeat constructor.
Defined.

Lemma deployers_address_their_own_chain_witness :
  Forall (localTo 2%N)
    (events (deployPrerequisiteContracts modelDeployUSDC twoChainEnv
               twoChainState (healthyChain 2 300 false)
               [WithUSDCChains [2%N]])).
Proof.
  apply (deployers_address_their_own_chain loadTwoChainState modelDeployUSDC
           twoChainEnv twoChainState (healthyChain 2 300 false) sampleRMNHome
           [WithUSDCChains [2%N]]).
  intros _ rmnProxy r.
  apply (modelDeployUSDC_local (healthyChain 2 300 false)).
Defined.

Lemma deployPrerequisiteContracts_registers_module_if_absent_witness :
  exists module,
    AddRegistryModule 338%N = AddRegistryModule module /\
    ReadsIsRegistryModule (healthyChain 2 300 false) 334%N module = Ok false.
Proof.
  apply (deployPrerequisiteContracts_registers_module_if_absent modelDeployUSDC
           twoChainEnv twoChainState (healthyChain 2 300 false) [] 2%N).
  - vm_compute. intros Hin. by apply elem_of_nil in Hin.
  - vm_compute. repeat constructor.
Defined.

Lemma deployPrerequisiteContracts_optional_steps_witness :
  Forall (fun ev => deployedKind ev
                    <> Some (NewTypeAndVersion Multicall3 Version1_0_0))
    (events (deployPrerequisiteContracts modelDeployUSDC twoChainEnv
               twoChainState (healthyChain 2 300 false) [WithUSDCChains [1%N]])).
Proof.
  apply (deployPrerequisiteContracts_optional_steps modelDeployUSDC
           twoChainEnv twoChainState (healthyChain 2 300 false)
           [WithUSDCChains [1%N]]).
  - vm_compute. intros Hin. apply list_elem_of_singleton in Hin. discriminate Hin.
  - reflexivity.
Defined.

End ccip_gating_witnesses.

(** ** Fail-stop *)

Section fail_stop_rules.
Import CCIP CCIPNotions.

Variable rej : Event -> Prop.

Lemma stops_nil : stopsAtRejection rej [].
Proof. intros pre ev post Heq. by destruct pre. Qed.

Lemma stops_cons_ok ev t :
  ~ rej ev -> stopsAtRejection rej t -> stopsAtRejection rej (ev :: t).
Proof.
  intros Hev Ht pre ev' post Heq Hrej.
  destruct pre as [|x pre]; simplify_eq/=; [done|].
  by eapply Ht.
Qed.

Lemma stops_cons_inv ev t :
  stopsAtRejection rej (ev :: t) -> stopsAtRejection rej t.
Proof.
  intros Ht pre ev' post Heq Hrej. eapply (Ht (ev :: pre)); [|done].
  by rewrite Heq.
Qed.

Lemma stops_last ev : stopsAtRejection rej [ev].
Proof.
  intros pre ev' post Heq Hrej.
  destruct pre as [|x pre]; simplify_eq/=; [constructor|].
  by destruct pre.
Qed.

Lemma stops_app_ok t1 t2 :
  Forall (fun ev => ~ rej ev) t1 -> stopsAtRejection rej t2 ->
  stopsAtRejection rej (t1 ++ t2).
Proof.
  induction 1 as [|ev t1 Hev _ IH]; intros Ht2; [done|].
  simpl. apply stops_cons_ok; [done|]. by apply IH.
Qed.

Lemma stops_app_logs t evs :
  (forall ev, isLog ev = true -> ~ rej ev) ->
  stopsAtRejection rej t -> Forall (fun ev => isLog ev = true) evs ->
  stopsAtRejection rej (t ++ evs).
Proof.
  intros rej_log Ht Hlogs. induction t as [|x t IH]; simpl.
  - rewrite <- (app_nil_r evs). apply stops_app_ok; [|apply stops_nil].
    eapply Forall_impl; [exact Hlogs|]. intros ev. apply rej_log.
  - intros pre ev post Heq Hrej.
    destruct pre as [|y pre]; simplify_eq/=.
    + apply Forall_app. split; [|done]. by eapply (Ht []).
    + eapply IH; [|done..]. by eapply stops_cons_inv.
Qed.

Lemma failStop_ret {A} (a : A) : failStop rej (ret a).
Proof. split; [apply stops_nil|constructor]. Qed.

Lemma failStop_fail {A} err : failStop rej (@fail Event A err).
Proof. split; [apply stops_nil|constructor]. Qed.

Lemma failStop_lift {A} (r : Result A) : failStop rej (lift r).
Proof. split; [apply stops_nil|constructor]. Qed.

Lemma failStop_log level msg :
  (forall ev, isLog ev = true -> ~ rej ev) -> failStop rej (log level msg).
Proof.
  intros rej_log. split; [apply stops_last|]. intros _.
  constructor; [|constructor]. by apply rej_log.
Qed.

Lemma failStop_bind {A B} (m : M Event A) (k : A -> M Event B) :
  failStop rej m -> (forall a, failStop rej (k a)) -> failStop rej (bind m k).
Proof.
  unfold failStop, events, result. destruct m as [[a|err] t]; simpl; [|done].
  intros [Hs Hok] Hk. specialize (Hok eq_refl).
  destruct (Hk a) as [Hs' Hok']. destruct (k a) as [r t']. simpl in *.
  split; [by apply stops_app_ok|].
  intros Hr. apply Forall_app. split; [done|by apply Hok'].
Qed.

Lemma failStop_on_error {A} f (m : M Event A) :
  failStop rej m -> failStop rej (on_error f m).
Proof. by destruct m as [[a|[]] t]. Qed.

Lemma failStop_on_error_do {A} evs f (m : M Event A) :
  (forall ev, isLog ev = true -> ~ rej ev) ->
  Forall (fun ev => isLog ev = true) evs ->
  failStop rej m -> failStop rej (on_error_do evs f m).
Proof.
  intros rej_log Hlogs. unfold failStop, events, result.
  destruct m as [[a|[]] t]; simpl; try done;
    intros [Hs _]; (split; [by apply stops_app_logs|done]).
Qed.

(** A request: the event, then what the collaborator answered. *)
Lemma failStop_request {A} ev (r : Result A) :
  (is_ok r = true -> ~ rej ev) ->
  failStop rej (bind (emit ev) (fun _ => lift r)).
Proof.
  intros Hr. unfold failStop, events, result. destruct r as [a|err]; simpl.
  - split; [apply stops_last|]. intros _. constructor; [by apply Hr|constructor].
  - split; [apply stops_last|done].
Qed.

End fail_stop_rules.

Section fail_stop_steps.
Import CCIP CCIPNotions.

Variable chain : Chain.
Variable rmnHome : option RMNHomeBinding.

Lemma rejected_log ev : isLog ev = true -> ~ rejected chain rmnHome ev.
Proof. intros Hlog. destruct ev; try discriminate Hlog. by intros []. Qed.

Lemma chainConfirm_failStop tx :
  failStop (rejected chain rmnHome) (chainConfirm chain tx).
Proof.
  apply failStop_request. simpl. intros ->. done.
Qed.

Lemma send_failStop to call :
  failStop (rejected chain rmnHome) (send chain to call).
Proof.
  unfold send, failStop, events, result. cbn.
  destruct (Sends chain to call) as [[]|err] eqn:Hs; cbn.
  - split; [apply stops_last|]. intros _. constructor; [|constructor].
    simpl. by rewrite Hs.
  - split; [apply stops_last|done].
Qed.

Lemma DeployContract_failStop tv args :
  failStop (rejected chain rmnHome)
    (DeployContract chain (deployClosure tv args)).
Proof.
  unfold DeployContract, deployClosure, chainConfirm, failStop, events, result.
  cbn [bind emit]. destruct (Deploys chain tv args) as [addr|err] eqn:Hd; cbn.
  - assert (Hnd : ~ rejected chain rmnHome (DeployTx (Selector chain) tv args))
      by (simpl; by rewrite Hd).
    destruct (Confirm chain (TxDeploy tv args)) as [[]|err] eqn:Hc; cbn.
    + assert (Hnc : ~ rejected chain rmnHome
                      (WaitConfirm (Selector chain) (TxDeploy tv args)))
        by (simpl; by rewrite Hc).
      split.
      * apply stops_cons_ok; [done|]. apply stops_cons_ok; [done|].
        apply stops_last.
      * intros _. repeat constructor; first [done | by intros []].
    + split; [|done]. apply stops_cons_ok; [done|]. apply stops_last.
  - split; [apply stops_last|done].
Qed.

End fail_stop_steps.

(** One step of a proof that a computation is fail-stop. *)
Ltac failStop_step tac :=
  lazymatch goal with
  | |- CCIPNotions.failStop ?r (CCIP.DeployContract _ _) => apply DeployContract_failStop
  | |- CCIPNotions.failStop ?r (CCIP.send _ _ _) => apply send_failStop
  | |- CCIPNotions.failStop ?r (CCIP.chainConfirm _ _) => apply chainConfirm_failStop
  | |- CCIPNotions.failStop ?r (CCIP.log _ _) => apply failStop_log; apply rejected_log
  | |- CCIPNotions.failStop ?r (bind (emit _) (fun _ => lift _)) =>
      apply failStop_request; tac
  | |- CCIPNotions.failStop ?r (bind _ _) => apply failStop_bind; [|intros ?]
  | |- CCIPNotions.failStop ?r (on_error_do _ _ _) =>
      apply failStop_on_error_do; [apply rejected_log|by repeat constructor|]
  | |- CCIPNotions.failStop ?r (on_error _ _) => apply failStop_on_error
  | |- CCIPNotions.failStop ?r (ret _) => apply failStop_ret
  | |- CCIPNotions.failStop ?r (fail _) => apply failStop_fail
  | |- CCIPNotions.failStop ?r (lift _) => apply failStop_lift
  | |- CCIPNotions.failStop _ (match ?x with _ => _ end) => destruct x eqn:?
  end.

Section ccip_fail_stop.
Import CCIP CCIPSpec CCIPNotions.

Variable LoadOnchainState : Environment -> Result CCIPOnChainState.
Variable DeployUSDC : Chain -> Address -> Address -> M Event USDCContracts.

(** X20.  [deployPrerequisiteContracts] is fail-stop and swallows no
    failure.  Once the chain has turned down a request of the run, be it a
    deployment, a transaction, a confirmation or the registry-module read,
    the run makes no further request: only log lines follow.  And when the
    run returns nil, no request of it was turned down.  (For a stablecoin
    chain, provided the stablecoin deployer behaves so.) *)
Theorem deployPrerequisiteContracts_fail_stop e state chain opts :
  (Selector chain ∈ USDCEnabledChains (applyPrerequisiteOpts opts) ->
   forall rmnProxy r,
     failStop (rejected chain None) (DeployUSDC chain rmnProxy r)) ->
  (forall pre ev post,
     events (deployPrerequisiteContracts DeployUSDC e state chain opts)
     = pre ++ ev :: post ->
     rejected chain None ev ->
     Forall (fun ev => isLog ev = true) post) /\
  (result (deployPrerequisiteContracts DeployUSDC e state chain opts) = Ok tt ->
   Forall (fun ev => ~ rejected chain None ev)
     (events (deployPrerequisiteContracts DeployUSDC e state chain opts))).
Proof.
  intros Husdc.
  cut (failStop (rejected chain None)
         (deployPrerequisiteContracts DeployUSDC e state chain opts)).
  { intros [Hs Hok]. split; [exact Hs|]. intros Hr. apply Hok. by rewrite Hr. }
  unfold deployPrerequisiteContracts. cbv zeta.
  repeat first
    [ failStop_step ltac:(idtac; simpl; by intros ->)
    | apply Husdc; eapply bool_decide_eq_true_1; eassumption ].
Qed.

(** X21.  [deployChainContracts] is fail-stop and swallows no failure.
    Once a request of the run has been turned down, be it a deployment, a
    transaction or a confirmation on the chain or the read of the active
    digest on RMNHome, the run makes no further request: only log lines
    follow.  And when the run returns nil, no request of it was turned
    down. *)
Theorem deployChainContracts_fail_stop e chain rmnHome :
  (forall pre ev post,
     events (deployChainContracts LoadOnchainState e chain rmnHome)
     = pre ++ ev :: post ->
     rejected chain (Some rmnHome) ev ->
     Forall (fun ev => isLog ev = true) post) /\
  (result (deployChainContracts LoadOnchainState e chain rmnHome) = Ok tt ->
   Forall (fun ev => ~ rejected chain (Some rmnHome) ev)
     (events (deployChainContracts LoadOnchainState e chain rmnHome))).
Proof.
  cut (failStop (rejected chain (Some rmnHome))
         (deployChainContracts LoadOnchainState e chain rmnHome)).
  { intros [Hs Hok]. split; [exact Hs|]. intros Hr. apply Hok. by rewrite Hr. }
  unfold deployChainContracts, ConfirmIfNoError.
  repeat failStop_step ltac:(idtac; simpl; by intros ->).
Qed.

End ccip_fail_stop.

Section ccip_fail_stop_witnesses.
Import CCIP CCIPSpec CCIPNotions CCIPSamples.

Lemma deployPrerequisiteContracts_fail_stop_witness :
  Forall (fun ev => isLog ev = true) [Log Error "Failed to deploy mock RMN"].
Proof.
  destruct (deployPrerequisiteContracts_fail_stop modelDeployUSDC twoChainEnv
              twoChainState
              (faultyChain 2 300 (NewTypeAndVersion MockRMN Version1_0_0)) [])
    as [Hstop _].
  - intros Hin. vm_compute in Hin. by apply elem_of_nil in Hin.
  - apply (Hstop [] (DeployTx 2 (NewTypeAndVersion MockRMN Version1_0_0) [])
             [Log Error "Failed to deploy mock RMN"]).
    + vm_compute. reflexivity.
    + reflexivity.
Defined.

End ccip_fail_stop_witnesses.

(** ** The wiring of [deployChainContracts], wherever the run ends *)

(** A line that a part of a computation cannot have written was written
    after that part had returned. *)
Lemma reach_pass {A B} (m : M CCIP.Event A) (k : A -> M CCIP.Event B)
    (mark : CCIP.Event) :
  emits (Forall (fun ev => ev <> mark)) m ->
  mark ∈ events (bind m k) ->
  exists a, result m = Ok a /\ mark ∈ events (k a).
Proof.
  unfold emits. destruct m as [[a|err] t]; simpl.
  - destruct (k a) as [r t'] eqn:Hk. simpl. intros Hall Hin.
    exists a. split; [done|]. rewrite Hk. simpl.
    apply elem_of_app in Hin as [Hin|Hin]; [|done].
    rewrite Forall_forall in Hall. by destruct (Hall _ Hin).
  - intros Hall Hin. rewrite Forall_forall in Hall. by destruct (Hall _ Hin).
Qed.

(** A line that a part writes only when it returns without error. *)
Lemma reach_hit {A B} (m : M CCIP.Event A) (k : A -> M CCIP.Event B)
    (mark : CCIP.Event) :
  (forall err, result m = Err err -> Forall (fun ev => ev <> mark) (events m)) ->
  mark ∈ events (bind m k) ->
  exists a, result m = Ok a.
Proof.
  destruct m as [[a|err] t]; simpl; [by eauto|].
  intros Hall Hin. specialize (Hall err eq_refl).
  rewrite Forall_forall in Hall. by destruct (Hall _ Hin).
Qed.

(** What a part returned when the whole returned without error. *)
Lemma result_bind_after {E A B} (m : M E A) (k : A -> M E B) a b :
  result m = Ok a -> result (bind m k) = Ok b -> result (k a) = Ok b.
Proof. destruct m as [[a'|err] t]; simpl; [|done]. intros [= ->]. by destruct (k a). Qed.

Section ccip_wiring_reached.
Import CCIP CCIPSpec CCIPNotions.

Variable LoadOnchainState : Environment -> Result CCIPOnChainState.

Lemma wiring_event chain to call evs f :
  SendTx (Selector chain) to call
  ∈ events (on_error_do evs f (ConfirmIfNoError chain (send chain to call))).
Proof.
  apply events_on_error_do_prefix. unfold ConfirmIfNoError, send.
  do 2 apply events_bind_prefix. by apply list_elem_of_singleton.
Qed.

(** What an "existing or freshly deployed" step hands on when the state
    has the contract. *)
Lemma step_existing (existing : option Address) (deploy : M Event Address)
    (msg : string) a r :
  existing = Some r ->
  result (match existing with
          | None => deploy
          | Some x => bind (log Info msg) (fun _ => ret x)
          end) = Ok a ->
  a = r.
Proof. intros -> H. simpl in H. congruence. Qed.

(** A wiring step that went through. *)
Lemma wiring_result chain to call evs f :
  Sends chain to call = Ok tt ->
  Confirm chain (TxCall to call) = Ok tt ->
  result (on_error_do evs f (ConfirmIfNoError chain (send chain to call))) = Ok tt.
Proof.
  intros Hs Hc. unfold ConfirmIfNoError, send, chainConfirm.
  cbn [bind emit lift]. rewrite Hs. cbn. by rewrite Hc.
Qed.

(** An "existing or freshly deployed" step that ends in an error has
    written no information line. *)
Lemma step_failed_unmarked chain (existing : option Address) tv args
    (failed deployed found mark : string) err :
  result (match existing with
          | None =>
              bind (on_error_do [Log Error failed] id
                      (DeployContract chain (deployClosure tv args)))
                (fun x => bind (emit (Log Info deployed)) (fun _ => ret x))
          | Some x => bind (emit (Log Info found)) (fun _ => ret x)
          end) = Err err ->
  Forall (fun ev => ev <> Log Info mark)
    (events (match existing with
             | None =>
                 bind (on_error_do [Log Error failed] id
                         (DeployContract chain (deployClosure tv args)))
                   (fun x => bind (emit (Log Info deployed)) (fun _ => ret x))
             | Some x => bind (emit (Log Info found)) (fun _ => ret x)
             end)).
Proof.
  destruct existing as [x|]; [done|].
  pose proof (DeployContract_emits (fun ev => ev <> Log Info mark)
                chain tv args) as Hall.
  unfold emits in Hall.
  destruct (DeployContract chain (deployClosure tv args)) as [[a|err'] t];
    [done|].
  intros _. specialize (Hall ltac:(done) ltac:(done) ltac:(done)).
  destruct err'; simpl; rewrite ?Forall_app; repeat split;
    by repeat constructor.
Qed.

Ltac unmarked :=
  unfold ConfirmIfNoError; emits_walk ltac:(kind_leaf ltac:(done)).

Ltac pass H a Hm :=
  apply reach_pass in H as (a & Hm & H); [cbv beta in H|unmarked].

Ltac skip Hm :=
  eapply events_bind_suffix; [exact Hm|]; cbv beta.

Ltac no_run :=
  let H := fresh in intros H; by apply elem_of_nil in H.

Ltac no_run_either :=
  let H := fresh in intros [H|H]; by apply elem_of_nil in H.

(** The RMN wiring is made by every run that comes to it, however the run
    goes on. *)
Lemma deployChainContracts_wires_RMN e chain rmnHome state cs :
  LoadOnchainState e = Ok state ->
  StateChains state !! Selector chain = Some cs ->
  reachesRMNWiring
    (events (deployChainContracts LoadOnchainState e chain rmnHome)) ->
  exists activeDigest rmnRemote,
    ReadsGetActiveDigest rmnHome = Ok activeDigest /\
    (forall a, StRMNRemote cs = Some a -> rmnRemote = a) /\
    SendTx (Selector chain) rmnRemote
      (SetConfig activeDigest [(0%N, addressByte1)] 0)
      ∈ events (deployChainContracts LoadOnchainState e chain rmnHome).
Proof.
  intros Hload Hcs. unfold reachesRMNWiring, deployChainContracts, log.
  rewrite Hload, bind_load, Hcs.
  destruct (StWeth9 cs) as [weth9|]; [|no_run].
  destruct (StTimelock cs) as [timelock|]; [|no_run].
  destruct (StLinkToken cs) as [link|]; [|no_run].
  destruct (StTokenAdminRegistry cs) as [tar|]; [|no_run].
  destruct (bool_decide (StRegistryModule cs = None)); [no_run|].
  destruct (bool_decide (StRouter cs = None)); [no_run|].
  intros H.
  pass H u1 Hm1. pass H rmnRemote Hm2. pass H digest Hm3.
  exists digest, rmnRemote. split_and!.
  - by apply read_step_inv in Hm3.
  - intros a Ha. by eapply step_existing.
  - skip Hm1. skip Hm2. skip Hm3.
    eapply events_bind_suffix; [reflexivity|].
    apply events_bind_prefix. apply wiring_event.
Qed.

(** So are the authorized-caller updates: the one on the fee quoter by
    every run that comes to it, the one on the nonce manager by every run in
    which the first has gone through. *)
Lemma deployChainContracts_wires_callers e chain rmnHome state cs :
  LoadOnchainState e = Ok state ->
  StateChains state !! Selector chain = Some cs ->
  reachesCallerWiring
    (events (deployChainContracts LoadOnchainState e chain rmnHome)) ->
  exists nonceManager feeQuoter onRamp offRamp,
    (forall a, StNonceManager cs = Some a -> nonceManager = a) /\
    (forall a, StFeeQuoter cs = Some a -> feeQuoter = a) /\
    (forall a, StOnRamp cs = Some a -> onRamp = a) /\
    (forall a, StOffRamp cs = Some a -> offRamp = a) /\
    SendTx (Selector chain) feeQuoter
      (ApplyAuthorizedCallerUpdates [offRamp; DeployerKey chain])
      ∈ events (deployChainContracts LoadOnchainState e chain rmnHome) /\
    (Sends chain feeQuoter
       (ApplyAuthorizedCallerUpdates [offRamp; DeployerKey chain]) = Ok tt ->
     Confirm chain
       (TxCall feeQuoter
          (ApplyAuthorizedCallerUpdates [offRamp; DeployerKey chain])) = Ok tt ->
     SendTx (Selector chain) nonceManager
       (ApplyAuthorizedCallerUpdates [offRamp; onRamp])
       ∈ events (deployChainContracts LoadOnchainState e chain rmnHome)) /\
    (result (deployChainContracts LoadOnchainState e chain rmnHome) = Ok tt ->
     SendTx (Selector chain) nonceManager
       (ApplyAuthorizedCallerUpdates [offRamp; onRamp])
       ∈ events (deployChainContracts LoadOnchainState e chain rmnHome)).
Proof.
  intros Hload Hcs. unfold reachesCallerWiring, deployChainContracts, log.
  rewrite Hload, bind_load, Hcs.
  destruct (StWeth9 cs) as [weth9|]; [|no_run_either].
  destruct (StTimelock cs) as [timelock|]; [|no_run_either].
  destruct (StLinkToken cs) as [link|]; [|no_run_either].
  destruct (StTokenAdminRegistry cs) as [tar|]; [|no_run_either].
  destruct (bool_decide (StRegistryModule cs = None)); [no_run_either|].
  destruct (bool_decide (StRouter cs = None)); [no_run_either|].
  intros [H|H].
  all: pass H u1 Hm1; pass H rmnRemote Hm2; pass H digest Hm3; pass H u4 Hm4;
    pass H u5 Hm5; pass H rmnProxy Hm6; pass H u7 Hm7; pass H nm Hm8;
    pass H fq Hm9; pass H onRamp Hm10.
  all: (apply reach_hit in H as (offRamp & Hm11);
        [|intros err; apply step_failed_unmarked]).
  all: exists nm, fq, onRamp, offRamp; split_and!;
    [ intros a Ha; by eapply step_existing
    | intros a Ha; by eapply step_existing
    | intros a Ha; by eapply step_existing
    | intros a Ha; by eapply step_existing
    | | intros Hsent Hconfirmed | intros Hok ].
  all: try (do 11 (eapply result_bind_after in Hok; [|eassumption]);
            apply result_bind_inv in Hok as ([] & Hok & _)).
  all: skip Hm1; skip Hm2; skip Hm3; skip Hm4; skip Hm5; skip Hm6; skip Hm7;
    skip Hm8; skip Hm9; skip Hm10; skip Hm11.
  all: try (eapply events_bind_suffix; [exact Hok|]).
  all: try (eapply events_bind_suffix; [by apply wiring_result|]).
  all: apply events_bind_prefix; apply wiring_event.
Qed.

Ltac next_step H a Hm :=
  apply result_bind_inv in H as (a & Hm & H); cbv beta in H.

(** A run that returns nil has come to both. *)
Lemma deployChainContracts_done_reached e chain rmnHome state cs :
  LoadOnchainState e = Ok state ->
  StateChains state !! Selector chain = Some cs ->
  result (deployChainContracts LoadOnchainState e chain rmnHome) = Ok tt ->
  reachesRMNWiring
    (events (deployChainContracts LoadOnchainState e chain rmnHome)) /\
  reachesCallerWiring
    (events (deployChainContracts LoadOnchainState e chain rmnHome)).
Proof.
  intros Hload Hcs. unfold reachesRMNWiring, reachesCallerWiring.
  unfold deployChainContracts, log.
  rewrite Hload, bind_load, Hcs.
  destruct (StWeth9 cs) as [weth9|]; [|done].
  destruct (StTimelock cs) as [timelock|]; [|done].
  destruct (StLinkToken cs) as [link|]; [|done].
  destruct (StTokenAdminRegistry cs) as [tar|]; [|done].
  destruct (bool_decide (StRegistryModule cs = None)); [done|].
  destruct (bool_decide (StRouter cs = None)); [done|].
  intros H.
  next_step H u1 Hm1. next_step H rmnRemote Hm2. next_step H digest Hm3.
  next_step H u4 Hm4. next_step H u5 Hm5. next_step H rmnProxy Hm6.
  next_step H u7 Hm7. next_step H nm Hm8. next_step H fq Hm9.
  next_step H onRamp Hm10. next_step H offRamp Hm11.
  split.
  - skip Hm1. skip Hm2. skip Hm3.
    apply events_bind_prefix. by apply list_elem_of_singleton.
  - destruct (StOffRamp cs) as [existing|].
    + right. skip Hm1. skip Hm2. skip Hm3. skip Hm4. skip Hm5. skip Hm6.
      skip Hm7. skip Hm8. skip Hm9. skip Hm10.
      do 2 apply events_bind_prefix. by apply list_elem_of_singleton.
    + left. skip Hm1. skip Hm2. skip Hm3. skip Hm4. skip Hm5. skip Hm6.
      skip Hm7. skip Hm8. skip Hm9. skip Hm10.
      apply events_bind_prefix.
      apply result_bind_inv in Hm11 as (a & Hdeployed & _).
      skip Hdeployed.
      apply events_bind_prefix. by apply list_elem_of_singleton.
Qed.

(** With every contract in the state, the run comes to the RMN wiring as
    soon as the active digest can be read, and to the authorized-caller
    updates as soon as [SetConfig] has gone through. *)
Lemma deployChainContracts_present_reaches e chain rmnHome state cs
    activeDigest rmnRemote :
  LoadOnchainState e = Ok state ->
  StateChains state !! Selector chain = Some cs ->
  readyForChainContracts cs ->
  chainContractsPresent cs ->
  ReadsGetActiveDigest rmnHome = Ok activeDigest ->
  StRMNRemote cs = Some rmnRemote ->
  reachesRMNWiring
    (events (deployChainContracts LoadOnchainState e chain rmnHome)) /\
  (Sends chain rmnRemote (SetConfig activeDigest [(0%N, addressByte1)] 0)
   = Ok tt ->
   Confirm chain
     (TxCall rmnRemote (SetConfig activeDigest [(0%N, addressByte1)] 0))
   = Ok tt ->
   reachesCallerWiring
     (events (deployChainContracts LoadOnchainState e chain rmnHome))).
Proof.
  intros Hload Hcs ([weth9 Hw] & [timelock Ht] & [link Hl] & [tar Hr]
                    & [module Hm] & [router Ho])
    ([a1 H1] & [a2 H2] & [a3 H3] & [a4 H4] & [a5 H5] & [a6 H6] & [a7 H7]
     & [a8 H8]) Hdigest Hremote.
  rewrite H2 in Hremote. injection Hremote as ->.
  unfold reachesRMNWiring, reachesCallerWiring, deployChainContracts, log.
  rewrite Hload, bind_load, Hcs, Hw, Ht, Hl, Hr, Hm, Ho.
  rewrite !bool_decide_eq_false_2 by done.
  rewrite H1, H2, H3, H4, H5, H6, H7, H8, Hdigest.
  split.
  - do 3 (eapply events_bind_suffix; [reflexivity|]).
    apply events_bind_prefix. by apply list_elem_of_singleton.
  - intros Hsent Hconfirmed. right.
    do 4 (eapply events_bind_suffix; [reflexivity|]).
    eapply events_bind_suffix; [by apply wiring_result|].
    do 5 (eapply events_bind_suffix; [reflexivity|]).
    do 2 apply events_bind_prefix. by apply list_elem_of_singleton.
Qed.

(** C10.  [deployChainContracts] makes its wiring calls on every run that
    comes to them, whatever the state holds and however the run goes on.
    A run that comes to the RMN wiring has read the active digest of
    RMNHome and has sent [SetConfig] with that digest to the RMNRemote.  A
    run that comes to the authorized-caller updates has sent the update to
    the fee quoter, and the update to the nonce manager as well if the
    first has gone through.  The calls go to the contracts of the state
    where the state has them.  A run that returns nil has come to both
    places and made all three calls.  When the state has every contract,
    the run deploys and saves nothing and still comes to the wiring, to
    [SetConfig] as soon as the digest can be read and to the updates as
    soon as [SetConfig] has gone through: no look at what is configured
    already stands before the calls. *)
Theorem deployChainContracts_always_wires e chain rmnHome state cs :
  LoadOnchainState e = Ok state ->
  StateChains state !! Selector chain = Some cs ->
  let run := deployChainContracts LoadOnchainState e chain rmnHome in
  (reachesRMNWiring (events run) ->
   exists activeDigest rmnRemote,
     ReadsGetActiveDigest rmnHome = Ok activeDigest /\
     (forall a, StRMNRemote cs = Some a -> rmnRemote = a) /\
     SendTx (Selector chain) rmnRemote
       (SetConfig activeDigest [(0%N, addressByte1)] 0) ∈ events run) /\
  (reachesCallerWiring (events run) ->
   exists nonceManager feeQuoter onRamp offRamp,
     (forall a, StNonceManager cs = Some a -> nonceManager = a) /\
     (forall a, StFeeQuoter cs = Some a -> feeQuoter = a) /\
     (forall a, StOnRamp cs = Some a -> onRamp = a) /\
     (forall a, StOffRamp cs = Some a -> offRamp = a) /\
     SendTx (Selector chain) feeQuoter
       (ApplyAuthorizedCallerUpdates [offRamp; DeployerKey chain])
       ∈ events run /\
     (Sends chain feeQuoter
        (ApplyAuthorizedCallerUpdates [offRamp; DeployerKey chain]) = Ok tt ->
      Confirm chain
        (TxCall feeQuoter
           (ApplyAuthorizedCallerUpdates [offRamp; DeployerKey chain])) = Ok tt ->
      SendTx (Selector chain) nonceManager
        (ApplyAuthorizedCallerUpdates [offRamp; onRamp]) ∈ events run) /\
     (result run = Ok tt ->
      SendTx (Selector chain) nonceManager
        (ApplyAuthorizedCallerUpdates [offRamp; onRamp]) ∈ events run)) /\
  (result run = Ok tt ->
   reachesRMNWiring (events run) /\ reachesCallerWiring (events run)) /\
  (chainContractsPresent cs ->
   Forall quiet (events run) /\
   (readyForChainContracts cs ->
    forall activeDigest rmnRemote,
      ReadsGetActiveDigest rmnHome = Ok activeDigest ->
      StRMNRemote cs = Some rmnRemote ->
      reachesRMNWiring (events run) /\
      (Sends chain rmnRemote
         (SetConfig activeDigest [(0%N, addressByte1)] 0) = Ok tt ->
       Confirm chain
         (TxCall rmnRemote
            (SetConfig activeDigest [(0%N, addressByte1)] 0)) = Ok tt ->
       reachesCallerWiring (events run)))).
Proof.
  intros Hload Hcs run. split_and!.
  - by apply (deployChainContracts_wires_RMN e chain rmnHome state cs).
  - by apply (deployChainContracts_wires_callers e chain rmnHome state cs).
  - by apply (deployChainContracts_done_reached e chain rmnHome state cs).
  - intros Hpresent. split.
    + by apply (deployChainContracts_skips_existing LoadOnchainState e chain
                  rmnHome state cs).
    + intros Hready activeDigest rmnRemote Hdigest Hremote.
      by apply (deployChainContracts_present_reaches e chain rmnHome state cs).
Qed.

End ccip_wiring_reached.

Section ccip_wiring_witnesses.
Import CCIP CCIPSpec CCIPNotions CCIPSamples.

Lemma deployChainContracts_always_wires_witness :
  (SendTx 1 142%N (SetConfig 48879%N [(0%N, addressByte1)] 0)
     ∈ events (deployChainContracts loadThreeChainState threeChainEnv
                 (healthyChain 1 200 true) sampleRMNHome)
   /\ SendTx 1 145%N (ApplyAuthorizedCallerUpdates [147%N; 17%N])
     ∈ events (deployChainContracts loadThreeChainState threeChainEnv
                 (healthyChain 1 200 true) sampleRMNHome)
   /\ SendTx 1 144%N (ApplyAuthorizedCallerUpdates [147%N; 146%N])
     ∈ events (deployChainContracts loadThreeChainState threeChainEnv
                 (healthyChain 1 200 true) sampleRMNHome)
   /\ Forall quiet
        (events (deployChainContracts loadThreeChainState threeChainEnv
                   (healthyChain 1 200 true) sampleRMNHome)))
  /\
  (is_ok (result (deployChainContracts loadThreeChainState threeChainEnv
                    (faultyChain 2 300
                       (NewTypeAndVersion OffRamp Version1_6_0_dev))
                    sampleRMNHome)) = false
   /\ exists rmnRemote,
        SendTx 2 rmnRemote (SetConfig 48879%N [(0%N, addressByte1)] 0)
        ∈ events (deployChainContracts loadThreeChainState threeChainEnv
                    (faultyChain 2 300
                       (NewTypeAndVersion OffRamp Version1_6_0_dev))
                    sampleRMNHome)).
Proof.
  split.
  - destruct (deployChainContracts_always_wires loadThreeChainState
                threeChainEnv (healthyChain 1 200 true) sampleRMNHome
                threeChainState homeDeployed)
      as (Hrmn & Hcallers & _ & Hpresent); [reflexivity|by vm_compute|].
    destruct Hpresent as [Hquiet Hreach]; [repeat split; eauto|].
    destruct (Hreach ltac:(repeat split; eauto) 48879%N 142%N eq_refl eq_refl)
      as [Hreached Hthen].
    destruct (Hrmn Hreached) as (digest & rmnRemote & Hdigest & Hremote & Hset).
    destruct (Hcallers (Hthen eq_refl eq_refl))
      as (nm & fq & onRamp & offRamp & Hnm & Hfq & Hon & Hoff & Hfqa & Hnma & _).
    injection Hdigest as <-.
    rewrite (Hremote 142%N eq_refl) in Hset.
    rewrite (Hnm 144%N eq_refl), (Hfq 145%N eq_refl), (Hon 146%N eq_refl),
      (Hoff 147%N eq_refl) in *.
    split_and!; [exact Hset|exact Hfqa|by apply Hnma|exact Hquiet].
  - split; [by vm_compute|].
    destruct (deployChainContracts_always_wires loadThreeChainState
                threeChainEnv
                (faultyChain 2 300 (NewTypeAndVersion OffRamp Version1_6_0_dev))
                sampleRMNHome threeChainState prerequisitesDeployed)
      as (Hrmn & _); [reflexivity|by vm_compute|].
    destruct Hrmn as (digest & rmnRemote & Hdigest & _ & Hset).
    { unfold reachesRMNWiring. vm_compute. repeat constructor. }
    injection Hdigest as <-. by exists rmnRemote.
Defined.

End ccip_wiring_witnesses.

(** ** The order of deployment and what each contract is built from *)

Section ccip_runs.
Import CCIP CCIPSpec CCIPNotions.

Variable LoadOnchainState : Environment -> Result CCIPOnChainState.
Variable DeployUSDC : Chain -> Address -> Address -> M Event USDCContracts.

Lemma deployments_app t1 t2 :
  deployments (t1 ++ t2) = deployments t1 ++ deployments t2.
Proof. unfold deployments. apply omap_app. Qed.

(** On a chain where every request goes through, a deployment step hands
    on the address the chain deployed at. *)
Lemma DeployContract_healthy chain tv args :
  healthy chain ->
  DeployContract chain (deployClosure tv args)
  = (Ok (deployedAt chain tv args),
     [DeployTx (Selector chain) tv args;
      WaitConfirm (Selector chain) (TxDeploy tv args);
      Save (Selector chain) (deployedAt chain tv args) tv]).
Proof.
  intros (Hd & _ & Hc & _).
  unfold DeployContract, deployClosure, chainConfirm, deployedAt.
  cbn [bind emit]. specialize (Hd tv args).
  destruct (Deploys chain tv args) as [addr|err]; [|done]. cbn.
  by rewrite Hc.
Qed.

Lemma send_healthy chain to call :
  healthy chain ->
  send chain to call = (Ok (TxCall to call), [SendTx (Selector chain) to call]).
Proof. intros (_ & Hs & _). unfold send. cbn. by rewrite Hs. Qed.

Lemma chainConfirm_healthy chain tx :
  healthy chain ->
  chainConfirm chain tx = (Ok tt, [WaitConfirm (Selector chain) tx]).
Proof. intros (_ & _ & Hc & _). unfold chainConfirm. cbn. by rewrite Hc. Qed.

(** Runs that return: a computation with its value and its events. *)
Lemma run_bind {A B} (m : M Event A) (k : A -> M Event B) a t1 b t2 :
  m = (Ok a, t1) -> k a = (Ok b, t2) -> bind m k = (Ok b, t1 ++ t2).
Proof. intros -> Hk. simpl. by rewrite Hk. Qed.

Lemma run_on_error_do {A} evs f (m : M Event A) a t :
  m = (Ok a, t) -> on_error_do evs f m = (Ok a, t).
Proof. by intros ->. Qed.

Lemma run_lift {A} (r : Result A) a : r = Ok a -> @lift Event A r = (Ok a, []).
Proof. by intros ->. Qed.

End ccip_runs.

(** A run on a chain where every request goes through, step by step. *)
Ltac run_healthy Hh :=
  cbv beta iota delta [negb];
  lazymatch goal with
  | |- bind _ _ = _ => eapply run_bind; [run_healthy Hh|run_healthy Hh]
  | |- on_error_do _ _ _ = _ => eapply run_on_error_do; run_healthy Hh
  | |- CCIP.DeployContract _ _ = _ => apply (DeployContract_healthy _ _ _ Hh)
  | |- CCIP.ConfirmIfNoError _ _ = _ =>
      unfold CCIP.ConfirmIfNoError; run_healthy Hh
  | |- CCIP.send _ _ _ = _ => apply (send_healthy _ _ _ Hh)
  | |- CCIP.chainConfirm _ _ = _ => apply (chainConfirm_healthy _ _ Hh)
  | |- lift _ = _ => apply run_lift; eassumption
  | |- _ => first [reflexivity | eassumption]
  end.

Section ccip_order.
Import CCIP CCIPSpec CCIPNotions.

Variable LoadOnchainState : Environment -> Result CCIPOnChainState.
Variable DeployUSDC : Chain -> Address -> Address -> M Event USDCContracts.

(** X22.  On a chain the state does not know, where every request goes
    through, [deployPrerequisiteContracts] succeeds and deploys, in this
    order: the mock RMN; the RMN proxy, built from the mock RMN; the token
    admin registry; the registry module, built from the token admin
    registry; WETH9; the LINK token; the router, built from WETH9 and the
    RMN proxy; Multicall3, if asked for; and, on a chain with stablecoin
    support, what the stablecoin deployer deploys when it is handed the RMN
    proxy and the router of this run, provided it returns without error. *)
Theorem deployPrerequisiteContracts_deployment_order e state chain opts :
  let rmn := deployedAt chain (NewTypeAndVersion MockRMN Version1_0_0) [] in
  let rmnProxy :=
    deployedAt chain (NewTypeAndVersion ARMProxy Version1_0_0) [rmn] in
  let tokenAdminReg :=
    deployedAt chain (NewTypeAndVersion TokenAdminRegistry Version1_5_0) [] in
  let weth9 := deployedAt chain (NewTypeAndVersion WETH9 Version1_0_0) [] in
  let router :=
    deployedAt chain (NewTypeAndVersion Router Version1_2_0) [weth9; rmnProxy] in
  let stablecoin :=
    bool_decide (Selector chain ∈ USDCEnabledChains (applyPrerequisiteOpts opts)) in
  healthy chain ->
  StateChains state !! Selector chain = None ->
  (stablecoin = true ->
   is_ok (result (DeployUSDC chain rmnProxy router)) = true) ->
  result (deployPrerequisiteContracts DeployUSDC e state chain opts) = Ok tt /\
  deployments
    (events (deployPrerequisiteContracts DeployUSDC e state chain opts))
  = [ (NewTypeAndVersion MockRMN Version1_0_0, []);
      (NewTypeAndVersion ARMProxy Version1_0_0, [rmn]);
      (NewTypeAndVersion TokenAdminRegistry Version1_5_0, []);
      (NewTypeAndVersion RegistryModule Version1_5_0, [tokenAdminReg]);
      (NewTypeAndVersion WETH9 Version1_0_0, []);
      (NewTypeAndVersion LinkToken Version1_0_0, []);
      (NewTypeAndVersion Router Version1_2_0, [weth9; rmnProxy]) ]
    ++ (if Multicall3Enabled (applyPrerequisiteOpts opts)
        then [ (NewTypeAndVersion Multicall3 Version1_0_0, []) ] else [])
    ++ (if stablecoin
        then deployments (events (DeployUSDC chain rmnProxy router)) else []).
Proof.
  intros rmn rmnProxy tokenAdminReg weth9 router stablecoin Hh Hcs Husdc.
  pose proof Hh as (_ & _ & _ & Hread).
  specialize (Hread tokenAdminReg
    (deployedAt chain (NewTypeAndVersion RegistryModule Version1_5_0)
       [tokenAdminReg])).
  destruct (ReadsIsRegistryModule chain _ _) as [added|] eqn:Hadded; [|done].
  clear Hread.
  cut (exists t,
         deployPrerequisiteContracts DeployUSDC e state chain opts = (Ok tt, t) /\
         deployments t
         = [ (NewTypeAndVersion MockRMN Version1_0_0, []);
             (NewTypeAndVersion ARMProxy Version1_0_0, [rmn]);
             (NewTypeAndVersion TokenAdminRegistry Version1_5_0, []);
             (NewTypeAndVersion RegistryModule Version1_5_0, [tokenAdminReg]);
             (NewTypeAndVersion WETH9 Version1_0_0, []);
             (NewTypeAndVersion LinkToken Version1_0_0, []);
             (NewTypeAndVersion Router Version1_2_0, [weth9; rmnProxy]) ]
           ++ (if Multicall3Enabled (applyPrerequisiteOpts opts)
               then [ (NewTypeAndVersion Multicall3 Version1_0_0, []) ] else [])
           ++ (if stablecoin
               then deployments (events (DeployUSDC chain rmnProxy router))
               else [])).
  { intros (t & -> & Ht). by split. }
  unfold deployPrerequisiteContracts, log. cbv zeta.
  rewrite Hcs. rewrite bool_decide_eq_false_2 by (by intros [? ?]).
  fold stablecoin. cbv iota.
  rewrite (bool_decide_eq_true_2 (None = None)) by done.
  destruct stablecoin.
  - specialize (Husdc eq_refl).
    destruct (DeployUSDC chain rmnProxy router) as [[usdc|err] tu] eqn:Hrun;
      [clear Husdc|done].
    unfold rmn, rmnProxy, tokenAdminReg, weth9, router in *.
    destruct (Multicall3Enabled (applyPrerequisiteOpts opts)), added;
      cbv beta iota delta [andb];
      (eexists; split; [run_healthy Hh|]);
      rewrite !deployments_app; simpl; by rewrite ?app_nil_r.
  - clear Husdc. unfold rmn, rmnProxy, tokenAdminReg, weth9 in *.
    destruct (Multicall3Enabled (applyPrerequisiteOpts opts)), added;
      cbv beta iota delta [andb];
      (eexists; split; [run_healthy Hh|reflexivity]).
Qed.

(** X23.  On a chain that has its prerequisites and none of the chain
    contracts, where every request goes through and the active digest can
    be read, [deployChainContracts] deploys, in this order: the receiver;
    the RMNRemote; a new RMN proxy, built from the RMNRemote; the test
    router, built from WETH9 and the new proxy; the nonce manager; the fee
    quoter, built from the LINK token, the timelock and WETH9; and the
    OnRamp and the OffRamp, both built from the new proxy, the nonce
    manager, the token admin registry and the fee quoter. *)
Theorem deployChainContracts_deployment_order
    e chain rmnHome state cs weth9 timelock link tokenAdminReg digest :
  healthy chain ->
  LoadOnchainState e = Ok state ->
  StateChains state !! Selector chain = Some cs ->
  StWeth9 cs = Some weth9 ->
  StTimelock cs = Some timelock ->
  StLinkToken cs = Some link ->
  StTokenAdminRegistry cs = Some tokenAdminReg ->
  is_Some (StRegistryModule cs) ->
  is_Some (StRouter cs) ->
  noChainContracts cs ->
  ReadsGetActiveDigest rmnHome = Ok digest ->
  result (deployChainContracts LoadOnchainState e chain rmnHome) = Ok tt /\
  deployments (events (deployChainContracts LoadOnchainState e chain rmnHome))
  = let rmnRemote :=
      deployedAt chain (NewTypeAndVersion RMNRemote Version1_6_0_dev) [] in
    let rmnProxy :=
      deployedAt chain (NewTypeAndVersion ARMProxy Version1_6_0_dev) [rmnRemote] in
    let nonceManager :=
      deployedAt chain (NewTypeAndVersion NonceManager Version1_6_0_dev) [] in
    let feeQuoter :=
      deployedAt chain (NewTypeAndVersion FeeQuoter Version1_6_0_dev)
        [link; timelock; weth9; link; link; weth9] in
    [ (NewTypeAndVersion CCIPReceiver Version1_0_0, []);
      (NewTypeAndVersion RMNRemote Version1_6_0_dev, []);
      (NewTypeAndVersion ARMProxy Version1_6_0_dev, [rmnRemote]);
      (NewTypeAndVersion TestRouter Version1_2_0, [weth9; rmnProxy]);
      (NewTypeAndVersion NonceManager Version1_6_0_dev, []);
      (NewTypeAndVersion FeeQuoter Version1_6_0_dev,
       [link; timelock; weth9; link; link; weth9]);
      (NewTypeAndVersion OnRamp Version1_6_0_dev,
       [rmnProxy; nonceManager; tokenAdminReg; feeQuoter; hexAddress1]);
      (NewTypeAndVersion OffRamp Version1_6_0_dev,
       [rmnProxy; nonceManager; tokenAdminReg; feeQuoter]) ].
Proof.
  intros Hh Hload Hcs Hweth Htl Hlink Htar [rm Hrm] [r Hr]
    (H1 & H2 & H3 & H4 & H5 & H6 & H7 & H8) Hdigest.
  cut (exists t,
         deployChainContracts LoadOnchainState e chain rmnHome = (Ok tt, t) /\
         deployments t
         = [ (NewTypeAndVersion CCIPReceiver Version1_0_0, []);
             (NewTypeAndVersion RMNRemote Version1_6_0_dev, []);
             (NewTypeAndVersion ARMProxy Version1_6_0_dev,
              [deployedAt chain (NewTypeAndVersion RMNRemote Version1_6_0_dev) []]);
             (NewTypeAndVersion TestRouter Version1_2_0,
              [weth9;
               deployedAt chain (NewTypeAndVersion ARMProxy Version1_6_0_dev)
                 [deployedAt chain (NewTypeAndVersion RMNRemote Version1_6_0_dev) []]]);
             (NewTypeAndVersion NonceManager Version1_6_0_dev, []);
             (NewTypeAndVersion FeeQuoter Version1_6_0_dev,
              [link; timelock; weth9; link; link; weth9]);
             (NewTypeAndVersion OnRamp Version1_6_0_dev,
              [deployedAt chain (NewTypeAndVersion ARMProxy Version1_6_0_dev)
                 [deployedAt chain (NewTypeAndVersion RMNRemote Version1_6_0_dev) []];
               deployedAt chain (NewTypeAndVersion NonceManager Version1_6_0_dev) [];
               tokenAdminReg;
               deployedAt chain (NewTypeAndVersion FeeQuoter Version1_6_0_dev)
                 [link; timelock; weth9; link; link; weth9];
               hexAddress1]);
             (NewTypeAndVersion OffRamp Version1_6_0_dev,
              [deployedAt chain (NewTypeAndVersion ARMProxy Version1_6_0_dev)
                 [deployedAt chain (NewTypeAndVersion RMNRemote Version1_6_0_dev) []];
               deployedAt chain (NewTypeAndVersion NonceManager Version1_6_0_dev) [];
               tokenAdminReg;
               deployedAt chain (NewTypeAndVersion FeeQuoter Version1_6_0_dev)
                 [link; timelock; weth9; link; link; weth9]]) ]).
  { intros (t & -> & Ht). by split. }
  unfold deployChainContracts, log.
  rewrite Hload, bind_load, Hcs, Hweth, Htl, Hlink, Htar, Hrm, Hr.
  rewrite !bool_decide_eq_false_2 by done.
  rewrite H1, H2, H3, H4, H5, H6, H7, H8.
  eexists; split; [run_healthy Hh|reflexivity].
Qed.

End ccip_order.

Section ccip_order_witnesses.
Import CCIP CCIPSpec CCIPNotions CCIPSamples.

Lemma deployPrerequisiteContracts_deployment_order_witness :
  deployments
    (events (deployPrerequisiteContracts modelDeployUSDC twoChainEnv
               twoChainState (healthyChain 2 300 false)
               [WithMulticall3 true; WithUSDCChains [2%N]]))
  = [ (NewTypeAndVersion MockRMN Version1_0_0, []);
      (NewTypeAndVersion ARMProxy Version1_0_0, [304%N]);
      (NewTypeAndVersion TokenAdminRegistry Version1_5_0, []);
      (NewTypeAndVersion RegistryModule Version1_5_0, [334%N]);
      (NewTypeAndVersion WETH9 Version1_0_0, []);
      (NewTypeAndVersion LinkToken Version1_0_0, []);
      (NewTypeAndVersion Router Version1_2_0, [320%N; 316%N]);
      (NewTypeAndVersion Multicall3 Version1_0_0, []);
      (NewTypeAndVersion USDCToken Version1_0_0, []);
      (NewTypeAndVersion USDCMockTransmitter Version1_0_0, []);
      (NewTypeAndVersion USDCTokenMessenger Version1_0_0, [400%N]);
      (NewTypeAndVersion USDCTokenPool Version1_0_0,
       [404%N; 396%N; 316%N; 325%N]) ].
Proof.
  destruct (deployPrerequisiteContracts_deployment_order modelDeployUSDC
              twoChainEnv twoChainState (healthyChain 2 300 false)
              [WithMulticall3 true; WithUSDCChains [2%N]]) as [_ Horder].
  - apply healthyChain_healthy.
  - by vm_compute.
  - intros _. by vm_compute.
  - exact Horder.
Defined.

Lemma deployChainContracts_deployment_order_witness :
  deployments
    (events (deployChainContracts loadThreeChainState threeChainEnv
               (healthyChain 2 300 true) sampleRMNHome))
  = [ (NewTypeAndVersion CCIPReceiver Version1_0_0, []);
      (NewTypeAndVersion RMNRemote Version1_6_0_dev, []);
      (NewTypeAndVersion ARMProxy Version1_6_0_dev, [311%N]);
      (NewTypeAndVersion TestRouter Version1_2_0, [105%N; 319%N]);
      (NewTypeAndVersion NonceManager Version1_6_0_dev, []);
      (NewTypeAndVersion FeeQuoter Version1_6_0_dev,
       [103%N; 130%N; 105%N; 103%N; 103%N; 105%N]);
      (NewTypeAndVersion OnRamp Version1_6_0_dev,
       [319%N; 343%N; 108%N; 347%N; 1%N]);
      (NewTypeAndVersion OffRamp Version1_6_0_dev,
       [319%N; 343%N; 108%N; 347%N]) ].
Proof.
  destruct (deployChainContracts_deployment_order loadThreeChainState
              threeChainEnv (healthyChain 2 300 true) sampleRMNHome
              threeChainState prerequisitesDeployed
              105%N 130%N 103%N 108%N 48879%N) as [_ Horder].
  - apply healthyChain_healthy.
  - reflexivity.
  - by vm_compute.
  - reflexivity.
  - reflexivity.
  - reflexivity.
  - reflexivity.
  - by eexists.
  - by eexists.
  - by repeat split.
  - reflexivity.
  - exact Horder.
Defined.

End ccip_order_witnesses.

(** ** The fan-out, chain by chain *)

Section on_chain.
Import CCIP CCIPSpec CCIPNotions.

Lemma onChain_app sel t1 t2 :
  onChain sel (t1 ++ t2) = onChain sel t1 ++ onChain sel t2.
Proof. apply filter_app. Qed.

Lemma onChain_join sel (ls : list (list Event)) :
  onChain sel (mjoin ls) = mjoin (onChain sel <$> ls).
Proof.
  induction ls as [|t ls IH]; [done|]. simpl.
  by rewrite onChain_app, IH.
Qed.

Lemma onChain_elsewhere sel sel' t :
  Forall (localTo sel') t -> sel' <> sel -> onChain sel t = [].
Proof.
  intros Hloc Hne. induction Hloc as [|ev t Hev _ IH]; [done|].
  unfold onChain in *. rewrite filter_cons_False; [done|].
  destruct Hev as [Hev|Hev]; rewrite Hev; congruence.
Qed.

Lemma onChain_on_error_do {A} sel level msg f (m : M Event A) :
  onChain sel (events (on_error_do [Log level msg] f m)) = onChain sel (events m).
Proof.
  destruct m as [[a|[]] t]; simpl; try done;
    by rewrite onChain_app, app_nil_r.
Qed.

Lemma join_nils {X} (ls : list (list X)) : Forall (fun l => l = []) ls -> mjoin ls = [].
Proof. induction 1 as [|l ls -> _ IH]; [done|]. by simpl. Qed.

(** Joining lists of which all but one are empty, in any order. *)
Lemma join_only {X} (ls l1 l2 : list (list X)) (x : list X) :
  ls ≡ₚ l1 ++ x :: l2 ->
  Forall (fun l => l = []) l1 -> Forall (fun l => l = []) l2 ->
  mjoin ls = x.
Proof.
  intros Hperm H1 H2.
  assert (Hx : x ∈ ls).
  { rewrite Hperm. apply elem_of_app. right. by left. }
  apply list_elem_of_split in Hx as (k1 & k2 & ->).
  apply Permutation_app_inv in Hperm.
  assert (Hk : Forall (fun l => l = []) (k1 ++ k2)).
  { rewrite Hperm. by apply Forall_app. }
  apply Forall_app in Hk as [Hk1 Hk2].
  rewrite join_app. simpl.
  by rewrite (join_nils _ Hk1), (join_nils _ Hk2), app_nil_r.
Qed.

End on_chain.

Section ccip_isolation.
Import CCIP CCIPSpec CCIPNotions.

Variable LoadOnchainState : Environment -> Result CCIPOnChainState.
Variable DeployUSDC : Chain -> Address -> Address -> M Event USDCContracts.
Variable NewCCIPHome : Address -> Chain -> Result Address.
Variable CapabilityLabelledName : string.
Variable CapabilityVersion : string.
Variable CCIPCapabilityID : Hash.

(** X24.  The fan-out keeps the chains apart.  When the selectors name
    different chains (and the stablecoin deployer addresses only the chain
    it is handed), what [deployPrerequisiteChainContracts] does on the
    chain of one of its selectors is what [deployPrerequisiteContracts]
    does for that chain, request by request and in that order: it does not
    depend on the order in which the tasks finish, nor on what happens to
    the tasks of the other chains. *)
Theorem prerequisite_fanout_keeps_chains_apart
    finished e selectors opts state sel :
  LoadOnchainState e = Ok state ->
  NoDup ((fun s => Selector (chainOf e s)) <$> selectors) ->
  (forall chain rmnProxy r,
     Forall (localTo (Selector chain)) (events (DeployUSDC chain rmnProxy r))) ->
  finished ≡ₚ seq 0 (length selectors) ->
  sel ∈ selectors ->
  onChain (Selector (chainOf e sel))
    (events (deployPrerequisiteChainContracts LoadOnchainState DeployUSDC
               finished e selectors opts))
  = onChain (Selector (chainOf e sel))
      (events (deployPrerequisiteContracts DeployUSDC e state (chainOf e sel) opts)).
Proof.
  intros Hload Hnd Husdc Hperm Hsel.
  rewrite (deployPrerequisiteChainContracts_joins _ _ _ _ _ _ _ Hload).
  set (task := prerequisiteTask DeployUSDC e state opts).
  set (c := Selector (chainOf e sel)).
  assert (Hown : onChain c (events (task sel))
                 = onChain c (events (deployPrerequisiteContracts DeployUSDC e
                                        state (chainOf e sel) opts))).
  { unfold task, prerequisiteTask. apply onChain_on_error_do. }
  assert (Hother : forall s, Selector (chainOf e s) <> c ->
                     onChain c (events (task s)) = []).
  { intros s Hs. unfold task, prerequisiteTask. rewrite onChain_on_error_do.
    eapply onChain_elsewhere; [|exact Hs].
    apply deployPrerequisiteContracts_local. intros _. apply Husdc. }
  unfold Wait, events at 1. cbn [snd goroutines].
  fold (completionOrder finished (task <$> selectors)).
  rewrite onChain_join, <- Hown.
  apply list_elem_of_split in Hsel as (s1 & s2 & ->).
  rewrite fmap_app, fmap_cons in Hnd.
  apply NoDup_app in Hnd as (_ & Hdisj & Hnd2).
  apply NoDup_cons in Hnd2 as [Hnotin _].
  apply (join_only _ (onChain c <$> (events <$> (task <$> s1)))
           (onChain c <$> (events <$> (task <$> s2)))).
  - rewrite completionOrder_Permutation by (by rewrite length_fmap).
    by rewrite !fmap_app, !fmap_cons.
  - rewrite Forall_fmap, Forall_fmap, Forall_fmap. apply Forall_forall.
    intros s Hs. simpl. apply Hother. intros Heq.
    apply (Hdisj (Selector (chainOf e s))).
    + apply list_elem_of_fmap. by exists s.
    + rewrite Heq. by left.
  - rewrite Forall_fmap, Forall_fmap, Forall_fmap. apply Forall_forall.
    intros s Hs. simpl. apply Hother. intros Heq.
    apply Hnotin. apply list_elem_of_fmap. by exists s.
Qed.

(** X25.  [deployChainContractsForChains] checks the home chain before it
    starts anything.  When the loaded state gives the home chain no
    capability registry, or the registry does not answer with the CCIP
    capability and its configuration contract, or that contract is not the
    CCIPHome of the state, or there is no RMNHome, the call ends in an
    error (a panic, where the CCIPHome record itself is absent), has sent
    no transaction to any chain and leaves no task running. *)
Theorem deployChainContractsForChains_checks_home_first
    finished e home chains state :
  LoadOnchainState e = Ok state ->
  (forall rmnHome,
     ~ homeChecksPass NewCCIPHome CapabilityLabelledName CapabilityVersion
         CCIPCapabilityID e state home rmnHome) ->
  is_ok (result (returned
                   (deployChainContractsForChains LoadOnchainState NewCCIPHome
                      CapabilityLabelledName CapabilityVersion CCIPCapabilityID
                      finished e home chains))) = false /\
  Forall (fun ev => isMutating ev = false)
    (events (returned
               (deployChainContractsForChains LoadOnchainState NewCCIPHome
                  CapabilityLabelledName CapabilityVersion CCIPCapabilityID
                  finished e home chains))) /\
  unjoined (deployChainContractsForChains LoadOnchainState NewCCIPHome
              CapabilityLabelledName CapabilityVersion CCIPCapabilityID
              finished e home chains) = [].
Proof.
  intros Hload Hno. unfold deployChainContractsForChains.
  cbn [returned unjoined].
  rewrite Hload, bind_load.
  destruct (StCapabilityRegistry (chainStateOf state home)) as [capReg|] eqn:Hreg;
    [|by split_and!; repeat constructor].
  destruct (ReadsGetHashedCapabilityId capReg CapabilityLabelledName
              CapabilityVersion) as [cr|err] eqn:Hid;
    [|destruct err; by split_and!; repeat constructor].
  rewrite bind_read.
  destruct (bool_decide (cr ≠ CCIPCapabilityID)) eqn:Hne;
    [by split_and!; repeat constructor|].
  apply bool_decide_eq_false_1 in Hne.
  assert (cr = CCIPCapabilityID) as -> by (by destruct (decide (cr = CCIPCapabilityID))).
  destruct (ReadsGetCapability capReg CCIPCapabilityID) as [capability|err] eqn:Hcap;
    [|destruct err; by split_and!; repeat constructor].
  rewrite bind_read.
  destruct (NewCCIPHome (ConfigurationContract capability) (chainOf e home))
    as [ccipHome|err] eqn:Hnew;
    [|destruct err; by split_and!; repeat constructor].
  rewrite bind_load.
  destruct (StCCIPHome (chainStateOf state home)) as [existing|] eqn:Hhome;
    [|by split_and!; repeat constructor].
  destruct (bool_decide (ccipHome ≠ existing)) eqn:Hne';
    [by split_and!; repeat constructor|].
  apply bool_decide_eq_false_1 in Hne'.
  assert (ccipHome = existing) as -> by (by destruct (decide (ccipHome = existing))).
  destruct (StRMNHome (chainStateOf state home)) as [rmnHome|] eqn:Hrmn;
    [|by split_and!; repeat constructor].
  exfalso. apply (Hno rmnHome). exists capReg, capability, existing.
  by split_and!.
Qed.

(** X26.  Once its checks have passed, an error that
    [deployChainContractsForChains] returns is the error of one of its
    tasks, and says for which chain: it is the wrapped error "failed to
    deploy chain contracts for chain <selector>" of a selector of the
    request (or a panic that came up in a task). *)
Theorem deployChainContractsForChains_error_names_chain
    finished e home chains state rmnHome err :
  LoadOnchainState e = Ok state ->
  homeChecksPass NewCCIPHome CapabilityLabelledName CapabilityVersion
    CCIPCapabilityID e state home rmnHome ->
  Forall (targetChecksPass e state) chains ->
  result (returned
            (deployChainContractsForChains LoadOnchainState NewCCIPHome
               CapabilityLabelledName CapabilityVersion CCIPCapabilityID
               finished e home chains)) = Err err ->
  (exists msg, err = Panic msg) \/
  exists sel inner,
    sel ∈ chains /\
    err = Errorf "failed to deploy chain contracts for chain %d: %w"
            [ArgUint sel; ArgErr inner].
Proof.
  intros Hload Hhome Hvalid.
  destruct (deployChainContractsForChains_joins LoadOnchainState NewCCIPHome
              CapabilityLabelledName CapabilityVersion CCIPCapabilityID
              finished e home chains state rmnHome Hload Hhome Hvalid)
    as (_ & reads & tail & ->).
  unfold result at 1. cbn [fst]. unfold Wait, result at 1. cbn [fst goroutines].
  set (tasks := chainContractsTask LoadOnchainState e rmnHome <$> chains).
  fold (completionOrder finished tasks).
  pose proof (firstError_spec (completionOrder finished tasks)) as Hspec.
  intros Herr. rewrite Herr in Hspec.
  destruct Hspec as (pre & m & post & Heq & _ & Hm).
  assert (Hin : m ∈ tasks).
  { apply (completionOrder_subset finished). rewrite Heq.
    apply elem_of_app. right. by left. }
  apply list_elem_of_fmap in Hin as (sel & -> & Hsel).
  unfold chainContractsTask in Hm.
  destruct (deployChainContracts LoadOnchainState e (chainOf e sel) rmnHome)
    as [[[]|inner] t]; [done|].
  destruct inner; simpl in Hm; injection Hm as <-; eauto 6.
Qed.

End ccip_isolation.

Section ccip_isolation_witnesses.
Import CCIP CCIPSpec CCIPNotions CCIPSamples CCIPCases.

Lemma prerequisite_fanout_keeps_chains_apart_witness :
  onChain 2%N
    (events (deployPrerequisiteChainContracts loadTwoChainState modelDeployUSDC
               [1; 0] twoChainEnv [1%N; 2%N] [WithUSDCChains [2%N]]))
  = onChain 2%N
      (events (deployPrerequisiteContracts modelDeployUSDC twoChainEnv
                 twoChainState (healthyChain 2 300 false) [WithUSDCChains [2%N]])).
Proof.
  apply (prerequisite_fanout_keeps_chains_apart loadTwoChainState
           modelDeployUSDC [1; 0] twoChainEnv [1%N; 2%N] [WithUSDCChains [2%N]]
           twoChainState 2%N).
  - reflexivity.
  - vm_compute. apply NoDup_cons. split.
    + intros Hin. apply list_elem_of_singleton in Hin. discriminate Hin.
    + apply NoDup_singleton.
  - intros chain rmnProxy r. apply modelDeployUSDC_local.
  - apply perm_swap.
  - right. by left.
Defined.

Lemma deployChainContractsForChains_checks_home_first_witness :
  is_ok (result (returned
                   (deployChainContractsForChains loadThreeChainState
                      sampleNewCCIPHome "ccip" "v1.0.0" sampleCapabilityID
                      [0] threeChainEnv 2%N [1%N]))) = false /\
  Forall (fun ev => isMutating ev = false)
    (events (returned
               (deployChainContractsForChains loadThreeChainState
                  sampleNewCCIPHome "ccip" "v1.0.0" sampleCapabilityID
                  [0] threeChainEnv 2%N [1%N]))) /\
  unjoined (deployChainContractsForChains loadThreeChainState
              sampleNewCCIPHome "ccip" "v1.0.0" sampleCapabilityID
              [0] threeChainEnv 2%N [1%N]) = [].
Proof.
  apply (deployChainContractsForChains_checks_home_first loadThreeChainState
           sampleNewCCIPHome "ccip" "v1.0.0" sampleCapabilityID
           [0] threeChainEnv 2%N [1%N] threeChainState).
  - reflexivity.
  - intros rmnHome (capReg & _ & _ & Hreg & _). vm_compute in Hreg.
    discriminate Hreg.
Defined.

Lemma deployChainContractsForChains_error_names_chain_witness :
  (exists msg, Errorf "failed to deploy chain contracts for chain %d: %w"
                 [ArgUint 2%N; ArgErr (Opaque "execution reverted")]
               = Panic msg) \/
  exists sel inner,
    sel ∈ [1%N; 2%N] /\
    Errorf "failed to deploy chain contracts for chain %d: %w"
      [ArgUint 2%N; ArgErr (Opaque "execution reverted")]
    = Errorf "failed to deploy chain contracts for chain %d: %w"
        [ArgUint sel; ArgErr inner].
Proof.
  apply (deployChainContractsForChains_error_names_chain loadThreeChainState
           sampleNewCCIPHome "ccip" "v1.0.0" sampleCapabilityID
           [1; 0] faultyEnv 1%N [1%N; 2%N] threeChainState sampleRMNHome).
  - reflexivity.
  - exists sampleCapReg, {| ConfigurationContract := 152%N |}, 152%N.
    by split_and!.
  - apply Forall_cons_2; [|apply Forall_cons_2; [|apply Forall_nil_2]];
      unfold targetChecksPass; split_and!; vm_compute; eauto.
  - vm_compute. reflexivity.
Defined.

End ccip_isolation_witnesses.

(** ** [configureChain] at its edges, and [deployCCIPContracts] *)

Section ccip_configure_edges.
Import CCIP CCIPSpec CCIPNotions.

Variable LoadOnchainState : Environment -> Result CCIPOnChainState.
Variable NewCCIPHome : Address -> Chain -> Result Address.
Variable CapabilityLabelledName : string.
Variable CapabilityVersion : string.
Variable CCIPCapabilityID : Hash.
Variable USDCCCTPHandlerType : string.
Variable OCRSecrets : Type.
Variable IsEmpty : OCRSecrets -> bool.
Variable TokenConfig : Type.
Variable TokenInfo : Type.
Variable GetTokenInfo : TokenConfig -> option Address -> option Address -> TokenInfo.
Variable NodeInfo : list string -> Result (list Node).
Variable AddChainConfig : Chain -> Address -> N -> list N -> M Event unit.
Variable AddDON :
  OCRSecrets -> CapabilityRegistryBinding -> Address -> Address -> Address ->
  N -> TokenInfo -> Chain -> Chain -> list Node ->
  list TokenDataObserverConfig -> M Event unit.
Variable Merge : AddressBook -> AddressBook -> Result AddressBook.

(** X27.  With OCR secrets at hand but no node to be found,
    [configureChain] reports success without configuring anything: when
    [NodeInfo] returns an empty list and no error, the call logs one error
    line and returns nil, whatever the state holds and whatever targets
    were asked for; neither wiring helper is called. *)
Theorem configureChain_without_nodes e c :
  IsEmpty (CfgOCRSecrets c) = false ->
  NodeInfo (NodeIDs e) = Ok [] ->
  configureChain LoadOnchainState USDCCCTPHandlerType OCRSecrets IsEmpty
    TokenConfig TokenInfo GetTokenInfo NodeInfo AddChainConfig AddDON e c
  = (Ok tt, [Log Error "Failed to get node info"]).
Proof.
  intros Hsecrets Hnodes. unfold configureChain.
  by rewrite Hsecrets, Hnodes.
Qed.

(** X28.  A target selector that the environment has no chain for is
    looked up in the state as chain 0, the selector of the zero
    [deployment.Chain]: with such a selector first among the targets and no
    chain 0 in the state, [configureChain] fails before any wiring call
    with "chain state not found for chain 0", which does not name the
    selector that was asked for. *)
Theorem configureChain_unknown_target e c nodes state chainSel rest :
  IsEmpty (CfgOCRSecrets c) = false ->
  NodeInfo (NodeIDs e) = Ok nodes ->
  nodes <> [] ->
  LoadOnchainState e = Ok state ->
  is_Some (StCapabilityRegistry (chainStateOf state (HomeChainSel c))) ->
  is_Some (StCCIPHome (chainStateOf state (HomeChainSel c))) ->
  is_Some (StRMNHome (chainStateOf state (HomeChainSel c))) ->
  ChainsToDeploy c = chainSel :: rest ->
  Chains e !! chainSel = None ->
  StateChains state !! 0%N = None ->
  configureChain LoadOnchainState USDCCCTPHandlerType OCRSecrets IsEmpty
    TokenConfig TokenInfo GetTokenInfo NodeInfo AddChainConfig AddDON e c
  = (Err (Errorf "chain state not found for chain %d" [ArgUint 0%N]), []).
Proof.
  intros Hsecrets Hnodes Hne Hload [capReg Hreg] [ccipHome Hhome] [rmnHome Hrmn]
    Htargets Hchain Hzero.
  unfold configureChain.
  rewrite Hsecrets, Hnodes.
  rewrite bool_decide_eq_false_2 by (by destruct nodes).
  rewrite Hload, bind_load, Hreg, Hhome, Hrmn, Htargets.
  cbn [configureChainLoop]. unfold chainOf. rewrite Hchain.
  change (Selector (default zeroChain None)) with 0%N.
  by rewrite Hzero.
Qed.

(** Where [deployChainContractsForChains] returns nil it has waited for
    every task it started. *)
Lemma deployChainContractsForChains_nil_joined finished e home chains :
  result (returned
            (deployChainContractsForChains LoadOnchainState NewCCIPHome
               CapabilityLabelledName CapabilityVersion CCIPCapabilityID
               finished e home chains)) = Ok tt ->
  unjoined (deployChainContractsForChains LoadOnchainState NewCCIPHome
              CapabilityLabelledName CapabilityVersion CCIPCapabilityID
              finished e home chains) = [].
Proof.
  unfold deployChainContractsForChains. cbn [returned unjoined].
  match goal with |- result (bind ?s _) = _ -> _ => generalize s end.
  intros [[[g [err|]]|err] t]; by simpl.
Qed.

(** X29.  [deployCCIPContracts] works in stages and goes on only after
    success.  It returns nil exactly when the deployment of the chain
    contracts returned nil, the address book with the records saved by that
    deployment merged into the environment's book, and [configureChain], on
    the environment with the merged book, returned nil.  Up to its return,
    what the deployment did comes first, and when the deployment or the
    merge fails the function adds nothing but log lines: [configureChain]
    is not started.  The tasks that the deployment started and did not wait
    for are not waited for here either: they are running still when the
    function returns.  There are none when the deployment returned nil, so
    that the merge and [configureChain] run after every task has
    finished. *)
Theorem deployCCIPContracts_stages finished e ab c :
  let run :=
    deployCCIPContracts LoadOnchainState NewCCIPHome CapabilityLabelledName
      CapabilityVersion CCIPCapabilityID USDCCCTPHandlerType OCRSecrets IsEmpty
      TokenConfig TokenInfo GetTokenInfo NodeInfo AddChainConfig AddDON Merge
      finished e ab c in
  let deployment :=
    deployChainContractsForChains LoadOnchainState NewCCIPHome
      CapabilityLabelledName CapabilityVersion CCIPCapabilityID
      finished e (HomeChainSel c) (ChainsToDeploy c) in
  let saved := applySaves (events (returned deployment)) ab in
  (result (returned run) = Ok tt <->
   result (returned deployment) = Ok tt /\
   exists merged,
     Merge (ExistingAddresses e) saved = Ok merged /\
     result (configureChain LoadOnchainState USDCCCTPHandlerType OCRSecrets
               IsEmpty TokenConfig TokenInfo GetTokenInfo NodeInfo
               AddChainConfig AddDON
               {| Chains := Chains e; ExistingAddresses := merged;
                  NodeIDs := NodeIDs e |} c) = Ok tt) /\
  (exists rest,
     events (returned run) = events (returned deployment) ++ rest /\
     (is_ok (result (returned deployment)) = false \/
      is_ok (Merge (ExistingAddresses e) saved) = false ->
      Forall (fun ev => isLog ev = true) rest)) /\
  unjoined run = unjoined deployment /\
  (result (returned deployment) = Ok tt -> unjoined deployment = []).
Proof.
  intros run deployment saved.
  split; [|split; [|split; [done|apply deployChainContractsForChains_nil_joined]]].
  all: unfold run, deployCCIPContracts; cbv zeta; fold deployment;
    cbn [returned]; clearbody deployment; clear run.
  all: assert (Hsaved : applySaves
                     (events (on_error_do [Log Error "Failed to deploy chain contracts"]
                                id (returned deployment))) ab = saved)
    by (unfold saved; destruct (returned deployment) as [[[]|[]] t]; simpl;
        try done; unfold applySaves; by rewrite foldl_app).
  all: rewrite Hsaved; clear Hsaved; clearbody saved.
  all: destruct (returned deployment) as [[[]|err] t] eqn:Hdep.
  - change (on_error_do _ id (Ok tt, t)) with (@pair (Result unit) _ (Ok tt) t).
    cbn [bind].
    destruct (Merge (ExistingAddresses e) saved) as [merged|err] eqn:Hmerge.
    + cbn [on_error_do lift bind].
      destruct (configureChain _ _ _ _ _ _ _ _ _ _
                  {| Chains := Chains e; ExistingAddresses := merged;
                     NodeIDs := NodeIDs e |} c)
        as [[[]|err] t'] eqn:Hcfg.
      * cbn. split; [intros _|done]. split; [done|]. exists merged.
        by rewrite Hcfg.
      * split; [by destruct err|].
        intros (_ & merged' & [= <-] & Hres). by rewrite Hcfg in Hres.
    + split; [by destruct err|]. by intros (_ & merged & [=] & _).
  - split; [by destruct err|]. by intros [[=] _].
  - change (on_error_do _ id (Ok tt, t)) with (@pair (Result unit) _ (Ok tt) t).
    cbn [bind].
    destruct (Merge (ExistingAddresses e) saved) as [merged|err] eqn:Hmerge.
    + cbn [on_error_do lift bind].
      destruct (configureChain _ _ _ _ _ _ _ _ _ _
                  {| Chains := Chains e; ExistingAddresses := merged;
                     NodeIDs := NodeIDs e |} c)
        as [[[]|err] t'] eqn:Hcfg.
      * cbn. exists t'. split; [done|]. by intros [|].
      * destruct err; cbn; eexists; (split; [reflexivity|]); by intros [|].
    + destruct err; cbn; eexists;
        (split; [first [reflexivity|symmetry; apply app_nil_r]|]);
        intros _; by repeat constructor.
  - destruct err; cbn; eexists;
      (split; [first [reflexivity|symmetry; apply app_nil_r]|]);
      intros _; by repeat constructor.
Qed.

End ccip_configure_edges.

Section ccip_configure_edges_witnesses.
Import CCIP CCIPSpec CCIPNotions CCIPSamples CCIPCases.

Lemma configureChain_without_nodes_witness :
  configureChain loadThreeChainState "usdc-cctp" unit (fun _ => false) unit unit
    (fun _ _ _ => tt) (fun _ => Ok []) modelAddChainConfig modelAddDON
    threeChainEnv
    {| HomeChainSel := 1%N; FeedChainSel := 1%N; ChainsToDeploy := [1%N; 2%N];
       CfgTokenConfig := tt; CfgOCRSecrets := tt;
       CfgUSDCConfig := sampleUSDCConfig |}
  = (Ok tt, [Log Error "Failed to get node info"]).
Proof.
  apply (configureChain_without_nodes loadThreeChainState "usdc-cctp" unit
           (fun _ => false) unit unit (fun _ _ _ => tt) (fun _ => Ok [])
           modelAddChainConfig modelAddDON threeChainEnv);
    reflexivity.
Defined.

Lemma configureChain_unknown_target_witness :
  sampleConfigureChain 1%N [4%N; 1%N]
  = (Err (Errorf "chain state not found for chain %d" [ArgUint 0%N]), []).
Proof.
  eapply (configureChain_unknown_target loadThreeChainState "usdc-cctp" unit
           (fun _ => false) unit unit (fun _ _ _ => tt) sampleNodeInfo
           modelAddChainConfig modelAddDON threeChainEnv
           {| HomeChainSel := 1%N; FeedChainSel := 1%N;
              ChainsToDeploy := [4%N; 1%N]; CfgTokenConfig := tt;
              CfgOCRSecrets := tt; CfgUSDCConfig := sampleUSDCConfig |}
           _ threeChainState 4%N [1%N]).
  - reflexivity.
  - reflexivity.
  - done.
  - reflexivity.
  - by eexists.
  - by eexists.
  - by eexists.
  - reflexivity.
  - by vm_compute.
  - by vm_compute.
Defined.

End ccip_configure_edges_witnesses.

(** ** The tasks of the fan-out *)

Section ccip_fanout_tasks.
Import CCIP CCIPSpec CCIPNotions.

Variable LoadOnchainState : Environment -> Result CCIPOnChainState.
Variable DeployUSDC : Chain -> Address -> Address -> M Event USDCContracts.

(** X30.  The fan-out of the prerequisites does what its tasks do, no
    more and no less.  Once the state is loaded and every task has
    finished, the events of [deployPrerequisiteChainContracts] are, up to
    the order in which the tasks finished, the events of one run of the
    per-chain task for each selector of the list, taken as often as it is
    listed: a selector given twice is deployed to twice, from the same
    loaded state. *)
Theorem prerequisite_fanout_runs_each_selector finished e selectors opts state :
  LoadOnchainState e = Ok state ->
  finished ≡ₚ seq 0 (length selectors) ->
  events (deployPrerequisiteChainContracts LoadOnchainState DeployUSDC
            finished e selectors opts)
  ≡ₚ mjoin ((fun sel => events (prerequisiteTask DeployUSDC e state opts sel))
            <$> selectors).
Proof.
  intros Hload Hperm.
  rewrite (deployPrerequisiteChainContracts_joins _ _ _ _ _ _ _ Hload).
  unfold Wait, events at 1. cbn [snd goroutines].
  fold (completionOrder finished (prerequisiteTask DeployUSDC e state opts
                                    <$> selectors)).
  rewrite completionOrder_Permutation by (by rewrite length_fmap).
  by rewrite <- list_fmap_compose.
Qed.

End ccip_fanout_tasks.

Section ccip_fanout_tasks_witnesses.
Import CCIP CCIPSpec CCIPNotions CCIPSamples CCIPCases.

Lemma prerequisite_fanout_runs_each_selector_witness :
  events (deployPrerequisiteChainContracts loadTwoChainState modelDeployUSDC
            [1; 0] twoChainEnv [2%N; 2%N] [])
  ≡ₚ mjoin ((fun sel => events (prerequisiteTask modelDeployUSDC twoChainEnv
                                  twoChainState [] sel)) <$> [2%N; 2%N]).
Proof.
  apply (prerequisite_fanout_runs_each_selector loadTwoChainState
           modelDeployUSDC [1; 0] twoChainEnv [2%N; 2%N] [] twoChainState).
  - reflexivity.
  - apply perm_swap.
Defined.

End ccip_fanout_tasks_witnesses.
